(** * dionaea SIP module: session and call state machine

    A shallow embedding of [modules/python/scripts/sip/__init__.py]
    (classes [RegistrationManager], [SipCall], [SipSession]) and the
    properties of its call life cycle, CANCEL/ACK handling and REGISTER
    digest challenge.

    Python objects that are shared by reference ([SipCall] instances, which
    are reachable both from [SipSession._callids] and from their own timer)
    live in an object store indexed by identity; methods are state
    transformers that may raise. *)

From Stdlib Require Import ZArith QArith String Ascii List Lia.
From stdpp Require Import gmap strings list fin_maps.

Local Open Scope string_scope.
Local Open Scope list_scope.
Local Open Scope Z_scope.

(** ** Python values used by the module *)

(** A [bytes] object; Python [str] objects are kept apart from them by
    [PyText] where the source mixes the two. *)
Definition bytes := string.

Inductive PyText :=
| PyStr (s : string)
| PyBytes (b : bytes).

Inductive PyExn :=
| AttributeError
| IndexError
| ValueError
| AuthenticationError
| SipParsingError
| KeyError
| DanglingObject.

Inductive Res (A : Type) :=
| Ret (a : A)
| Raise (e : PyExn).
Arguments Ret {A} a.
Arguments Raise {A} e.

(** [bytes.lower()]: only the ASCII letters A-Z are changed. *)
Definition lower_ascii (c : ascii) : ascii :=
  let n := nat_of_ascii c in
  if (Nat.leb 65 n && Nat.leb n 90)%bool then ascii_of_nat (n + 32) else c.

Fixpoint lower (b : bytes) : bytes :=
  match b with
  | EmptyString => EmptyString
  | String c r => String (lower_ascii c) (lower r)
  end.

(** ** Messages, as the parser of [dionaea.sip.rfc3261] hands them over *)

Record CSeq := { cseq_seq : Z; cseq_method : bytes }.

Record Via := { via_branch : option bytes }.

Record Media := { media : bytes; port : Z }.

(** A parsed message: [h_x] is what [msg.headers.get(b"x")] yields ([None]
    when the header is absent); [h_to] holds [get_raw().uri.user] of the To
    header, [h_authorization] the value of the first Authorization header,
    [sdp] the media list [msg.sdp[b"m"]]. *)
Record Message := {
  method : option bytes;
  h_to : option bytes;
  h_from : option bytes;
  h_call_id : option bytes;
  h_cseq : option CSeq;
  h_via : list Via;
  h_content_type : option bytes;
  h_authorization : option bytes;
  sdp : option (list Media)
}.

(** [rfc2617.Authentication(method=, algorithm=, nonce=, realm=)] *)
Record Authentication := {
  auth_method : string;
  algorithm : string;
  nonce : PyText;
  auth_realm : string
}.

Inductive HeaderValue :=
| HText (s : string)
| HAuth (a : Authentication).

(** The argument of [rfc4566.SDP(g_sipconfig.get_sdp_by_name(...))]. *)
Record SdpBody := {
  sdp_name : string;
  unicast_address : string;
  addrtype : string
}.

(** [msg.create_response(code)] and what the handlers add to it. *)
Record Response := {
  status : Z;
  request : Message;
  appended : list (HeaderValue * string);
  res_sdp : option SdpBody
}.

Definition create_response (msg : Message) (code : Z) : Response :=
  {| status := code; request := msg; appended := []; res_sdp := None |}.

Definition append_header (h : HeaderValue * string) (r : Response) : Response :=
  {| status := status r; request := request r;
     appended := appended r ++ [h]; res_sdp := res_sdp r |}.

Definition with_sdp (b : SdpBody) (r : Response) : Response :=
  {| status := status r; request := request r;
     appended := appended r; res_sdp := Some b |}.

(** What travels: the raw datagram received, or [res.dumps()]. *)
Inductive Payload :=
| Raw (data : bytes)
| Dumps (r : Response).

Inductive Direction := dir_in | dir_out.

(** ** Configuration *)

(** A user of [g_sipconfig]; [password = None] disables authentication. *)
Record SipUser := {
  username : bytes;
  password : option string;
  user_realm : string;
  pickup_delay_min : Z;
  pickup_delay_max : Z;
  user_sdp : string
}.

(** The collaborators that are imported by the module and not part of it. *)
Record Collaborators := {
  (** [rfc3261.Message(data)] *)
  rfc3261_Message : bytes -> Res Message;
  (** [m.decode("utf-8").upper()], [None] when decoding raises *)
  decode_upper : bytes -> option string;
  (** [g_sipconfig.get_personality_by_address] *)
  get_personality_by_address : string -> string;
  (** [g_sipconfig.get_user_by_username(personality, user)] *)
  get_user_by_username : string -> bytes -> option SipUser;
  (** [challenge.check(username, password, method, auth_response)], the
      last argument being [rfc2617.Authentication(header value)] *)
  auth_check : Authentication -> bytes -> string -> string -> bytes -> bool
}.

(** ** Registration *)

Record User := { user_id : bytes; user_branch : option bytes; expires : Z }.

Definition User_init (uid : bytes) (br : option bytes) : User :=
  {| user_id := uid; user_branch := br; expires := 3600 |}.

Record RegistrationManager := {
  _users : gmap string (list User);
  _branches : gmap string (list User)
}.

Definition RegistrationManager_init : RegistrationManager :=
  {| _users := ∅; _branches := ∅ |}.

Definition register (user : User) (r : RegistrationManager) : RegistrationManager :=
  let users :=
    match _users r !! user_id user with
    | None => <[user_id user := []]> (_users r)
    | Some _ => _users r
    end in
  {| _users := <[user_id user := default [] (users !! user_id user) ++ [user]]> users;
     _branches := _branches r |}.

(** ** Timers, streams, calls, sessions *)

(** [pyev.Timer(after, repeat, loop, callback)] *)
Record Timer := {
  after : Q;
  repeat : Q;
  active : bool;
  data : option Message
}.

Definition Timer_init (a r : Q) : Timer :=
  {| after := a; repeat := r; active := false; data := None |}.

Definition Timer_set (a r : Q) (t : Timer) : Timer :=
  {| after := a; repeat := r; active := active t; data := data t |}.

Definition Timer_set_data (m : Message) (t : Timer) : Timer :=
  {| after := after t; repeat := repeat t; active := active t; data := Some m |}.

Definition Timer_start (t : Timer) : Timer :=
  {| after := after t; repeat := repeat t; active := true; data := data t |}.

Definition Timer_stop (t : Timer) : Timer :=
  {| after := after t; repeat := repeat t; active := false; data := data t |}.

Record RtpUdpStream := {
  rtp_local_host : string;
  rtp_remote_host : string;
  rtp_remote_port : Z
}.

Inductive CallState :=
| NO_SESSION
| SESSION_SETUP
| ACTIVE_SESSION
| SESSION_TEARDOWN
| INVITE
| INVITE_TRYING
| INVITE_RINGING
| INVITE_CANCEL
| CALL.

Definition CallState_eqb (a b : CallState) : bool :=
  match a, b with
  | NO_SESSION, NO_SESSION | SESSION_SETUP, SESSION_SETUP
  | ACTIVE_SESSION, ACTIVE_SESSION | SESSION_TEARDOWN, SESSION_TEARDOWN
  | INVITE, INVITE | INVITE_TRYING, INVITE_TRYING
  | INVITE_RINGING, INVITE_RINGING | INVITE_CANCEL, INVITE_CANCEL
  | CALL, CALL => true
  | _, _ => false
  end.

Record SipCall := {
  call_state : CallState;
  call_remote_address : string;
  call_remote_sip_port : Z;
  call_remote_rtp_port : Z;
  call_msg : Message;
  call_call_id : bytes;
  _rtp_stream : option RtpUdpStream;
  call_local_host : string;
  _user : option SipUser;
  invite_handler : Timer;
  call_closed : bool
}.

(** What [SipSession._auth] can hold: the list [[]] it is initialised with,
    [None], or a challenge. *)
Inductive AuthSlot :=
| SlotList
| SlotNone
| SlotAuth (a : Authentication).

Definition is_None (s : AuthSlot) : bool :=
  match s with SlotNone => true | _ => false end.

Definition SessionKey : Type := (string * Z) * (string * Z).

Record SipSession := {
  sessionkey : SessionKey;
  personality : string;
  _callids : gmap string nat;
  timers : list Timer;
  bistream : list (Direction * Payload);
  _auth : AuthSlot
}.

Definition local (s : SipSession) : string * Z := fst (sessionkey s).
Definition remote (s : SipSession) : string * Z := snd (sessionkey s).

(** The state the handlers act on: the session, the [SipCall] objects by
    identity, the module-level [reg_manager], and what [server.send] was
    given, as (local, remote, payload). *)
Record World := {
  session : SipSession;
  calls : gmap nat SipCall;
  reg_manager : RegistrationManager;
  wire : list ((string * Z) * (string * Z) * Payload)
}.

(** ** Handlers as state transformers that may raise

    A raised exception leaves the mutations made before it in place. *)

Definition M (A : Type) : Type := World -> World * Res A.

Definition ret {A} (a : A) : M A := fun w => (w, Ret a).

Definition raise {A} (e : PyExn) : M A := fun w => (w, Raise e).

Definition bind {A B} (m : M A) (k : A -> M B) : M B :=
  fun w =>
    match m w with
    | (w', Ret a) => k a w'
    | (w', Raise e) => (w', Raise e)
    end.

Declare Scope py_scope.
Delimit Scope py_scope with py.
Notation "x <- m ;; k" := (bind m (fun x => k))
  (at level 100, m at next level, right associativity) : py_scope.
Notation "m ;; k" := (bind m (fun _ => k))
  (at level 100, right associativity) : py_scope.
Local Open Scope py_scope.

(** [try: m except AuthenticationError: h] *)
Definition try_except_AuthenticationError (m h : M unit) : M unit :=
  fun w =>
    match m w with
    | (w', Raise AuthenticationError) => h w'
    | r => r
    end.

(** [None.attr], [[].attr]: attribute access on an absent value. *)
Definition attr {A} (o : option A) : M A :=
  match o with
  | Some a => ret a
  | None => raise AttributeError
  end.

Definition get_session : M SipSession := fun w => (w, Ret (session w)).

Definition modify_session (f : SipSession -> SipSession) : M unit :=
  fun w =>
    ({| session := f (session w); calls := calls w;
        reg_manager := reg_manager w; wire := wire w |}, Ret tt).

Definition get_call (self : nat) : M SipCall :=
  fun w =>
    match calls w !! self with
    | Some c => (w, Ret c)
    | None => (w, Raise DanglingObject)
    end.

Definition modify_call (self : nat) (f : SipCall -> SipCall) : M unit :=
  fun w =>
    ({| session := session w; calls := alter f self (calls w);
        reg_manager := reg_manager w; wire := wire w |}, Ret tt).

Definition new_call (c : SipCall) : M nat :=
  fun w =>
    let self := fresh (dom (calls w)) in
    ({| session := session w; calls := <[self := c]> (calls w);
        reg_manager := reg_manager w; wire := wire w |}, Ret self).

Definition modify_reg_manager (f : RegistrationManager -> RegistrationManager) : M unit :=
  fun w =>
    ({| session := session w; calls := calls w;
        reg_manager := f (reg_manager w); wire := wire w |}, Ret tt).

Definition server_send (s : Payload) : M unit :=
  fun w =>
    ({| session := session w; calls := calls w; reg_manager := reg_manager w;
        wire := wire w ++ [(local (session w), remote (session w), s)] |}, Ret tt).

(** *** Field assignments *)

Definition set_callids (m : gmap string nat) (s : SipSession) : SipSession :=
  {| sessionkey := sessionkey s; personality := personality s; _callids := m;
     timers := timers s; bistream := bistream s; _auth := _auth s |}.

Definition set_bistream (b : list (Direction * Payload)) (s : SipSession) : SipSession :=
  {| sessionkey := sessionkey s; personality := personality s;
     _callids := _callids s; timers := timers s; bistream := b; _auth := _auth s |}.

Definition set_auth (a : AuthSlot) (s : SipSession) : SipSession :=
  {| sessionkey := sessionkey s; personality := personality s;
     _callids := _callids s; timers := timers s; bistream := bistream s;
     _auth := a |}.

Definition set_state (st : CallState) (c : SipCall) : SipCall :=
  {| call_state := st; call_remote_address := call_remote_address c;
     call_remote_sip_port := call_remote_sip_port c;
     call_remote_rtp_port := call_remote_rtp_port c; call_msg := call_msg c;
     call_call_id := call_call_id c; _rtp_stream := _rtp_stream c;
     call_local_host := call_local_host c; _user := _user c;
     invite_handler := invite_handler c; call_closed := call_closed c |}.

Definition set_rtp_stream (r : option RtpUdpStream) (c : SipCall) : SipCall :=
  {| call_state := call_state c; call_remote_address := call_remote_address c;
     call_remote_sip_port := call_remote_sip_port c;
     call_remote_rtp_port := call_remote_rtp_port c; call_msg := call_msg c;
     call_call_id := call_call_id c; _rtp_stream := r;
     call_local_host := call_local_host c; _user := _user c;
     invite_handler := invite_handler c; call_closed := call_closed c |}.

Definition on_timer (f : Timer -> Timer) (c : SipCall) : SipCall :=
  {| call_state := call_state c; call_remote_address := call_remote_address c;
     call_remote_sip_port := call_remote_sip_port c;
     call_remote_rtp_port := call_remote_rtp_port c; call_msg := call_msg c;
     call_call_id := call_call_id c; _rtp_stream := _rtp_stream c;
     call_local_host := call_local_host c; _user := _user c;
     invite_handler := f (invite_handler c); call_closed := call_closed c |}.

Definition set_closed (c : SipCall) : SipCall :=
  {| call_state := call_state c; call_remote_address := call_remote_address c;
     call_remote_sip_port := call_remote_sip_port c;
     call_remote_rtp_port := call_remote_rtp_port c; call_msg := call_msg c;
     call_call_id := call_call_id c; _rtp_stream := _rtp_stream c;
     call_local_host := call_local_host c; _user := _user c;
     invite_handler := invite_handler c; call_closed := true |}.

(** ** [random.randint]

    [randint(a, b)] is [randrange(a, b+1)]: it raises [ValueError] on an
    empty range and otherwise returns [a + k] for a [k] below the width
    [b+1-a] drawn from the generator; [rnd] is the generator's raw output,
    reduced below the width. *)
Definition randint (a b rnd : Z) : M Z :=
  let width := b + 1 - a in
  if 0 <? width then ret (a + rnd mod width) else raise ValueError.

(** ** SipSession.send *)

Definition SipSession_send (s : Payload) : M unit :=
  modify_session (fun se => set_bistream (bistream se ++ [(dir_out, s)]) se) ;;
  server_send s.

(** ** SipCall *)

Section Sip.
Context (ext : Collaborators).

Definition SipCall_init (conInfo : string * Z) (rtpPort : Z)
    (invite_message : Message) : M nat :=
  se <- get_session ;;
  call_id <- attr (h_call_id invite_message) ;;
  user <- attr (h_to invite_message) ;;
  new_call
    {| call_state := SESSION_SETUP;
       call_remote_address := fst conInfo;
       call_remote_sip_port := snd conInfo;
       call_remote_rtp_port := rtpPort;
       call_msg := invite_message;
       call_call_id := call_id;
       _rtp_stream := None;
       call_local_host := fst (local se);
       _user := get_user_by_username ext (personality se) user;
       invite_handler := Timer_init (5 # 1) (0 # 1);
       call_closed := false |}.

Definition SipCall_send (self : nat) (s : Payload) : M unit :=
  SipSession_send s.

(** The timer callback [SipCall.__handle_invite]; [rnd] feeds [randint]. *)
Definition SipCall_handle_invite (self : nat) (rnd : Z) : M unit :=
  c <- get_call self ;;
  match call_state c with
  | INVITE =>
      match _user c with
      | None =>
          SipCall_send self (Dumps (create_response (call_msg c) 404)) ;;
          modify_call self (set_state NO_SESSION)
      | Some _ =>
          SipCall_send self (Dumps (create_response (call_msg c) 100)) ;;
          modify_call self (set_state INVITE_TRYING) ;;
          modify_call self (on_timer (Timer_set (1 # 1) (0 # 1))) ;;
          modify_call self (on_timer Timer_start)
      end
  | INVITE_TRYING =>
      SipCall_send self (Dumps (create_response (call_msg c) 180)) ;;
      u <- attr (_user c) ;;
      delay <- randint (pickup_delay_min u) (pickup_delay_max u) rnd ;;
      modify_call self (set_state INVITE_RINGING) ;;
      modify_call self (on_timer (Timer_set (inject_Z delay) (0 # 1))) ;;
      modify_call self (on_timer Timer_start)
  | INVITE_RINGING =>
      modify_call self
        (set_rtp_stream
           (Some {| rtp_local_host := call_local_host c;
                    rtp_remote_host := call_remote_address c;
                    rtp_remote_port := call_remote_rtp_port c |})) ;;
      u <- attr (_user c) ;;
      SipCall_send self
        (Dumps (with_sdp {| sdp_name := user_sdp u;
                            unicast_address := call_local_host c;
                            addrtype := "IP4" |}
                         (create_response (call_msg c) 200))) ;;
      modify_call self (set_state CALL)
  | _ => ret tt
  end.

(** The event loop runs the callback of a one-shot timer when it expires,
    after which the timer is no longer active. *)
Definition fire_invite_handler (self : nat) (rnd : Z) : M unit :=
  c <- get_call self ;;
  if active (invite_handler c)
  then modify_call self (on_timer Timer_stop) ;; SipCall_handle_invite self rnd
  else ret tt.

Definition SipCall_close (self : nat) : M unit :=
  c <- get_call self ;;
  modify_session (fun se => set_callids (delete (call_call_id c) (_callids se)) se) ;;
  modify_call self (set_rtp_stream None) ;;
  (if active (invite_handler c)
   then modify_call self (on_timer Timer_stop)
   else ret tt) ;;
  modify_call self set_closed.

Definition SipCall_handle_INVITE (self : nat) (msg : Message) : M Z :=
  modify_call self (set_state INVITE) ;;
  modify_call self (on_timer (Timer_set (1 # 10) (0 # 1))) ;;
  modify_call self (on_timer (Timer_set_data msg)) ;;
  modify_call self (on_timer Timer_start) ;;
  ret 0.

Definition SipCall_handle_ACK (self : nat) (msg_ack : Message) : M (option bool) :=
  c <- get_call self ;;
  if negb (CallState_eqb (call_state c) INVITE_CANCEL) then ret None
  else
    cseq <- attr (h_cseq (call_msg c)) ;;
    cseq_ack <- attr (h_cseq msg_ack) ;;
    if negb (cseq_seq cseq =? cseq_seq cseq_ack) then ret None
    else SipCall_close self ;; ret (Some true).

Definition SipCall_handle_CANCEL (self : nat) (msg_cancel : Message) : M unit :=
  c <- get_call self ;;
  if negb (CallState_eqb (call_state c) INVITE
           || CallState_eqb (call_state c) INVITE_TRYING
           || CallState_eqb (call_state c) INVITE_RINGING)
  then ret tt
  else
    cseq <- attr (h_cseq (call_msg c)) ;;
    cseq_cancel <- attr (h_cseq msg_cancel) ;;
    if negb (cseq_seq cseq =? cseq_seq cseq_cancel) then ret tt
    else
      modify_call self (set_state INVITE_CANCEL) ;;
      modify_call self (on_timer Timer_stop) ;;
      SipCall_send self (Dumps (create_response (call_msg c) 487)) ;;
      SipCall_send self (Dumps (create_response msg_cancel 200)).

Definition SipCall_handle_BYE (self : nat) (msg_bye : Message) : M unit :=
  c <- get_call self ;;
  if negb (CallState_eqb (call_state c) INVITE_CANCEL) then ret tt
  else
    SipCall_send self (Dumps (create_response msg_bye 200)) ;;
    SipCall_close self.

End Sip.

(** ** SipSession *)

(** [msg.headers_exist(names)] over the headers the module asks for. *)
Definition has_header (msg : Message) (name : bytes) : bool :=
  if String.eqb name "to" then bool_decide (is_Some (h_to msg))
  else if String.eqb name "from" then bool_decide (is_Some (h_from msg))
  else if String.eqb name "call-id" then bool_decide (is_Some (h_call_id msg))
  else if String.eqb name "cseq" then bool_decide (is_Some (h_cseq msg))
  else if String.eqb name "content-type" then bool_decide (is_Some (h_content_type msg))
  else if String.eqb name "authorization" then bool_decide (is_Some (h_authorization msg))
  else if String.eqb name "via" then negb (bool_decide (h_via msg = []))
  else false.

Definition headers_exist (msg : Message) (names : list bytes) : bool :=
  forallb (has_header msg) names.

Section Session.
Context (ext : Collaborators).

Definition SipSession_init (key : SessionKey) : SipSession :=
  {| sessionkey := key;
     personality := get_personality_by_address ext (fst (fst key));
     _callids := ∅;
     timers := [Timer_init (3 # 1) (0 # 1);
                Timer_start (Timer_init (20 # 1) (0 # 1))];
     bistream := [];
     _auth := SlotList |}.

Definition handle_unknown (msg : Message) : M unit :=
  SipSession_send (Dumps (create_response msg 501)).

Definition handle_ACK (msg : Message) : M unit :=
  call_id <- attr (h_call_id msg) ;;
  se <- get_session ;;
  match _callids se !! call_id with
  | None => ret tt
  | Some call =>
      try_except_AuthenticationError
        (SipCall_handle_ACK call msg ;; ret tt)
        (ret tt)
  end.

Definition handle_BYE (msg : Message) : M unit :=
  call_id <- attr (h_call_id msg) ;;
  se <- get_session ;;
  match _callids se !! call_id with
  | None => ret tt
  | Some call =>
      try_except_AuthenticationError
        (SipCall_handle_BYE call msg)
        (ret tt)
  end.

Definition handle_CANCEL (msg : Message) : M unit :=
  call_id <- attr (h_call_id msg) ;;
  cseq <- attr (h_cseq msg) ;;
  se <- get_session ;;
  match _callids se !! call_id with
  | None => ret tt
  | Some call =>
      try_except_AuthenticationError
        (SipCall_handle_CANCEL call msg)
        (ret tt)
  end.

Definition handle_INVITE (msg : Message) : M unit :=
  if negb (headers_exist msg ["content-type"]) then ret tt
  else
    content_type <- attr (h_content_type msg) ;;
    if negb (String.eqb (lower content_type) "application/sdp") then ret tt
    else
      match sdp msg with
      | None => ret tt
      | Some medias =>
          if (length medias <? 1)%nat then ret tt
          else
            match find (fun m => String.eqb (lower (media m)) "audio") medias with
            | None => ret tt
            | Some audio =>
                call_id <- attr (h_call_id msg) ;;
                se <- get_session ;;
                match _callids se !! call_id with
                | Some _ => ret tt
                | None =>
                    call <- SipCall_init ext (remote se) (port audio) msg ;;
                    modify_session
                      (fun se => set_callids (<[call_id := call]> (_callids se)) se) ;;
                    try_except_AuthenticationError
                      (SipCall_handle_INVITE call msg ;; ret tt)
                      (SipCall_close call)
                end
            end
      end.

Definition handle_OPTIONS (msg : Message) : M unit :=
  let res := create_response msg 200 in
  let res := append_header (HText "INVITE, ACK, CANCEL, OPTIONS, BYE", "Allow") res in
  let res := append_header (HText "application/sdp", "Accept") res in
  let res := append_header (HText "en", "Accept-Language") res in
  SipSession_send (Dumps res).

(** The challenge both 401 branches of [handle_REGISTER] build. *)
Definition challenge (msg : Message) (n : PyText) (u : SipUser) : M unit :=
  let a := {| auth_method := "digest"; algorithm := "md5"; nonce := n;
              auth_realm := user_realm u |} in
  modify_session (set_auth (SlotAuth a)) ;;
  SipSession_send
    (Dumps (append_header (HAuth a, "www-authenticate") (create_response msg 401))).

(** [self._auth.check(...)]: only a challenge has the method. *)
Definition check (slot : AuthSlot) (name : bytes) (pw meth : string)
    (auth_response : bytes) : M bool :=
  match slot with
  | SlotAuth a => ret (auth_check ext a name pw meth auth_response)
  | SlotList | SlotNone => raise AttributeError
  end.

Definition handle_REGISTER (msg : Message) : M unit :=
  if negb (headers_exist msg ["to"; "from"; "call-id"; "cseq"]) then ret tt
  else
    via <- match last (h_via msg) with
           | Some v => ret v
           | None => raise IndexError
           end ;;
    let branch := via_branch via in
    uid <- attr (h_to msg) ;;
    se <- get_session ;;
    u <- attr (get_user_by_username ext (personality se) uid) ;;
    let finish :=
      modify_reg_manager (register (User_init uid branch)) ;;
      SipSession_send (Dumps (create_response msg 200)) in
    match password u with
    | None => finish
    | Some _ =>
        match h_authorization msg with
        | None => challenge msg (PyStr "foobar123") u
        | Some header_auth =>
            if is_None (_auth se) then challenge msg (PyStr "foobar123") u
            else
              ok <- check (_auth se) (username u) "test" "REGISTER" header_auth ;;
              if negb ok then challenge msg (PyBytes "foobar123") u
              else finish
        end
    end.

(** [getattr(self, "handle_" + name, None)] *)
Definition getattr_handle (name : string) : option (Message -> M unit) :=
  if String.eqb name "ACK" then Some handle_ACK
  else if String.eqb name "BYE" then Some handle_BYE
  else if String.eqb name "CANCEL" then Some handle_CANCEL
  else if String.eqb name "INVITE" then Some handle_INVITE
  else if String.eqb name "OPTIONS" then Some handle_OPTIONS
  else if String.eqb name "REGISTER" then Some handle_REGISTER
  else None.

Definition handle_io_in (data : bytes) : M Z :=
  modify_session (fun se => set_bistream (bistream se ++ [(dir_in, Raw data)]) se) ;;
  msg <- (fun w => (w, rfc3261_Message ext data)) ;;
  let func :=
    match method msg with
    | None => None
    | Some m =>
        match decode_upper ext m with
        | None => None
        | Some name => getattr_handle name
        end
    end in
  match func with
  | Some f => f msg
  | None => handle_unknown msg
  end ;;
  ret (Z.of_nat (String.length data)).

Definition World_init (key : SessionKey) : World :=
  {| session := SipSession_init key; calls := ∅;
     reg_manager := RegistrationManager_init; wire := [] |}.

End Session.

(** * Vocabulary of the properties *)

Definition state_of (self : nat) (w : World) : option CallState :=
  call_state <$> calls w !! self.

Definition timer_of (self : nat) (w : World) : option Timer :=
  invite_handler <$> calls w !! self.

(** What [SipSession.send] adds to the wire for a response. *)
Definition sent (w : World) (r : Response) : (string * Z) * (string * Z) * Payload :=
  (local (session w), remote (session w), Dumps r).

Definition cancellable (s : CallState) : Prop :=
  s = INVITE \/ s = INVITE_TRYING \/ s = INVITE_RINGING.

Ltac run_py :=
  unfold SipCall_send, SipSession_send, server_send, modify_session,
    modify_call, get_session, get_call, attr, bind, ret, raise in *;
  simpl in *.

(** The world after [SipCall.close] of the call object [c] at [self]. *)
Definition closed_world (self : nat) (c : SipCall) (w : World) : World :=
  {| session := set_callids (delete (call_call_id c) (_callids (session w))) (session w);
     calls := <[self := set_closed (on_timer Timer_stop (set_rtp_stream None c))]> (calls w);
     reg_manager := reg_manager w;
     wire := wire w |}.

(** The call object after the TRYING step armed the timer with [delay]. *)
Definition ringing (delay : Z) (c : SipCall) : SipCall :=
  on_timer Timer_start
    (on_timer (Timer_set (inject_Z delay) (0 # 1)) (set_state INVITE_RINGING c)).

(** *** Runs of one call

    What can happen to a call once it exists: its timer expires, or the
    session hands it an ACK, a BYE or a CANCEL.  Each is a callback of its
    own: an exception ends that callback and the next event finds the world
    as the callback left it. *)

Inductive CallEvent :=
| EvTimer (rnd : Z)
| EvACK (m : Message)
| EvBYE (m : Message)
| EvCANCEL (m : Message).

Definition is_CANCEL (ev : CallEvent) : bool :=
  match ev with EvCANCEL _ => true | _ => false end.

Definition call_event (self : nat) (ev : CallEvent) : M unit :=
  match ev with
  | EvTimer rnd => fire_invite_handler self rnd
  | EvACK m => SipCall_handle_ACK self m ;; ret tt
  | EvBYE m => SipCall_handle_BYE self m
  | EvCANCEL m => SipCall_handle_CANCEL self m
  end.

Fixpoint run_call (self : nat) (evs : list CallEvent) (w : World) : World :=
  match evs with
  | [] => w
  | ev :: evs => run_call self evs (fst (call_event self ev w))
  end.

(** One step along SETUP, INVITE, TRYING, RINGING, CALL. *)
Inductive advance : CallState -> CallState -> Prop :=
| advance_setup : advance SESSION_SETUP INVITE
| advance_invite : advance INVITE INVITE_TRYING
| advance_trying : advance INVITE_TRYING INVITE_RINGING
| advance_ringing : advance INVITE_RINGING CALL.

(** The request answered and the status code of what was sent. *)
Definition payload_reply (p : Payload) : option (Message * Z) :=
  match p with
  | Dumps r => Some (request r, status r)
  | Raw _ => None
  end.

Definition replies (l : list ((string * Z) * (string * Z) * Payload))
  : list (option (Message * Z)) :=
  map (fun x => payload_reply (snd x)) l.

(** What was sent from the wire [base] on. *)
Definition replies_since (base : list ((string * Z) * (string * Z) * Payload))
    (w : World) : list (option (Message * Z)) :=
  replies (drop (length base) (wire w)).

Definition expected (msg : Message) (c : SipCall)
    (rs : list (option (Message * Z))) : Prop :=
  match call_state c with
  | INVITE => rs = []
  | INVITE_TRYING =>
      rs = [Some (msg, 100)] \/
      (rs = [Some (msg, 100); Some (msg, 180)] /\ active (invite_handler c) = false)
  | INVITE_RINGING => rs = [Some (msg, 100); Some (msg, 180)]
  | CALL => rs = [Some (msg, 100); Some (msg, 180); Some (msg, 200)]
  | _ => False
  end.

Definition call_inv (base : list ((string * Z) * (string * Z) * Payload))
    (msg : Message) (self : nat) (w : World) : Prop :=
  exists c u out,
    calls w !! self = Some c /\ call_msg c = msg /\ _user c = Some u /\
    wire w = base ++ out /\ expected msg c (replies out).

Ltac py_steps :=
  cbv beta iota delta [bind ret attr raise get_session negb].

(** The call object [SipCall.__init__] builds. *)
Definition fresh_call (ext : Collaborators) (w : World) (rtpPort : Z)
    (msg : Message) (cid to : bytes) : SipCall :=
  {| call_state := SESSION_SETUP;
     call_remote_address := fst (remote (session w));
     call_remote_sip_port := snd (remote (session w));
     call_remote_rtp_port := rtpPort;
     call_msg := msg;
     call_call_id := cid;
     _rtp_stream := None;
     call_local_host := fst (local (session w));
     _user := get_user_by_username ext (personality (session w)) to;
     invite_handler := Timer_init (5 # 1) (0 # 1);
     call_closed := false |}.

(** The INVITE state the session leaves a new call in. *)
Definition invited (msg : Message) (c : SipCall) : SipCall :=
  on_timer Timer_start
    (on_timer (Timer_set_data msg)
       (on_timer (Timer_set (1 # 10) (0 # 1)) (set_state INVITE c))).

Definition next_state (s : CallState) : option CallState :=
  match s with
  | SESSION_SETUP => Some INVITE
  | INVITE => Some INVITE_TRYING
  | INVITE_TRYING => Some INVITE_RINGING
  | INVITE_RINGING => Some CALL
  | _ => None
  end.

(** ** REGISTER *)

Definition digest_challenge (n : PyText) (u : SipUser) : Authentication :=
  {| auth_method := "digest"; algorithm := "md5"; nonce := n;
     auth_realm := user_realm u |}.

(** The world after a 401 with the challenge [a] was sent for [msg]. *)
Definition challenged (a : Authentication) (msg : Message) (w : World) : World :=
  {| session :=
       set_bistream
         (bistream (session w)
            ++ [(dir_out,
                 Dumps (append_header (HAuth a, "www-authenticate")
                          (create_response msg 401)))])
         (set_auth (SlotAuth a) (session w));
     calls := calls w;
     reg_manager := reg_manager w;
     wire := wire w ++ [sent w (append_header (HAuth a, "www-authenticate")
                                  (create_response msg 401))] |}.

(** The world after the registration of [uid] was recorded and answered. *)
Definition registered (uid : bytes) (branch : option bytes) (msg : Message)
    (w : World) : World :=
  {| session :=
       set_bistream
         (bistream (session w) ++ [(dir_out, Dumps (create_response msg 200))])
         (session w);
     calls := calls w;
     reg_manager := register (User_init uid branch) (reg_manager w);
     wire := wire w ++ [sent w (create_response msg 200)] |}.

(** A REGISTER with the four mandatory headers, a Via, an Authorization
    header and a To user that the configuration knows with a password. *)
Record authorized_register (ext : Collaborators) (w : World) (msg : Message)
    (via : Via) (to : bytes) (u : SipUser) (hv : bytes) : Prop := {
  reg_headers : headers_exist msg ["to"; "from"; "call-id"; "cseq"] = true;
  reg_via : last (h_via msg) = Some via;
  reg_to : h_to msg = Some to;
  reg_user : get_user_by_username ext (personality (session w)) to = Some u;
  reg_password : is_Some (password u);
  reg_authorization : h_authorization msg = Some hv
}.

(** * A concrete configuration and conversation *)

Module Demo.

Definition upper_ascii (c : ascii) : ascii :=
  let n := nat_of_ascii c in
  if (Nat.leb 97 n && Nat.leb n 122)%bool then ascii_of_nat (n - 32) else c.

Fixpoint upper (s : string) : string :=
  match s with
  | EmptyString => EmptyString
  | String c r => String (upper_ascii c) (upper r)
  end.

Definition alice : SipUser :=
  {| username := "alice"; password := Some "secret";
     user_realm := "example.org";
     pickup_delay_min := 2; pickup_delay_max := 5; user_sdp := "default" |}.

(** A stand-in for the digest: the response names user, realm and
    password. *)
Definition digest (name realm pw : string) : string :=
  String.append name (String.append ":" (String.append realm (String.append ":" pw))).

Definition request (m : bytes) (n : Z) : Message :=
  {| method := Some m; h_to := Some "alice"; h_from := Some "mallory";
     h_call_id := Some "call-1";
     h_cseq := Some {| cseq_seq := n; cseq_method := m |};
     h_via := [{| via_branch := Some "z9hG4bK74bf9" |}];
     h_content_type := None; h_authorization := None; sdp := None |}.

Definition with_authorization (hv : bytes) (msg : Message) : Message :=
  {| method := method msg; h_to := h_to msg; h_from := h_from msg;
     h_call_id := h_call_id msg; h_cseq := h_cseq msg; h_via := h_via msg;
     h_content_type := h_content_type msg; h_authorization := Some hv;
     sdp := sdp msg |}.

Definition invite : Message :=
  {| method := Some "INVITE"; h_to := Some "alice"; h_from := Some "mallory";
     h_call_id := Some "call-1";
     h_cseq := Some {| cseq_seq := 1; cseq_method := "INVITE" |};
     h_via := [{| via_branch := Some "z9hG4bK74bf9" |}];
     h_content_type := Some "Application/SDP"; h_authorization := None;
     sdp := Some [{| media := "video"; port := 5004 |};
                  {| media := "audio"; port := 4000 |}] |}.

Definition register_plain : Message := request "REGISTER" 1.
Definition register_secret : Message :=
  with_authorization (digest "alice" "example.org" "secret") (request "REGISTER" 2).
Definition register_test : Message :=
  with_authorization (digest "alice" "example.org" "test") (request "REGISTER" 2).
Definition register_wrong : Message :=
  with_authorization "nonsense" (request "REGISTER" 3).

(** The datagrams the stand-in parser knows, by what they parse to. *)
Definition datagrams : list (bytes * Message) :=
  [("REGISTER", register_plain);
   ("REGISTER secret", register_secret);
   ("REGISTER test", register_test);
   ("REGISTER wrong", register_wrong);
   ("INVITE", invite);
   ("CANCEL 1", request "CANCEL" 1);
   ("CANCEL 9", request "CANCEL" 9);
   ("ACK 1", request "ACK" 1);
   ("ACK 9", request "ACK" 9)].

Fixpoint parse_in (l : list (bytes * Message)) (data : bytes) : Res Message :=
  match l with
  | [] => Raise SipParsingError
  | (d, m) :: l => if String.eqb d data then Ret m else parse_in l data
  end.

Definition ext : Collaborators :=
  {| rfc3261_Message := parse_in datagrams;
     decode_upper := fun m => Some (upper m);
     get_personality_by_address := fun _ => "default";
     get_user_by_username := fun _ name =>
       if String.eqb name "alice" then Some alice else None;
     auth_check := fun a name pw _ response =>
       String.eqb response (digest name (auth_realm a) pw) |}.

Definition key : SessionKey := (("192.0.2.10", 5060), ("198.51.100.7", 50601)).

Definition start : World := World_init ext key.

(** The world after the datagrams [l] arrived in this order. *)
Fixpoint receive (l : list bytes) (w : World) : World :=
  match l with
  | [] => w
  | data :: l => receive l (fst (handle_io_in ext data w))
  end.

Definition invited_world : World := receive ["INVITE"] start.

(** The call of [invited_world], after its timer expired [n] times. *)
Definition after_timer (n : nat) : World :=
  run_call 0 (List.repeat (EvTimer 7) n) invited_world.

Definition cancelled_world : World := receive ["CANCEL 1"] (after_timer 2).

Definition the_call (w : World) : SipCall :=
  default (fresh_call ext start 0 invite "" "") (calls w !! 0%nat).

End Demo.

(** * Further vocabulary *)

(** The world after [SipSession.send] of the response [r]. *)
Definition after_send (r : Response) (w : World) : World :=
  {| session := set_bistream (bistream (session w) ++ [(dir_out, Dumps r)]) (session w);
     calls := calls w;
     reg_manager := reg_manager w;
     wire := wire w ++ [sent w r] |}.

(** A call that waits for nothing: answered or refused, timer not running. *)
Definition settled (c : SipCall) : Prop :=
  active (invite_handler c) = false /\
  (call_state c = CALL \/ call_state c = NO_SESSION).

Definition is_ACK_or_BYE (ev : CallEvent) : bool :=
  match ev with EvACK _ | EvBYE _ => true | _ => false end.

(** The world with the call object at [self] replaced by [c]. *)
Definition update_call (self : nat) (c : SipCall) (w : World) : World :=
  {| session := session w; calls := <[self := c]> (calls w);
     reg_manager := reg_manager w; wire := wire w |}.

(** The call object after the timer callback ran in state INVITE, and after
    it ran in state INVITE_RINGING. *)
Definition trying (c : SipCall) : SipCall :=
  on_timer Timer_start
    (on_timer (Timer_set (1 # 1) (0 # 1))
       (set_state INVITE_TRYING (on_timer Timer_stop c))).

Definition rtp_stream_of (c : SipCall) : RtpUdpStream :=
  {| rtp_local_host := call_local_host c;
     rtp_remote_host := call_remote_address c;
     rtp_remote_port := call_remote_rtp_port c |}.

Definition answered (c : SipCall) : SipCall :=
  set_state CALL (set_rtp_stream (Some (rtp_stream_of c)) (on_timer Timer_stop c)).

(** The 200 that answers the INVITE of [c] for the user [u]. *)
Definition ok_with_sdp (c : SipCall) (u : SipUser) : Response :=
  with_sdp {| sdp_name := user_sdp u; unicast_address := call_local_host c;
              addrtype := "IP4" |}
           (create_response (call_msg c) 200).

(** The names [getattr_handle] knows. *)
Definition handled_methods : list string :=
  ["ACK"; "BYE"; "CANCEL"; "INVITE"; "OPTIONS"; "REGISTER"].

(** The 200 that answers OPTIONS. *)
Definition options_response (msg : Message) : Response :=
  append_header (HText "en", "Accept-Language")
    (append_header (HText "application/sdp", "Accept")
       (append_header (HText "INVITE, ACK, CANCEL, OPTIONS, BYE", "Allow")
          (create_response msg 200))).

(** The world after the datagram [data] was logged as received. *)
Definition after_receive (data : bytes) (w : World) : World :=
  {| session := set_bistream (bistream (session w) ++ [(dir_in, Raw data)]) (session w);
     calls := calls w;
     reg_manager := reg_manager w;
     wire := wire w |}.

(** The registrations recorded for [uid], oldest first. *)
Definition registrations (uid : bytes) (r : RegistrationManager) : list User :=
  default [] (_users r !! uid).

(** ** Whole runs of a session

    What reaches a session and its calls while the session lives: a
    datagram, or the expiry of the timer of the call object [self].  A
    callback that raises leaves the world as it was when it raised.  The
    session's life ends when its sustain timer expires: [SipSession.close]
    takes it out of the server's [_sessions], an event of the server (see
    [ProcessEvent]), after which nothing reaches it. *)

Inductive Event :=
| Datagram (data : bytes)
| Expire (self : nat) (rnd : Z).

Definition step (ext : Collaborators) (w : World) (ev : Event) : World :=
  match ev with
  | Datagram data => fst (handle_io_in ext data w)
  | Expire self rnd => fst (fire_invite_handler self rnd w)
  end.

Definition run (ext : Collaborators) (evs : list Event) (w : World) : World :=
  foldl (step ext) w evs.

Definition datagrams_of (evs : list Event) : list bytes :=
  omap (fun ev => match ev with Datagram d => Some d | Expire _ _ => None end) evs.

(** The two sides of the conversation the session has recorded. *)
Definition inbound (b : list (Direction * Payload)) : list Payload :=
  omap (fun e => match fst e with dir_in => Some (snd e) | dir_out => None end) b.

Definition outbound (b : list (Direction * Payload)) : list Payload :=
  omap (fun e => match fst e with dir_out => Some (snd e) | dir_in => None end) b.

(** [m] takes every world to one that is [R]-related to it, whether it
    returns or raises. *)
Definition preserves (R : World -> World -> Prop) {A} (m : M A) : Prop :=
  forall w, R w (fst (m w)).

(** From [w] to [w'] the session sent [outs], and logged exactly that. *)
Definition sends (w w' : World) (outs : list Payload) : Prop :=
  sessionkey (session w') = sessionkey (session w) /\
  bistream (session w') = bistream (session w) ++ map (pair dir_out) outs /\
  wire w' = wire w ++ map (fun p => (local (session w), remote (session w), p)) outs.

Definition logs_what_it_sends (w w' : World) : Prop :=
  exists outs, sends w w' outs.

(** The session and its call objects fit together: a Call-ID of [_callids]
    leads to an open call object that has this Call-ID; an open call object
    is in [_callids] under its Call-ID; a closed one has neither a running
    timer nor an RTP stream. *)
Definition consistent (w : World) : Prop :=
  (forall cid self, _callids (session w) !! cid = Some self ->
     exists c, calls w !! self = Some c /\ call_call_id c = cid /\
               call_closed c = false) /\
  (forall self c, calls w !! self = Some c -> call_closed c = false ->
     _callids (session w) !! call_call_id c = Some self) /\
  (forall self c, calls w !! self = Some c -> call_closed c = true ->
     active (invite_handler c) = false /\ _rtp_stream c = None).

(** Only the call object at [self] may differ, and neither in its Call-ID
    nor in whether it is closed. *)
Definition call_frame (self : nat) (w w' : World) : Prop :=
  _callids (session w') = _callids (session w) /\
  (forall other, other <> self -> calls w' !! other = calls w !! other) /\
  match calls w !! self with
  | Some c => exists c', calls w' !! self = Some c' /\
                         call_call_id c' = call_call_id c /\
                         call_closed c' = call_closed c
  | None => calls w' !! self = None
  end.

(** Neither the call objects nor [_callids] differ. *)
Definition same_calls (w w' : World) : Prop :=
  calls w' = calls w /\ _callids (session w') = _callids (session w).

(** ** RtpUdpStream: the dump of the incoming stream

    The private fields of [RtpUdpStream] and its [handle_io_in]. The file
    system is what [os.mkdir] and [open] answer for a path; [record_rtp] is
    [g_sipconfig['record_rtp']]. *)

From Stdlib Require Import DecimalString.

Definition EEXIST : Z := 17.

Inductive RtpExn :=
| OSError (errno : Z)
| ValueError_closed_file.

Inductive RtpRes (A : Type) :=
| RtpRet (a : A)
| RtpRaise (e : RtpExn).
Arguments RtpRet {A} a.
Arguments RtpRaise {A} e.

(** [os.mkdir(path)]: done, or [OSError] with an errno. [open(path, "wb")]:
    a file, or [IOError]. *)
Record FileSystem := {
  mkdir : string -> option Z;
  open_wb : string -> bool
}.

(** An open file object: what was written to it, oldest first. *)
Record DumpFile := { written : list bytes; file_closed : bool }.

Record RtpDump := {
  streamDumpIn : option DumpFile;
  streamDumpFileIn : option string;
  sendBuffer : bytes
}.

(** [str(n)] of an integer. *)
Definition str_int (n : Z) : string := NilZero.string_of_int (Z.to_int n).

(** The name [__init__] gives the dump file, from [time.strftime] of the
    date and of the time, and the remote host and port. *)
Definition dump_file_name (dumpDate dumpTime host : string) (p : Z) : string :=
  ("var/dionaea/rtp/" +:+ dumpDate +:+ "/")
    +:+ (dumpTime +:+ "_" +:+ host +:+ "_" +:+ str_int p +:+ "_in.rtp").

Definition RtpDump_init (dumpDate dumpTime : string) (st : RtpUdpStream) : RtpDump :=
  {| streamDumpIn := None;
     streamDumpFileIn :=
       Some (dump_file_name dumpDate dumpTime (rtp_remote_host st) (rtp_remote_port st));
     sendBuffer := "" |}.

(** [s.rsplit('/', 1)[0]]: [s] up to its last ['/'], all of [s] without one. *)
Fixpoint rsplit_head (s : string) : option string :=
  match s with
  | EmptyString => None
  | String c r =>
      match rsplit_head r with
      | Some p => Some (String c p)
      | None => if Ascii.eqb c "/" then Some EmptyString else None
      end
  end.

Definition rsplit_dir (s : string) : string := default s (rsplit_head s).

Fixpoint has_slash (s : string) : bool :=
  match s with
  | EmptyString => false
  | String c r => Ascii.eqb c "/" || has_slash r
  end.

(** [__startRecording], called with the file name [__streamDumpFileIn]
    holds. *)
Definition startRecording (fs : FileSystem) (file : string) (r : RtpDump)
  : RtpDump * RtpRes unit :=
  let dumpDir := rsplit_dir file in
  match mkdir fs dumpDir with
  | Some errno =>
      if negb (errno =? EEXIST) then (r, RtpRaise (OSError errno))
      else
        if open_wb fs file
        then ({| streamDumpIn := Some {| written := []; file_closed := false |};
                 streamDumpFileIn := streamDumpFileIn r;
                 sendBuffer := sendBuffer r |}, RtpRet tt)
        else ({| streamDumpIn := None; streamDumpFileIn := None;
                 sendBuffer := sendBuffer r |}, RtpRet tt)
  | None =>
      if open_wb fs file
      then ({| streamDumpIn := Some {| written := []; file_closed := false |};
               streamDumpFileIn := streamDumpFileIn r;
               sendBuffer := sendBuffer r |}, RtpRet tt)
      else ({| streamDumpIn := None; streamDumpFileIn := None;
               sendBuffer := sendBuffer r |}, RtpRet tt)
  end.

(** The truth value of a string or [None]. *)
Definition truthy (o : option string) : bool :=
  match o with
  | Some s => negb (String.eqb s "")
  | None => false
  end.

Definition file_write (data : bytes) (r : RtpDump) : RtpDump * RtpRes unit :=
  match streamDumpIn r with
  | Some f =>
      if file_closed f then (r, RtpRaise ValueError_closed_file)
      else ({| streamDumpIn := Some {| written := written f ++ [data];
                                       file_closed := false |};
               streamDumpFileIn := streamDumpFileIn r;
               sendBuffer := sendBuffer r |}, RtpRet tt)
  | None => (r, RtpRet tt)
  end.

Definition RtpUdpStream_handle_io_in (record_rtp : bool) (fs : FileSystem)
    (data : bytes) (r : RtpDump) : RtpDump * RtpRes Z :=
  if record_rtp then
    let '(r1, started) :=
      match streamDumpIn r, streamDumpFileIn r with
      | None, Some file =>
          if truthy (Some file) then startRecording fs file r else (r, RtpRet tt)
      | _, _ => (r, RtpRet tt)
      end in
    match started with
    | RtpRaise e => (r1, RtpRaise e)
    | RtpRet _ =>
        match file_write data r1 with
        | (r2, RtpRaise e) => (r2, RtpRaise e)
        | (r2, RtpRet _) => (r2, RtpRet (Z.of_nat (String.length data)))
        end
    end
  else (r, RtpRet (Z.of_nat (String.length data))).

(** [RtpUdpStream.close]: the dump file is closed when there is one. *)
Definition RtpDump_close (r : RtpDump) : RtpDump :=
  match streamDumpIn r with
  | Some f => {| streamDumpIn := Some {| written := written f; file_closed := true |};
                 streamDumpFileIn := streamDumpFileIn r;
                 sendBuffer := sendBuffer r |}
  | None => r
  end.

(** The stream after the datagrams of [l] arrived, each with the file
    system as it was then, and what [handle_io_in] returned for each. *)
Fixpoint rtp_receive (record_rtp : bool) (l : list (FileSystem * bytes))
    (r : RtpDump) : RtpDump * list (RtpRes Z) :=
  match l with
  | [] => (r, [])
  | (fs, data) :: l =>
      let '(r1, res) := RtpUdpStream_handle_io_in record_rtp fs data r in
      let '(r2, rs) := rtp_receive record_rtp l r1 in
      (r2, res :: rs)
  end.

Definition returned_lengths (l : list (FileSystem * bytes)) : list (RtpRes Z) :=
  map (fun x => RtpRet (Z.of_nat (String.length (snd x)))) l.

(** A stream whose dump file could not be opened. *)
Definition not_recording (buf : bytes) : RtpDump :=
  {| streamDumpIn := None; streamDumpFileIn := None; sendBuffer := buf |}.

(** A stream that has written [chunks] to its open dump file. *)
Definition recording (file : option string) (buf : bytes) (chunks : list bytes)
  : RtpDump :=
  {| streamDumpIn := Some {| written := chunks; file_closed := false |};
     streamDumpFileIn := file; sendBuffer := buf |}.

(** [os.mkdir] created the directory or found it. *)
Definition directory_ready (fs : FileSystem) (dir : string) : Prop :=
  mkdir fs dir = None \/ mkdir fs dir = Some EEXIST.

(** ** What a session may touch

    From [w] to [w'] the call objects that [_callids] does not lead to are
    untouched, none is dropped, and what [_callids] leads to afterwards it
    led to before, or is a call object made in between. *)
Definition own_calls_only (w w' : World) : Prop :=
  (forall a c, calls w !! a = Some c ->
     (forall cid, _callids (session w) !! cid <> Some a) ->
     calls w' !! a = Some c) /\
  (forall a, is_Some (calls w !! a) -> is_Some (calls w' !! a)) /\
  (forall cid a, _callids (session w') !! cid = Some a ->
     _callids (session w) !! cid = Some a \/
     (calls w !! a = None /\ is_Some (calls w' !! a))).

(** ** SipServer: one endpoint, one session per peer

    [SipServer._sessions] with what all sessions share: the call objects,
    the module's [reg_manager] and what the server's [send] was given. *)
Record Process := {
  _sessions : gmap SessionKey SipSession;
  objects : gmap nat SipCall;
  registry : RegistrationManager;
  sent_datagrams : list ((string * Z) * (string * Z) * Payload)
}.

Definition Process_init : Process :=
  {| _sessions := ∅; objects := ∅; registry := RegistrationManager_init;
     sent_datagrams := [] |}.

(** The world a handler of the session [se] acts on. *)
Definition session_world (se : SipSession) (p : Process) : World :=
  {| session := se; calls := objects p; reg_manager := registry p;
     wire := sent_datagrams p |}.

(** The process once the session stored under [key] has acted. *)
Definition store (key : SessionKey) (w : World) (p : Process) : Process :=
  {| _sessions := <[key := session w]> (_sessions p);
     objects := calls w; registry := reg_manager w; sent_datagrams := wire w |}.

(** [self._sessions[sessionkey]] after the session was made if it was not
    there. *)
Definition session_for (ext : Collaborators) (key : SessionKey) (p : Process)
  : SipSession :=
  match _sessions p !! key with
  | Some se => se
  | None => SipSession_init ext key
  end.

Definition SipServer_handle_io_in (ext : Collaborators) (key : SessionKey)
    (data : bytes) (p : Process) : Process * Res Z :=
  let '(w, r) := handle_io_in ext data (session_world (session_for ext key p) p) in
  (store key w p,
   match r with
   | Ret _ => Ret (Z.of_nat (String.length data))
   | Raise e => Raise e
   end).

(** The session holds the call object [self]. *)
Definition holds (se : SipSession) (self : nat) : bool :=
  bool_decide (self ∈ (map_to_list (_callids se)).*2).

(** ** SipSession.close

    [for callid in [x for x in self._callids]: self._callids[callid].close()]:
    the Call-IDs are listed first; then each is looked up again, which
    raises [KeyError] if it is gone, and the call it leads to is closed,
    which takes the call's own Call-ID out of [_callids]. *)
Fixpoint close_calls (callids : list bytes) : M unit :=
  match callids with
  | [] => ret tt
  | callid :: rest =>
      se <- get_session ;;
      match _callids se !! callid with
      | Some self => SipCall_close self ;; close_calls rest
      | None => raise KeyError
      end
  end.

(** [SipSession.close]: the session takes itself out of the server's
    [_sessions] and closes its calls.  The Call-IDs are walked in the order
    of the map, where Python walks them in the order of insertion; the
    order makes no difference ([close_calls_any_order]).  What the method
    does last, [self._callids = None] and stopping the session's own two
    timers, acts on the session object alone; nothing leads to that object
    any more (the server has dropped it, the timers of its calls are
    stopped) and it is not kept.  An exception ends the method where it
    was raised, the session being out of [_sessions] already. *)
Definition SipSession_close (se : SipSession) (p : Process) : Process * Res unit :=
  let sessions := delete (sessionkey se) (_sessions p) in
  let '(w, r) := close_calls (map_to_list (_callids se)).*1 (session_world se p) in
  ({| _sessions := sessions; objects := calls w; registry := reg_manager w;
      sent_datagrams := wire w |}, r).

(** What the event loop runs: a datagram from the peer [key]; the expiry
    of the timer of a call that the session of [key] holds (a call sends
    through the session that made it, which holds it until it is closed);
    the expiry of the sustain timer that [SipSession.__init__] starts for
    the session of [key], whose callback [__handle_sustain_timeout] closes
    that session.  The idle timer of a session is never started. *)
Inductive ProcessEvent :=
| Receive (key : SessionKey) (data : bytes)
| TimerOf (key : SessionKey) (self : nat) (rnd : Z)
| SustainTimeout (key : SessionKey).

Definition process_step (ext : Collaborators) (p : Process) (ev : ProcessEvent)
  : Process :=
  match ev with
  | Receive key data => fst (SipServer_handle_io_in ext key data p)
  | TimerOf key self rnd =>
      match _sessions p !! key with
      | Some se =>
          if holds se self
          then store key (fst (fire_invite_handler self rnd (session_world se p))) p
          else p
      | None => p
      end
  | SustainTimeout key =>
      match _sessions p !! key with
      | Some se => fst (SipSession_close se p)
      | None => p
      end
  end.

Definition process_run (ext : Collaborators) (evs : list ProcessEvent)
    (p : Process) : Process :=
  foldl (process_step ext) p evs.

(** The datagrams of [evs] that came from [key] since the sustain timer
    of the session of [key] last expired (all of them if it never did), in
    order. *)
Definition received_since (key : SessionKey) (evs : list ProcessEvent) : list bytes :=
  foldl (fun acc ev =>
           match ev with
           | Receive k d => if decide (k = key) then acc ++ [d] else acc
           | TimerOf _ _ _ => acc
           | SustainTimeout k => if decide (k = key) then [] else acc
           end) [] evs.

(** Sessions are stored under their own 4-tuple, what they hold exists, and
    no call object is held by two sessions. *)
Definition separate (p : Process) : Prop :=
  (forall key se, _sessions p !! key = Some se -> sessionkey se = key) /\
  (forall key se cid a, _sessions p !! key = Some se ->
     _callids se !! cid = Some a -> is_Some (objects p !! a)) /\
  (forall k1 k2 se1 se2 cid1 cid2 a,
     _sessions p !! k1 = Some se1 -> _sessions p !! k2 = Some se2 ->
     _callids se1 !! cid1 = Some a -> _callids se2 !! cid2 = Some a ->
     k1 = k2).

(** Every Call-ID of [_callids] leads to a call object that has this
    Call-ID; and so for every session of the server. *)
Definition linked (w : World) : Prop :=
  forall cid a, _callids (session w) !! cid = Some a ->
    exists c, calls w !! a = Some c /\ call_call_id c = cid.

Definition linked_process (p : Process) : Prop :=
  forall key se, _sessions p !! key = Some se -> linked (session_world se p).

(** From [w] to [w'] this is kept. *)
Definition keeps_linked (w w' : World) : Prop := linked w -> linked w'.

(** The call object [c] after [SipCall.close]. *)
Definition closed_call (c : SipCall) : SipCall :=
  set_closed (on_timer Timer_stop (set_rtp_stream None c)).

(** * Further requests, users and file systems to try the handlers on *)

Module Demo2.

Definition bob : SipUser :=
  {| username := "bob"; password := None; user_realm := "example.org";
     pickup_delay_min := 1; pickup_delay_max := 1; user_sdp := "default" |}.

Definition to_user (uid : bytes) (msg : Message) : Message :=
  {| method := method msg; h_to := Some uid; h_from := h_from msg;
     h_call_id := h_call_id msg; h_cseq := h_cseq msg; h_via := h_via msg;
     h_content_type := h_content_type msg;
     h_authorization := h_authorization msg; sdp := sdp msg |}.

Definition without_call_id (msg : Message) : Message :=
  {| method := method msg; h_to := h_to msg; h_from := h_from msg;
     h_call_id := None; h_cseq := h_cseq msg; h_via := h_via msg;
     h_content_type := h_content_type msg;
     h_authorization := h_authorization msg; sdp := sdp msg |}.

Definition with_media (ms : list Media) (msg : Message) : Message :=
  {| method := method msg; h_to := h_to msg; h_from := h_from msg;
     h_call_id := h_call_id msg; h_cseq := h_cseq msg; h_via := h_via msg;
     h_content_type := h_content_type msg;
     h_authorization := h_authorization msg; sdp := Some ms |}.

Definition bye : Message := Demo.request "BYE" 2.
Definition options : Message := Demo.request "OPTIONS" 4.
Definition subscribe : Message := Demo.request "SUBSCRIBE" 5.
Definition ack_without_call_id : Message := without_call_id (Demo.request "ACK" 1).
Definition invite_video : Message :=
  with_media [{| media := "video"; port := 5004 |}] Demo.invite.
Definition invite_carol : Message := to_user "carol" Demo.invite.
Definition register_bob : Message := to_user "bob" (Demo.request "REGISTER" 1).

Definition datagrams : list (bytes * Message) :=
  Demo.datagrams ++
  [("BYE 2", bye);
   ("OPTIONS", options);
   ("SUBSCRIBE", subscribe);
   ("ACK without Call-ID", ack_without_call_id);
   ("INVITE video", invite_video);
   ("INVITE carol", invite_carol);
   ("REGISTER bob", register_bob)].

Definition ext : Collaborators :=
  {| rfc3261_Message := Demo.parse_in datagrams;
     decode_upper := fun m => Some (Demo.upper m);
     get_personality_by_address := fun _ => "default";
     get_user_by_username := fun _ name =>
       if String.eqb name "alice" then Some Demo.alice
       else if String.eqb name "bob" then Some bob
       else None;
     auth_check := auth_check Demo.ext |}.

Definition stream : RtpUdpStream :=
  {| rtp_local_host := "192.0.2.10"; rtp_remote_host := "198.51.100.7";
     rtp_remote_port := 4000 |}.

Definition dump : RtpDump := RtpDump_init "2010-06-01" "12:00:00" stream.

Definition dump_file : string :=
  dump_file_name "2010-06-01" "12:00:00" "198.51.100.7" 4000.

(** A file system that makes directories and opens files, one in which no
    file can be opened, and one in which no directory can be made
    (errno 13). *)
Definition fs_ok : FileSystem :=
  {| mkdir := fun _ => None; open_wb := fun _ => true |}.
Definition fs_no_file : FileSystem :=
  {| mkdir := fun _ => Some EEXIST; open_wb := fun _ => false |}.
Definition fs_no_directory : FileSystem :=
  {| mkdir := fun _ => Some 13; open_wb := fun _ => true |}.

End Demo2.

(** * Properties *)

Lemma SipCall_handle_CANCEL_mismatch w self c msg cseq cseq' :
  calls w !! self = Some c ->
  h_cseq (call_msg c) = Some cseq ->
  h_cseq msg = Some cseq' ->
  cseq_seq cseq <> cseq_seq cseq' ->
  SipCall_handle_CANCEL self msg w = (w, Ret tt).
Proof.
  intros Hobj Hcseq Hcseq' Hne. unfold SipCall_handle_CANCEL, bind, get_call.
  rewrite Hobj, Hcseq, Hcseq'. simpl.
  destruct (negb _); [reflexivity|].
  apply Z.eqb_neq in Hne. rewrite Hne. reflexivity.
Qed.

Lemma handle_CANCEL_dispatch w cid self msg cseq' :
  h_call_id msg = Some cid ->
  _callids (session w) !! cid = Some self ->
  h_cseq msg = Some cseq' ->
  handle_CANCEL msg w =
  try_except_AuthenticationError (SipCall_handle_CANCEL self msg) (ret tt) w.
Proof.
  intros Hcid Hmap Hcseq'. unfold handle_CANCEL, bind, attr, get_session, ret.
  rewrite Hcid, Hcseq'. simpl. rewrite Hmap. reflexivity.
Qed.


(** C8. A CANCEL whose CSeq sequence number differs from that of the
    call's INVITE changes nothing, whatever the state of the call: the
    handler of the call and the session's dispatch to it both return with
    the world as it was, so the call's state and timer are untouched and
    nothing is sent or logged as sent. *)
Theorem cancel_cseq_mismatch_is_noop
    (w : World) (cid : bytes) (self : nat) (c : SipCall)
    (msg_cancel : Message) (cseq cseq_cancel : CSeq) :
  h_call_id msg_cancel = Some cid ->
  _callids (session w) !! cid = Some self ->
  calls w !! self = Some c ->
  h_cseq (call_msg c) = Some cseq ->
  h_cseq msg_cancel = Some cseq_cancel ->
  cseq_seq cseq <> cseq_seq cseq_cancel ->
  SipCall_handle_CANCEL self msg_cancel w = (w, Ret tt) /\
  handle_CANCEL msg_cancel w = (w, Ret tt).
Proof.
  intros Hcid Hmap Hobj Hc Hc' Hne.
  assert (Hcall := SipCall_handle_CANCEL_mismatch w self c msg_cancel
                     cseq cseq_cancel Hobj Hc Hc' Hne).
  split; [exact Hcall|].
  rewrite (handle_CANCEL_dispatch w cid self msg_cancel cseq_cancel Hcid Hmap Hc').
  unfold try_except_AuthenticationError. rewrite Hcall. reflexivity.
Qed.


Lemma handle_ACK_dispatch w cid self msg :
  h_call_id msg = Some cid ->
  _callids (session w) !! cid = Some self ->
  handle_ACK msg w =
  try_except_AuthenticationError (SipCall_handle_ACK self msg ;; ret tt) (ret tt) w.
Proof.
  intros Hcid Hmap. unfold handle_ACK, bind, attr, get_session, ret.
  rewrite Hcid. simpl. rewrite Hmap. reflexivity.
Qed.

Lemma Timer_stop_inactive t : active t = false -> Timer_stop t = t.
Proof. destruct t; simpl; intros ->; reflexivity. Qed.

Lemma SipCall_close_spec w self c :
  calls w !! self = Some c ->
  SipCall_close self w = (closed_world self c w, Ret tt).
Proof.
  intros Hobj. unfold SipCall_close, closed_world. run_py. rewrite Hobj.
  destruct (active (invite_handler c)) eqn:Hact; simpl; f_equal; f_equal;
    apply map_eq; intros i; destruct (decide (i = self)) as [->|Hne];
    rewrite ?lookup_alter_eq, ?lookup_insert_eq, ?Hobj;
    rewrite ?lookup_alter_ne, ?lookup_insert_ne by congruence;
    try reflexivity.
  simpl. unfold on_timer at 1. simpl.
  rewrite Timer_stop_inactive by exact Hact. reflexivity.
Qed.

(** C10. For a call in state INVITE_CANCEL, stored in the session under its
    Call-ID: an ACK with another CSeq sequence number than the INVITE's
    returns with the world as it was (the call stays in [_callids], its
    state is the same, nothing is sent); an ACK with the INVITE's sequence
    number closes the call, which removes it from [_callids], and sends
    nothing either. *)
Theorem ack_closes_only_on_matching_cseq
    (w : World) (cid : bytes) (self : nat) (c : SipCall)
    (msg_ack : Message) (cseq cseq_ack : CSeq) :
  h_call_id msg_ack = Some cid ->
  _callids (session w) !! cid = Some self ->
  calls w !! self = Some c ->
  call_call_id c = cid ->
  call_state c = INVITE_CANCEL ->
  h_cseq (call_msg c) = Some cseq ->
  h_cseq msg_ack = Some cseq_ack ->
  (cseq_seq cseq <> cseq_seq cseq_ack ->
     handle_ACK msg_ack w = (w, Ret tt)) /\
  (cseq_seq cseq = cseq_seq cseq_ack ->
     handle_ACK msg_ack w = (closed_world self c w, Ret tt) /\
     _callids (session (closed_world self c w)) !! cid = None /\
     wire (closed_world self c w) = wire w).
Proof.
  intros Hcid Hmap Hobj Hkey Hst Hc Hc'.
  rewrite (handle_ACK_dispatch w cid self msg_ack Hcid Hmap).
  unfold try_except_AuthenticationError, SipCall_handle_ACK, bind, get_call.
  rewrite Hobj, Hst, Hc, Hc'. simpl. split.
  - intros Hne. apply Z.eqb_neq in Hne. rewrite Hne. reflexivity.
  - intros Heq. apply Z.eqb_eq in Heq. rewrite Heq. simpl.
    rewrite (SipCall_close_spec w self c Hobj). simpl.
    rewrite Hkey, lookup_delete_eq. auto.
Qed.

Lemma has_content_type msg :
  headers_exist msg ["content-type"] = true -> is_Some (h_content_type msg).
Proof.
  unfold headers_exist. simpl. rewrite andb_true_r.
  intros H. apply bool_decide_eq_true in H. exact H.
Qed.

Lemma handle_INVITE_known_call_id ext w msg cid :
  h_call_id msg = Some cid ->
  is_Some (_callids (session w) !! cid) ->
  handle_INVITE ext msg w = (w, Ret tt).
Proof.
  intros Hcid [self Hmap]. unfold handle_INVITE.
  destruct (headers_exist msg ["content-type"]) eqn:Hct; [|reflexivity].
  destruct (has_content_type msg Hct) as [ct Hct'].
  simpl. unfold bind at 1. rewrite Hct'. simpl.
  destruct (negb _); [reflexivity|].
  destruct (sdp msg) as [medias|]; [|reflexivity].
  destruct (_ <? _)%nat; [reflexivity|].
  destruct (find _ medias); [|reflexivity].
  unfold bind, attr, get_session, ret. rewrite Hcid. simpl. rewrite Hmap.
  reflexivity.
Qed.

(** C6. [_callids] is a map, so it holds at most one call per Call-ID; an
    INVITE whose Call-ID is a key of it returns with the world as it was:
    no call object is created, the map and the stored call are the same and
    nothing is sent.  Received as a datagram, such an INVITE only adds the
    datagram to the session's record of the conversation. *)
Theorem invite_with_active_call_id_is_noop
    (ext : Collaborators) (w : World) (data : bytes) (msg : Message)
    (m cid : bytes) :
  rfc3261_Message ext data = Ret msg ->
  method msg = Some m ->
  decode_upper ext m = Some "INVITE" ->
  h_call_id msg = Some cid ->
  is_Some (_callids (session w) !! cid) ->
  handle_INVITE ext msg w = (w, Ret tt) /\
  exists w',
    handle_io_in ext data w = (w', Ret (Z.of_nat (String.length data))) /\
    calls w' = calls w /\
    _callids (session w') = _callids (session w) /\
    wire w' = wire w /\
    bistream (session w') = bistream (session w) ++ [(dir_in, Raw data)].
Proof.
  intros Hparse Hm Hup Hcid Hin.
  split; [apply (handle_INVITE_known_call_id ext w msg cid Hcid Hin)|].
  unfold handle_io_in, bind at 1, modify_session.
  unfold bind at 1. rewrite Hparse, Hm, Hup. simpl.
  unfold bind. rewrite (handle_INVITE_known_call_id ext _ msg cid Hcid) by exact Hin.
  eexists. split; [reflexivity|]. simpl. auto.
Qed.

(** ** The timer-paced INVITE sequence *)

Lemma randint_bounds a b rnd w w' d :
  randint a b rnd w = (w', Ret d) -> w' = w /\ a <= d <= b.
Proof.
  unfold randint. destruct (0 <? b + 1 - a) eqn:Hw; unfold ret, raise; [|discriminate].
  intros H. injection H as <- <-. apply Z.ltb_lt in Hw.
  split; [reflexivity|].
  assert (0 <= rnd mod (b + 1 - a) < b + 1 - a) by (apply Z.mod_pos_bound; lia).
  lia.
Qed.

Lemma randint_total a b rnd w :
  a <= b -> exists d, randint a b rnd w = (w, Ret d) /\ a <= d <= b.
Proof.
  intros Hab. unfold randint.
  assert (Hw : (0 <? b + 1 - a) = true) by (apply Z.ltb_lt; lia).
  rewrite Hw. eexists. split; [reflexivity|].
  assert (0 <= rnd mod (b + 1 - a) < b + 1 - a) by (apply Z.mod_pos_bound; lia).
  lia.
Qed.

Lemma handle_invite_trying_ok w self c u rnd w1 delay :
  calls w !! self = Some c ->
  call_state c = INVITE_TRYING ->
  _user c = Some u ->
  randint (pickup_delay_min u) (pickup_delay_max u) rnd w = (w1, Ret delay) ->
  exists w',
    SipCall_handle_invite self rnd w = (w', Ret tt) /\
    calls w' = <[self := ringing delay c]> (calls w) /\
    session w' = set_bistream
                   (bistream (session w)
                      ++ [(dir_out, Dumps (create_response (call_msg c) 180))])
                   (session w) /\
    reg_manager w' = reg_manager w /\
    wire w' = wire w ++ [sent w (create_response (call_msg c) 180)].
Proof.
  intros Hobj Hst Hu Hr. unfold SipCall_handle_invite, bind at 1, get_call.
  rewrite Hobj, Hst. run_py. rewrite Hu. simpl.
  unfold randint in *. destruct (0 <? _); simpl in *; [|discriminate].
  injection Hr as <- <-.
  eexists. split; [reflexivity|]. simpl. split; [|destruct w as [[] ? ? ?]; auto].
  apply map_eq; intros i; destruct (decide (i = self)) as [->|Hne];
    rewrite ?lookup_alter_eq, ?lookup_insert_eq, ?Hobj;
    rewrite ?lookup_alter_ne, ?lookup_insert_ne by congruence; reflexivity.
Qed.

Lemma handle_invite_trying_raise w self c u rnd w1 e :
  calls w !! self = Some c ->
  call_state c = INVITE_TRYING ->
  _user c = Some u ->
  randint (pickup_delay_min u) (pickup_delay_max u) rnd w = (w1, Raise e) ->
  exists w',
    SipCall_handle_invite self rnd w = (w', Raise e) /\
    calls w' = calls w /\
    wire w' = wire w ++ [sent w (create_response (call_msg c) 180)].
Proof.
  intros Hobj Hst Hu Hr. unfold SipCall_handle_invite, bind at 1, get_call.
  rewrite Hobj, Hst. run_py. rewrite Hu. simpl.
  unfold randint in *. destruct (0 <? _); simpl in *; [discriminate|].
  injection Hr as <- <-.
  eexists. split; [reflexivity|]. simpl. destruct w as [[] ? ? ?]; auto.
Qed.

(** C9. When the timer callback takes a call from INVITE_TRYING to
    INVITE_RINGING, the timer is armed, after the 180 response was sent,
    with a whole number of seconds [delay] such that
    [pickup_delay_min <= delay <= pickup_delay_max], whatever the random
    generator yields: afterwards the timer is active, its [after] is
    [delay] and it does not repeat; and for a window with [min <= max] the
    callback does take the call to INVITE_RINGING, with the timer so
    armed. *)
Theorem pickup_delay_within_window
    (w : World) (self : nat) (c : SipCall) (u : SipUser) (rnd : Z) :
  calls w !! self = Some c ->
  call_state c = INVITE_TRYING ->
  _user c = Some u ->
  (forall w' r,
      SipCall_handle_invite self rnd w = (w', r) ->
      state_of self w' = Some INVITE_RINGING ->
      exists delay,
        pickup_delay_min u <= delay <= pickup_delay_max u /\
        timer_of self w' =
          Some (Timer_start (Timer_set (inject_Z delay) (0 # 1) (invite_handler c))) /\
        (exists t, timer_of self w' = Some t /\
                   after t = inject_Z delay /\
                   repeat t = 0 # 1 /\
                   active t = true) /\
        wire w' = wire w ++ [sent w (create_response (call_msg c) 180)]) /\
  (pickup_delay_min u <= pickup_delay_max u ->
   exists w' delay t,
     SipCall_handle_invite self rnd w = (w', Ret tt) /\
     state_of self w' = Some INVITE_RINGING /\
     pickup_delay_min u <= delay <= pickup_delay_max u /\
     timer_of self w' = Some t /\
     after t = inject_Z delay /\
     repeat t = 0 # 1 /\
     active t = true).
Proof.
  intros Hobj Hst Hu.
  split.
  - intros w' r Hrun Hring.
    destruct (randint (pickup_delay_min u) (pickup_delay_max u) rnd w)
      as [w1 [delay|e]] eqn:Hr.
    + destruct (handle_invite_trying_ok w self c u rnd w1 delay Hobj Hst Hu Hr)
        as (w2 & Hrun2 & Hcalls & _ & _ & Hwire).
      rewrite Hrun in Hrun2. injection Hrun2 as <- ->.
      apply randint_bounds in Hr as [_ Hb].
      exists delay. split; [exact Hb|].
      assert (Htimer : timer_of self w' =
                Some (Timer_start
                        (Timer_set (inject_Z delay) (0 # 1) (invite_handler c))))
        by (unfold timer_of; rewrite Hcalls, lookup_insert_eq; reflexivity).
      split; [exact Htimer|]. split; [|exact Hwire].
      eexists. split; [exact Htimer|]. repeat split.
    + destruct (handle_invite_trying_raise w self c u rnd w1 e Hobj Hst Hu Hr)
        as (w2 & Hrun2 & Hcalls & _).
      rewrite Hrun in Hrun2. injection Hrun2 as <- ->.
      unfold state_of in Hring. rewrite Hcalls, Hobj in Hring. simpl in Hring.
      congruence.
  - intros Hwin.
    destruct (randint_total _ _ rnd w Hwin) as (d & Hr & Hd).
    destruct (handle_invite_trying_ok w self c u rnd w d Hobj Hst Hu Hr)
      as (w2 & Hrun2 & Hcalls & _).
    exists w2, d. eexists. split; [exact Hrun2|].
    split; [unfold state_of; rewrite Hcalls, lookup_insert_eq; reflexivity|].
    split; [exact Hd|].
    split; [unfold timer_of; rewrite Hcalls, lookup_insert_eq; reflexivity|].
    repeat split.
Qed.

Lemma replies_app l1 l2 : replies (l1 ++ l2) = replies l1 ++ replies l2.
Proof. apply map_app. Qed.

Lemma call_inv_replies base msg self w :
  call_inv base msg self w ->
  state_of self w = Some CALL ->
  replies_since base w = [Some (msg, 100); Some (msg, 180); Some (msg, 200)].
Proof.
  intros (c & u & out & Hobj & _ & _ & Hwire & Hexp) Hst.
  unfold state_of in Hst. rewrite Hobj in Hst. simpl in Hst.
  injection Hst as Hst. unfold expected in Hexp. rewrite Hst in Hexp.
  unfold replies_since. rewrite Hwire, drop_app_length. exact Hexp.
Qed.

Lemma fire_step base msg self w rnd :
  call_inv base msg self w ->
  call_inv base msg self (fst (fire_invite_handler self rnd w)) /\
  exists s s',
    state_of self w = Some s /\
    state_of self (fst (fire_invite_handler self rnd w)) = Some s' /\
    (s' = s \/ advance s s').
Proof.
  intros (c & u & out & Hobj & Hmsg & Hu & Hwire & Hexp).
  unfold state_of. rewrite Hobj. simpl.
  destruct (fire_invite_handler self rnd w) as [w' r] eqn:Hrun. simpl fst.
  unfold fire_invite_handler, bind at 1, get_call in Hrun. rewrite Hobj in Hrun.
  destruct (active (invite_handler c)) eqn:Hact.
  2:{ injection Hrun as <- <-. split; [exists c, u, out; auto|].
      exists (call_state c), (call_state c). rewrite Hobj. auto. }
  unfold bind at 1, modify_call at 1 in Hrun.
  unfold SipCall_handle_invite, bind at 1, get_call in Hrun. cbn [calls] in Hrun.
  rewrite lookup_alter_eq, Hobj in Hrun. simpl in Hrun.
  unfold expected in Hexp.
  destruct (call_state c) eqn:Hst; try contradiction.
  - (* INVITE *)
    rewrite Hu in Hrun. run_py. injection Hrun as <- <-. unfold call_inv; cbn [calls wire session].
    rewrite !lookup_alter_eq, Hobj. simpl.
    split.
    + eexists _, u, (out ++ [_]). split; [reflexivity|]. simpl.
      repeat split; auto.
      * rewrite Hwire, <- app_assoc. reflexivity.
      * unfold expected. simpl. left. rewrite replies_app, Hexp, Hmsg. reflexivity.
    + eexists _, _. repeat split. right. constructor.
  - (* INVITE_TRYING *)
    destruct Hexp as [Hexp|[_ Hoff]]; [|congruence].
    run_py. rewrite Hu in Hrun. simpl in Hrun.
    unfold randint in Hrun. destruct (0 <? _); simpl in Hrun;
      injection Hrun as <- <-; unfold call_inv; cbn [calls wire session]; rewrite !lookup_alter_eq, Hobj; simpl.
    + split.
      * eexists _, u, (out ++ [_]). split; [reflexivity|]. simpl.
        repeat split; auto.
        -- rewrite Hwire, <- app_assoc. reflexivity.
        -- unfold expected. simpl. rewrite replies_app, Hexp, Hmsg. reflexivity.
      * eexists _, _. repeat split. right. constructor.
    + split.
      * eexists _, u, (out ++ [_]). split; [reflexivity|]. simpl.
        repeat split; auto.
        -- rewrite Hwire, <- app_assoc. reflexivity.
        -- unfold expected. simpl. rewrite Hst. right.
           rewrite replies_app, Hexp, Hmsg. auto.
      * eexists _, _. repeat split. left. simpl. rewrite Hst. reflexivity.
  - (* INVITE_RINGING *)
    run_py. rewrite Hu in Hrun. simpl in Hrun. injection Hrun as <- <-. unfold call_inv; cbn [calls wire session].
    rewrite !lookup_alter_eq, Hobj. simpl. split.
    + eexists _, u, (out ++ [_]). split; [reflexivity|]. simpl.
      repeat split; auto.
      * rewrite Hwire, <- app_assoc. reflexivity.
      * unfold expected. simpl. rewrite replies_app, Hexp, Hmsg. reflexivity.
    + eexists _, _. repeat split. right. constructor.
  - (* CALL *)
    run_py. injection Hrun as <- <-. unfold call_inv; cbn [calls wire session].
    rewrite !lookup_alter_eq, Hobj. simpl. split.
    + eexists _, u, out. split; [reflexivity|]. simpl.
      repeat split; auto. unfold expected. simpl. rewrite Hst. exact Hexp.
    + eexists _, _. repeat split. left. simpl. rewrite Hst. reflexivity.
Qed.

Lemma expected_not_cancelled msg c rs :
  expected msg c rs -> CallState_eqb (call_state c) INVITE_CANCEL = false.
Proof. unfold expected. destruct (call_state c); simpl; tauto. Qed.

Lemma call_event_step base msg self w ev :
  is_CANCEL ev = false ->
  call_inv base msg self w ->
  call_inv base msg self (fst (call_event self ev w)) /\
  exists s s',
    state_of self w = Some s /\
    state_of self (fst (call_event self ev w)) = Some s' /\
    (s' = s \/ advance s s').
Proof.
  intros Hev Hinv. destruct ev as [rnd|m|m|m]; try discriminate.
  - apply fire_step. exact Hinv.
  - assert (Hsame : fst (call_event self (EvACK m) w) = w).
    { destruct Hinv as (c & u & out & Hobj & _ & _ & _ & Hexp).
      apply expected_not_cancelled in Hexp.
      unfold call_event, SipCall_handle_ACK, bind, get_call.
      rewrite Hobj, Hexp. reflexivity. }
    rewrite Hsame. split; [exact Hinv|].
    destruct Hinv as (c & _ & _ & Hobj & _).
    exists (call_state c), (call_state c). unfold state_of. rewrite Hobj. auto.
  - assert (Hsame : fst (call_event self (EvBYE m) w) = w).
    { destruct Hinv as (c & u & out & Hobj & _ & _ & _ & Hexp).
      apply expected_not_cancelled in Hexp.
      unfold call_event, SipCall_handle_BYE, bind, get_call.
      rewrite Hobj, Hexp. reflexivity. }
    rewrite Hsame. split; [exact Hinv|].
    destruct Hinv as (c & _ & _ & Hobj & _).
    exists (call_state c), (call_state c). unfold state_of. rewrite Hobj. auto.
Qed.

Lemma run_call_app self evs1 evs2 w :
  run_call self (evs1 ++ evs2) w = run_call self evs2 (run_call self evs1 w).
Proof. revert w. induction evs1 as [|ev evs1 IH]; intros w; simpl; auto. Qed.

Lemma run_call_inv base msg self evs w :
  forallb (fun ev => negb (is_CANCEL ev)) evs = true ->
  call_inv base msg self w ->
  call_inv base msg self (run_call self evs w).
Proof.
  revert w. induction evs as [|ev evs IH]; intros w Hev Hinv; simpl; [exact Hinv|].
  simpl in Hev. apply andb_true_iff in Hev as [Hev Hevs].
  apply negb_true_iff in Hev.
  apply IH; [exact Hevs|].
  apply (call_event_step base msg self w ev Hev Hinv).
Qed.

Lemma SipCall_init_spec ext w rtpPort msg cid to :
  h_call_id msg = Some cid ->
  h_to msg = Some to ->
  SipCall_init ext (remote (session w)) rtpPort msg w =
  ({| session := session w;
      calls := <[fresh (dom (calls w)) := fresh_call ext w rtpPort msg cid to]> (calls w);
      reg_manager := reg_manager w;
      wire := wire w |}, Ret (fresh (dom (calls w)))).
Proof.
  intros Hcid Hto. unfold SipCall_init, bind, get_session, attr, ret, new_call.
  rewrite Hcid, Hto. reflexivity.
Qed.

Lemma handle_INVITE_new_call ext w msg ct medias audio cid to :
  h_content_type msg = Some ct ->
  lower ct = "application/sdp" ->
  sdp msg = Some medias ->
  find (fun m => String.eqb (lower (media m)) "audio") medias = Some audio ->
  h_call_id msg = Some cid ->
  _callids (session w) !! cid = None ->
  h_to msg = Some to ->
  handle_INVITE ext msg w =
  ({| session := set_callids (<[cid := fresh (dom (calls w))]> (_callids (session w)))
                   (session w);
      calls := <[fresh (dom (calls w)) :=
                   invited msg (fresh_call ext w (port audio) msg cid to)]> (calls w);
      reg_manager := reg_manager w;
      wire := wire w |}, Ret tt).
Proof.
  intros Hct Hsdp Hm Haudio Hcid Hnew Hto. unfold handle_INVITE.
  assert (Hex : headers_exist msg ["content-type"] = true).
  { unfold headers_exist, forallb, has_header. cbn [String.eqb Ascii.eqb Bool.eqb].
    rewrite Hct. reflexivity. }
  rewrite Hex. py_steps. rewrite Hct. py_steps.
  rewrite Hsdp, String.eqb_refl. py_steps. rewrite Hm.
  destruct medias as [|m0 medias']; [discriminate|].
  change (length (m0 :: medias') <? 1)%nat with false. py_steps.
  rewrite Haudio, Hcid. py_steps. rewrite Hnew.
  rewrite (SipCall_init_spec ext w (port audio) msg cid to Hcid Hto).
  unfold try_except_AuthenticationError, SipCall_handle_INVITE, modify_session,
    modify_call.
  py_steps. cbn [session calls reg_manager wire].
  f_equal. f_equal.
  apply map_eq; intros i. destruct (decide (i = fresh (dom (calls w)))) as [->|Hne].
  - rewrite !lookup_alter_eq, !lookup_insert_eq. reflexivity.
  - rewrite !lookup_alter_ne, !lookup_insert_ne by congruence. reflexivity.
Qed.

Lemma fire_advances self w rnd c u :
  calls w !! self = Some c ->
  _user c = Some u ->
  pickup_delay_min u <= pickup_delay_max u ->
  active (invite_handler c) = true ->
  cancellable (call_state c) ->
  exists c',
    calls (fst (fire_invite_handler self rnd w)) !! self = Some c' /\
    advance (call_state c) (call_state c') /\
    _user c' = Some u /\
    (call_state c' <> CALL -> active (invite_handler c') = true).
Proof.
  intros Hobj Hu Hwin Hact Hst.
  destruct (fire_invite_handler self rnd w) as [w' r] eqn:Hrun. simpl fst.
  unfold fire_invite_handler, bind at 1, get_call in Hrun.
  rewrite Hobj, Hact in Hrun.
  unfold bind at 1, modify_call at 1 in Hrun.
  unfold SipCall_handle_invite, bind at 1, get_call in Hrun. cbn [calls] in Hrun.
  rewrite lookup_alter_eq, Hobj in Hrun. simpl in Hrun.
  destruct Hst as [Hst|[Hst|Hst]]; rewrite Hst in *.
  - rewrite Hu in Hrun. run_py. injection Hrun as <- <-. cbn [calls].
    rewrite !lookup_alter_eq, Hobj. simpl.
    eexists. split; [reflexivity|]. simpl. repeat split; auto. constructor.
  - run_py. rewrite Hu in Hrun. simpl in Hrun. unfold randint in Hrun.
    assert (Hw : (0 <? pickup_delay_max u + 1 - pickup_delay_min u) = true)
      by (apply Z.ltb_lt; lia).
    rewrite Hw in Hrun. simpl in Hrun. injection Hrun as <- <-. cbn [calls].
    rewrite !lookup_alter_eq, Hobj. simpl.
    eexists. split; [reflexivity|]. simpl. repeat split; auto. constructor.
  - run_py. rewrite Hu in Hrun. simpl in Hrun. injection Hrun as <- <-. cbn [calls].
    rewrite !lookup_alter_eq, Hobj. simpl.
    eexists. split; [reflexivity|]. simpl. repeat split; auto; try constructor.
Qed.

Lemma advance_functional s s' : advance s s' -> next_state s = Some s'.
Proof. destruct 1; reflexivity. Qed.

(** C2. An INVITE the session accepts for a configured user creates a call
    object in state SESSION_SETUP and leaves it in state INVITE, with nothing
    sent.  From there, along every run of timer expiries, ACKs and BYEs (no
    CANCEL), each event leaves the state or moves it one step along
    SETUP, INVITE, TRYING, RINGING, CALL, and whenever the state is CALL
    exactly three responses to the INVITE were sent since it arrived: 100,
    180, 200, in this order.  With a pickup window [min <= max], the three
    timer expiries take the call through TRYING and RINGING to CALL. *)
Theorem invite_advances_to_answered
    (ext : Collaborators) (w0 : World) (msg : Message) (ct : bytes)
    (medias : list Media) (audio : Media) (cid to : bytes) (u : SipUser) :
  h_content_type msg = Some ct ->
  lower ct = "application/sdp" ->
  sdp msg = Some medias ->
  find (fun m => String.eqb (lower (media m)) "audio") medias = Some audio ->
  h_call_id msg = Some cid ->
  _callids (session w0) !! cid = None ->
  h_to msg = Some to ->
  get_user_by_username ext (personality (session w0)) to = Some u ->
  let self := fresh (dom (calls w0)) in
  exists w1 w2,
    SipCall_init ext (remote (session w0)) (port audio) msg w0 = (w1, Ret self) /\
    state_of self w1 = Some SESSION_SETUP /\
    handle_INVITE ext msg w0 = (w2, Ret tt) /\
    _callids (session w2) !! cid = Some self /\
    state_of self w2 = Some INVITE /\
    wire w2 = wire w0 /\
    (forall evs ev,
        forallb (fun e => negb (is_CANCEL e)) (evs ++ [ev]) = true ->
        exists s s',
          state_of self (run_call self evs w2) = Some s /\
          state_of self (run_call self (evs ++ [ev]) w2) = Some s' /\
          (s' = s \/ advance s s') /\
          (s' = CALL ->
           replies_since (wire w0) (run_call self (evs ++ [ev]) w2) =
             [Some (msg, 100); Some (msg, 180); Some (msg, 200)])) /\
    (pickup_delay_min u <= pickup_delay_max u ->
     forall r1 r2 r3,
       state_of self (run_call self [EvTimer r1] w2) = Some INVITE_TRYING /\
       state_of self (run_call self [EvTimer r1; EvTimer r2] w2) = Some INVITE_RINGING /\
       state_of self (run_call self [EvTimer r1; EvTimer r2; EvTimer r3] w2) = Some CALL).
Proof.
  intros Hct Hsdp Hm Haudio Hcid Hnew Hto Hu self.
  eexists _, _.
  split; [apply (SipCall_init_spec ext w0 (port audio) msg cid to Hcid Hto)|].
  split; [unfold state_of; cbn [calls]; rewrite lookup_insert_eq; reflexivity|].
  split; [apply (handle_INVITE_new_call ext w0 msg ct medias audio cid to);
          assumption|].
  set (w2 := {| session := set_callids _ (session w0);
                calls := <[fresh (dom (calls w0)) := _]> (calls w0);
                reg_manager := reg_manager w0; wire := wire w0 |}).
  assert (Hobj2 : calls w2 !! self =
                  Some (invited msg (fresh_call ext w0 (port audio) msg cid to)))
    by (unfold w2, self; cbn [calls]; apply lookup_insert_eq).
  assert (Hinv : call_inv (wire w0) msg self w2).
  { exists (invited msg (fresh_call ext w0 (port audio) msg cid to)), u, [].
    split; [exact Hobj2|]. repeat split; auto.
    unfold w2. cbn [wire]. rewrite app_nil_r. reflexivity. }
  split; [unfold w2; cbn [session _callids set_callids]; apply lookup_insert_eq|].
  split; [unfold state_of; rewrite Hobj2; reflexivity|].
  split; [reflexivity|].
  split.
  - intros evs ev Hev.
    rewrite forallb_app in Hev. apply andb_true_iff in Hev as [Hevs Hev].
    simpl in Hev. rewrite andb_true_r in Hev. apply negb_true_iff in Hev.
    pose proof (run_call_inv (wire w0) msg self evs w2 Hevs Hinv) as Hinv'.
    destruct (call_event_step (wire w0) msg self _ ev Hev Hinv')
      as (Hinv'' & s & s' & Hs & Hs' & Hadv).
    rewrite run_call_app. simpl run_call.
    exists s, s'. repeat split; auto.
    intros ->. apply (call_inv_replies _ _ self); assumption.
  - intros Hwin r1 r2 r3. simpl run_call.
    destruct (fire_advances self w2 r1 _ u Hobj2 Hu Hwin eq_refl)
      as (c1 & Hobj1 & Hadv1 & Hu1 & Hact1); [left; reflexivity|].
    apply advance_functional in Hadv1. simpl in Hadv1. injection Hadv1 as Hst1.
    destruct (fire_advances self _ r2 c1 u Hobj1 Hu1 Hwin)
      as (c2 & Hobj3 & Hadv2 & Hu2 & Hact2);
      [apply Hact1; congruence | right; left; congruence |].
    apply advance_functional in Hadv2. rewrite <- Hst1 in Hadv2. simpl in Hadv2.
    injection Hadv2 as Hst2.
    destruct (fire_advances self _ r3 c2 u Hobj3 Hu2 Hwin)
      as (c3 & Hobj4 & Hadv3 & _);
      [apply Hact2; congruence | right; right; congruence |].
    apply advance_functional in Hadv3. rewrite <- Hst2 in Hadv3. simpl in Hadv3.
    injection Hadv3 as Hst3.
    unfold state_of, call_event. rewrite Hobj1, Hobj3, Hobj4. simpl.
    rewrite <- Hst1, <- Hst2, <- Hst3. auto.
Qed.

Lemma challenge_spec msg n u w :
  challenge msg n u w = (challenged (digest_challenge n u) msg w, Ret tt).
Proof. destruct w as [[] ? ? ?]. reflexivity. Qed.

Lemma handle_REGISTER_authorized ext w msg via to u hv :
  authorized_register ext w msg via to u hv ->
  handle_REGISTER ext msg w =
  match _auth (session w) with
  | SlotNone => (challenged (digest_challenge (PyStr "foobar123") u) msg w, Ret tt)
  | SlotList => (w, Raise AttributeError)
  | SlotAuth a =>
      if auth_check ext a (username u) "test" "REGISTER" hv
      then (registered to (via_branch via) msg w, Ret tt)
      else (challenged (digest_challenge (PyBytes "foobar123") u) msg w, Ret tt)
  end.
Proof.
  intros [Hh Hvia Hto Hu [pw Hpw] Hauth]. unfold handle_REGISTER.
  rewrite Hh, Hvia. py_steps. rewrite Hto. py_steps. rewrite Hu. py_steps.
  rewrite Hpw, Hauth.
  destruct (_auth (session w)) as [| |a]; cbn [is_None check]; py_steps;
    try reflexivity; try apply challenge_spec.
  destruct (auth_check ext a (username u) "test" "REGISTER" hv); py_steps.
  - destruct w as [[] ? ? ?]. reflexivity.
  - apply challenge_spec.
Qed.

(** Without an Authorization header, a REGISTER for a user with a password
    is answered with a 401 whose challenge has the user's realm, and the
    challenge takes the place of whatever [_auth] held. *)
Lemma handle_REGISTER_unauthorized ext w msg via to u :
  headers_exist msg ["to"; "from"; "call-id"; "cseq"] = true ->
  last (h_via msg) = Some via ->
  h_to msg = Some to ->
  get_user_by_username ext (personality (session w)) to = Some u ->
  is_Some (password u) ->
  h_authorization msg = None ->
  handle_REGISTER ext msg w =
    (challenged (digest_challenge (PyStr "foobar123") u) msg w, Ret tt) /\
  auth_realm (digest_challenge (PyStr "foobar123") u) = user_realm u.
Proof.
  intros Hh Hvia Hto Hu [pw Hpw] Hauth. split; [|reflexivity].
  unfold handle_REGISTER.
  rewrite Hh, Hvia. py_steps. rewrite Hto. py_steps. rewrite Hu. py_steps.
  rewrite Hpw, Hauth. apply challenge_spec.
Qed.

(** C1, as the code has it. After a REGISTER whose digest verification
    fails the session stores a new challenge and sends it in a 401; its
    nonce is the constant [b"foobar123"], so it equals the nonce of the
    challenge it replaces whenever that one was a re-challenge too. *)
Theorem rechallenge_nonce_is_constant
    (ext : Collaborators) (w : World) (msg : Message) (via : Via)
    (to : bytes) (u : SipUser) (hv : bytes) (a : Authentication) :
  authorized_register ext w msg via to u hv ->
  _auth (session w) = SlotAuth a ->
  auth_check ext a (username u) "test" "REGISTER" hv = false ->
  let a' := digest_challenge (PyBytes "foobar123") u in
  handle_REGISTER ext msg w = (challenged a' msg w, Ret tt) /\
  _auth (session (challenged a' msg w)) = SlotAuth a' /\
  replies_since (wire w) (challenged a' msg w) = [Some (msg, 401)] /\
  nonce a' = PyBytes "foobar123" /\
  (nonce a = PyBytes "foobar123" -> nonce a' = nonce a).
Proof.
  intros Hreg Hslot Hfail a'.
  rewrite (handle_REGISTER_authorized ext w msg via to u hv Hreg), Hslot, Hfail.
  split; [reflexivity|]. split; [reflexivity|].
  split; [|split; [reflexivity|intros ->; reflexivity]].
  unfold replies_since, challenged. cbn [wire]. rewrite drop_app_length.
  reflexivity.
Qed.

(** C5 at a session that has issued no challenge yet. [_auth] starts as
    the list [[]], which is not [None]: a REGISTER that carries an
    Authorization header for a user with a password reaches
    [self._auth.check] and raises [AttributeError]; no 401 is sent, no
    challenge is stored, and the exception leaves [handle_io_in]. *)
Theorem register_with_authorization_before_challenge
    (ext : Collaborators) (key : SessionKey) (data : bytes) (msg : Message)
    (m : bytes) (via : Via) (to : bytes) (u : SipUser) (hv : bytes) :
  rfc3261_Message ext data = Ret msg ->
  method msg = Some m ->
  decode_upper ext m = Some "REGISTER" ->
  authorized_register ext (World_init ext key) msg via to u hv ->
  handle_REGISTER ext msg (World_init ext key)
    = (World_init ext key, Raise AttributeError) /\
  exists w',
    handle_io_in ext data (World_init ext key) = (w', Raise AttributeError) /\
    wire w' = [] /\
    _auth (session w') = SlotList.
Proof.
  intros Hparse Hm Hup Hreg.
  pose proof (handle_REGISTER_authorized ext _ msg via to u hv Hreg) as Hrun.
  split; [exact Hrun|].
  unfold handle_io_in, bind at 1, modify_session.
  unfold bind at 1. rewrite Hparse, Hm, Hup. cbn [getattr_handle String.eqb Ascii.eqb Bool.eqb].
  unfold bind.
  rewrite (handle_REGISTER_authorized ext _ msg via to u hv).
  - cbn [session _auth set_bistream World_init SipSession_init].
    eexists. split; [reflexivity|]. split; reflexivity.
  - destruct Hreg. constructor; assumption.
Qed.

(** C7 at a datagram the parser rejects. [rfc3261.Message(data)] is called
    outside any [try]: the exception it raises leaves [handle_io_in], which
    returns no length; the datagram was logged and nothing was sent. *)
Theorem parse_error_leaves_handle_io_in
    (ext : Collaborators) (w : World) (data : bytes) (e : PyExn) :
  rfc3261_Message ext data = Raise e ->
  handle_io_in ext data w =
  ({| session := set_bistream (bistream (session w) ++ [(dir_in, Raw data)]) (session w);
      calls := calls w;
      reg_manager := reg_manager w;
      wire := wire w |}, Raise e).
Proof.
  intros Hparse. unfold handle_io_in, bind at 1, modify_session.
  unfold bind at 1. rewrite Hparse. reflexivity.
Qed.

Example demo_invited :
  state_of 0 Demo.invited_world = Some INVITE /\
  _callids (session Demo.invited_world) !! "call-1" = Some 0%nat /\
  wire Demo.invited_world = [].
Proof. vm_compute. auto. Qed.

Example demo_answered :
  map (fun n => state_of 0 (Demo.after_timer n)) [1; 2; 3; 4]%nat =
    [Some INVITE_TRYING; Some INVITE_RINGING; Some CALL; Some CALL] /\
  replies (wire (Demo.after_timer 3)) =
    [Some (Demo.invite, 100); Some (Demo.invite, 180); Some (Demo.invite, 200)] /\
  timer_of 0 (Demo.after_timer 2) =
    Some {| after := 5 # 1; repeat := 0 # 1; active := true;
            data := Some Demo.invite |}.
Proof. vm_compute. auto. Qed.

Example demo_cancelled :
  state_of 0 Demo.cancelled_world = Some INVITE_CANCEL /\
  replies_since (wire (Demo.after_timer 2)) Demo.cancelled_world =
    [Some (Demo.invite, 487); Some (Demo.request "CANCEL" 1, 200)].
Proof. vm_compute. auto. Qed.

(** ** The theorems at the concrete conversation *)

Lemma cancel_cseq_mismatch_is_noop_witness :
  SipCall_handle_CANCEL 0 (Demo.request "CANCEL" 9) (Demo.after_timer 1)
    = (Demo.after_timer 1, Ret tt) /\
  handle_CANCEL (Demo.request "CANCEL" 9) (Demo.after_timer 1)
    = (Demo.after_timer 1, Ret tt).
Proof.
  apply (cancel_cseq_mismatch_is_noop (Demo.after_timer 1) "call-1" 0
           (Demo.the_call (Demo.after_timer 1)) (Demo.request "CANCEL" 9)
           {| cseq_seq := 1; cseq_method := "INVITE" |}
           {| cseq_seq := 9; cseq_method := "CANCEL" |});
    try (vm_compute; reflexivity).
  simpl. lia.
Defined.


Lemma ack_closes_only_on_matching_cseq_witness :
  (1 <> 9 ->
     handle_ACK (Demo.request "ACK" 9) Demo.cancelled_world
       = (Demo.cancelled_world, Ret tt)) /\
  (1 = 9 ->
     handle_ACK (Demo.request "ACK" 9) Demo.cancelled_world
       = (closed_world 0 (Demo.the_call Demo.cancelled_world) Demo.cancelled_world,
          Ret tt) /\
     _callids (session (closed_world 0 (Demo.the_call Demo.cancelled_world)
                          Demo.cancelled_world)) !! "call-1" = None /\
     wire (closed_world 0 (Demo.the_call Demo.cancelled_world) Demo.cancelled_world)
       = wire Demo.cancelled_world).
Proof.
  apply (ack_closes_only_on_matching_cseq Demo.cancelled_world "call-1" 0
           (Demo.the_call Demo.cancelled_world) (Demo.request "ACK" 9)
           {| cseq_seq := 1; cseq_method := "INVITE" |}
           {| cseq_seq := 9; cseq_method := "ACK" |});
    vm_compute; reflexivity.
Defined.

Lemma invite_with_active_call_id_is_noop_witness :
  handle_INVITE Demo.ext Demo.invite (Demo.after_timer 1)
    = (Demo.after_timer 1, Ret tt) /\
  exists w',
    handle_io_in Demo.ext "INVITE" (Demo.after_timer 1) = (w', Ret 6) /\
    calls w' = calls (Demo.after_timer 1) /\
    _callids (session w') = _callids (session (Demo.after_timer 1)) /\
    wire w' = wire (Demo.after_timer 1) /\
    bistream (session w') =
      bistream (session (Demo.after_timer 1)) ++ [(dir_in, Raw "INVITE")].
Proof.
  apply (invite_with_active_call_id_is_noop Demo.ext (Demo.after_timer 1)
           "INVITE" Demo.invite "INVITE" "call-1");
    try (vm_compute; reflexivity).
  exists 0%nat. vm_compute. reflexivity.
Defined.

Lemma pickup_delay_within_window_witness :
  (forall w' r,
      SipCall_handle_invite 0 7 (Demo.after_timer 1) = (w', r) ->
      state_of 0 w' = Some INVITE_RINGING ->
      exists delay,
        2 <= delay <= 5 /\
        timer_of 0 w' =
          Some (Timer_start
                  (Timer_set (inject_Z delay) (0 # 1)
                     (invite_handler (Demo.the_call (Demo.after_timer 1))))) /\
        (exists t, timer_of 0 w' = Some t /\
                   after t = inject_Z delay /\
                   repeat t = 0 # 1 /\
                   active t = true) /\
        wire w' = wire (Demo.after_timer 1)
                    ++ [sent (Demo.after_timer 1) (create_response Demo.invite 180)]) /\
  (2 <= 5 ->
   exists w' delay t,
     SipCall_handle_invite 0 7 (Demo.after_timer 1) = (w', Ret tt) /\
     state_of 0 w' = Some INVITE_RINGING /\
     2 <= delay <= 5 /\
     timer_of 0 w' = Some t /\
     after t = inject_Z delay /\
     repeat t = 0 # 1 /\
     active t = true).
Proof.
  apply (pickup_delay_within_window (Demo.after_timer 1) 0
           (Demo.the_call (Demo.after_timer 1)) Demo.alice 7);
    vm_compute; reflexivity.
Defined.

Lemma rechallenge_nonce_is_constant_witness :
  let w := Demo.receive ["REGISTER"; "REGISTER wrong"] Demo.start in
  let a' := digest_challenge (PyBytes "foobar123") Demo.alice in
  handle_REGISTER Demo.ext Demo.register_wrong w
    = (challenged a' Demo.register_wrong w, Ret tt) /\
  _auth (session (challenged a' Demo.register_wrong w)) = SlotAuth a' /\
  replies_since (wire w) (challenged a' Demo.register_wrong w)
    = [Some (Demo.register_wrong, 401)] /\
  nonce a' = PyBytes "foobar123" /\
  (nonce (digest_challenge (PyBytes "foobar123") Demo.alice) = PyBytes "foobar123" ->
   nonce a' = nonce (digest_challenge (PyBytes "foobar123") Demo.alice)).
Proof.
  apply (rechallenge_nonce_is_constant Demo.ext
           (Demo.receive ["REGISTER"; "REGISTER wrong"] Demo.start)
           Demo.register_wrong {| via_branch := Some "z9hG4bK74bf9" |}
           "alice" Demo.alice "nonsense"
           (digest_challenge (PyBytes "foobar123") Demo.alice)).
  - constructor; try (vm_compute; reflexivity). exists "secret". reflexivity.
  - vm_compute. reflexivity.
  - vm_compute. reflexivity.
Defined.

Lemma register_with_authorization_before_challenge_witness :
  handle_REGISTER Demo.ext Demo.register_secret (World_init Demo.ext Demo.key)
    = (World_init Demo.ext Demo.key, Raise AttributeError) /\
  exists w',
    handle_io_in Demo.ext "REGISTER secret" (World_init Demo.ext Demo.key)
      = (w', Raise AttributeError) /\
    wire w' = [] /\
    _auth (session w') = SlotList.
Proof.
  apply (register_with_authorization_before_challenge Demo.ext Demo.key
           "REGISTER secret" Demo.register_secret "REGISTER"
           {| via_branch := Some "z9hG4bK74bf9" |} "alice" Demo.alice
           (Demo.digest "alice" "example.org" "secret"));
    try (vm_compute; reflexivity).
  constructor; try (vm_compute; reflexivity). exists "secret". reflexivity.
Defined.

Lemma parse_error_leaves_handle_io_in_witness :
  handle_io_in Demo.ext "garbage" Demo.start =
  ({| session := set_bistream (bistream (session Demo.start) ++ [(dir_in, Raw "garbage")])
                   (session Demo.start);
      calls := calls Demo.start;
      reg_manager := reg_manager Demo.start;
      wire := wire Demo.start |}, Raise SipParsingError).
Proof.
  apply (parse_error_leaves_handle_io_in Demo.ext Demo.start "garbage" SipParsingError).
  vm_compute. reflexivity.
Defined.

(** C1 does not hold of the code: after a first failed verification the
    stored challenge has the nonce [b"foobar123"], and the re-challenge
    that answers a second failed verification has the same nonce. *)
Lemma rechallenge_reuses_nonce :
  let w := Demo.receive ["REGISTER"; "REGISTER wrong"] Demo.start in
  let w' := fst (handle_REGISTER Demo.ext Demo.register_wrong w) in
  exists a a',
    _auth (session w) = SlotAuth a /\
    auth_check Demo.ext a (username Demo.alice) "test" "REGISTER" "nonsense" = false /\
    replies_since (wire w) w' = [Some (Demo.register_wrong, 401)] /\
    _auth (session w') = SlotAuth a' /\
    ~ nonce a' <> nonce a.
Proof.
  eexists _, _. split; [vm_compute; reflexivity|].
  split; [vm_compute; reflexivity|].
  split; [vm_compute; reflexivity|].
  split; [vm_compute; reflexivity|].
  intros Hne. apply Hne. reflexivity.
Qed.

(** C4 at a user whose configured password is not ["test"]. After a
    challenge, a REGISTER whose Authorization answers it with the
    configured password [secret] is refused with a 401 and nothing is
    registered; one that answers it with the literal ["test"] gets 200 and
    the user is registered. *)
Theorem register_verifies_against_literal_test :
  let w := Demo.receive ["REGISTER"] Demo.start in
  password Demo.alice = Some "secret" /\
  h_authorization Demo.register_secret
    = Some (Demo.digest "alice" "example.org" "secret") /\
  replies_since (wire w) (Demo.receive ["REGISTER secret"] w)
    = [Some (Demo.register_secret, 401)] /\
  _users (reg_manager (Demo.receive ["REGISTER secret"] w)) !! "alice" = None /\
  replies_since (wire w) (Demo.receive ["REGISTER test"] w)
    = [Some (Demo.register_test, 200)] /\
  _users (reg_manager (Demo.receive ["REGISTER test"] w)) !! "alice"
    = Some [User_init "alice" (Some "z9hG4bK74bf9")].
Proof. vm_compute. repeat split; reflexivity. Qed.

Lemma invite_advances_to_answered_witness :
  exists w2,
    handle_INVITE Demo.ext Demo.invite Demo.start = (w2, Ret tt) /\
    state_of 0 w2 = Some INVITE /\
    forall r1 r2 r3,
      state_of 0 (run_call 0 [EvTimer r1] w2) = Some INVITE_TRYING /\
      state_of 0 (run_call 0 [EvTimer r1; EvTimer r2] w2) = Some INVITE_RINGING /\
      state_of 0 (run_call 0 [EvTimer r1; EvTimer r2; EvTimer r3] w2) = Some CALL /\
      replies_since [] (run_call 0 [EvTimer r1; EvTimer r2; EvTimer r3] w2) =
        [Some (Demo.invite, 100); Some (Demo.invite, 180); Some (Demo.invite, 200)].
Proof.
  assert (Hfresh : fresh (dom (calls Demo.start)) = 0%nat)
    by (vm_compute; reflexivity).
  pose proof (invite_advances_to_answered Demo.ext Demo.start Demo.invite
              "Application/SDP"
              [{| media := "video"; port := 5004 |};
               {| media := "audio"; port := 4000 |}]
              {| media := "audio"; port := 4000 |} "call-1" "alice" Demo.alice) as H.
  specialize (H eq_refl).
  specialize (H eq_refl).
  specialize (H eq_refl).
  specialize (H eq_refl).
  specialize (H eq_refl).
  specialize (H eq_refl).
  specialize (H eq_refl).
  specialize (H eq_refl).
  cbv zeta in H.
  destruct H as (w1 & w2 & _ & _ & Hrun & _ & Hst & _ & Hsafe & Hlive).
  rewrite Hfresh in Hst, Hsafe, Hlive.
  exists w2. split; [exact Hrun|]. split; [exact Hst|].
  intros r1 r2 r3.
  assert (Hwin : pickup_delay_min Demo.alice <= pickup_delay_max Demo.alice)
    by (simpl; lia).
  destruct (Hlive Hwin r1 r2 r3) as (H1 & H2 & H3).
  repeat split; [exact H1 | exact H2 | exact H3 |].
  destruct (Hsafe [EvTimer r1; EvTimer r2] (EvTimer r3) eq_refl)
    as (s & s' & _ & Hs' & _ & Hcall).
  apply Hcall.
  change ([EvTimer r1; EvTimer r2] ++ [EvTimer r3])
    with [EvTimer r1; EvTimer r2; EvTimer r3] in Hs'.
  rewrite H3 in Hs'. congruence.
Defined.

(** * Further properties of the handlers *)

Lemma SipSession_send_spec r w :
  SipSession_send (Dumps r) w = (after_send r w, Ret tt).
Proof. destruct w as [[] ? ? ?]. reflexivity. Qed.

Lemma handle_BYE_dispatch w cid self msg :
  h_call_id msg = Some cid ->
  _callids (session w) !! cid = Some self ->
  handle_BYE msg w =
  try_except_AuthenticationError (SipCall_handle_BYE self msg) (ret tt) w.
Proof.
  intros Hcid Hmap. unfold handle_BYE, bind, attr, get_session, ret.
  rewrite Hcid. simpl. rewrite Hmap. reflexivity.
Qed.

Lemma CallState_eqb_eq a b : CallState_eqb a b = true <-> a = b.
Proof. destruct a, b; simpl; split; congruence. Qed.

Lemma CallState_eqb_neq a b : CallState_eqb a b = false <-> a <> b.
Proof. destruct a, b; simpl; split; congruence. Qed.

(** X1. An ACK or a BYE for a call that is not in state INVITE_CANCEL is
    ignored: the session's handler returns with the world as it was.  In
    particular an answered call cannot be ended by BYE. *)
Theorem ack_and_bye_ignored_unless_cancelled
    (w : World) (cid : bytes) (self : nat) (c : SipCall) (msg : Message) :
  h_call_id msg = Some cid ->
  _callids (session w) !! cid = Some self ->
  calls w !! self = Some c ->
  call_state c <> INVITE_CANCEL ->
  handle_ACK msg w = (w, Ret tt) /\ handle_BYE msg w = (w, Ret tt).
Proof.
  intros Hcid Hmap Hobj Hst. apply CallState_eqb_neq in Hst.
  rewrite (handle_ACK_dispatch w cid self msg Hcid Hmap).
  rewrite (handle_BYE_dispatch w cid self msg Hcid Hmap).
  unfold try_except_AuthenticationError, SipCall_handle_ACK, SipCall_handle_BYE,
    bind, get_call.
  rewrite Hobj, Hst. split; reflexivity.
Qed.

(** X2. A BYE for a call in state INVITE_CANCEL, whatever its CSeq: the
    session answers it with 200 and then closes the call, which removes it
    from [_callids], stops its timer and drops its RTP stream. *)
Theorem bye_closes_cancelled_call
    (w : World) (cid : bytes) (self : nat) (c : SipCall) (msg : Message) :
  h_call_id msg = Some cid ->
  _callids (session w) !! cid = Some self ->
  calls w !! self = Some c ->
  call_call_id c = cid ->
  call_state c = INVITE_CANCEL ->
  let w' := closed_world self c (after_send (create_response msg 200) w) in
  handle_BYE msg w = (w', Ret tt) /\
  wire w' = wire w ++ [sent w (create_response msg 200)] /\
  _callids (session w') !! cid = None /\
  (forall other, other <> cid ->
     _callids (session w') !! other = _callids (session w) !! other) /\
  (exists c', calls w' !! self = Some c' /\
     active (invite_handler c') = false /\ _rtp_stream c' = None /\
     call_closed c' = true).
Proof.
  intros Hcid Hmap Hobj Hkey Hst w'.
  rewrite (handle_BYE_dispatch w cid self msg Hcid Hmap).
  unfold try_except_AuthenticationError, SipCall_handle_BYE, bind at 1, get_call.
  rewrite Hobj, Hst. cbv beta iota delta [CallState_eqb negb].
  unfold SipCall_send, bind. rewrite SipSession_send_spec.
  rewrite (SipCall_close_spec _ self c) by exact Hobj.
  split; [reflexivity|]. unfold w', closed_world, after_send.
  cbn [wire session calls _callids set_callids set_bistream].
  split; [reflexivity|]. rewrite Hkey.
  split; [apply lookup_delete_eq|].
  split; [intros other Hne; apply lookup_delete_ne; congruence|].
  eexists. split; [apply lookup_insert_eq|]. simpl. auto.
Qed.

(** X3. A CANCEL for a call that is not in state INVITE, INVITE_TRYING or
    INVITE_RINGING is ignored even when its CSeq sequence number is the
    INVITE's: an answered, refused or already cancelled call is left as it
    is and gets no response. *)
Theorem cancel_ignored_outside_invite_states
    (w : World) (cid : bytes) (self : nat) (c : SipCall)
    (msg_cancel : Message) (cseq_cancel : CSeq) :
  h_call_id msg_cancel = Some cid ->
  h_cseq msg_cancel = Some cseq_cancel ->
  _callids (session w) !! cid = Some self ->
  calls w !! self = Some c ->
  ~ cancellable (call_state c) ->
  handle_CANCEL msg_cancel w = (w, Ret tt).
Proof.
  intros Hcid Hc' Hmap Hobj Hst.
  rewrite (handle_CANCEL_dispatch w cid self msg_cancel cseq_cancel Hcid Hmap Hc').
  unfold try_except_AuthenticationError, SipCall_handle_CANCEL, bind, get_call.
  rewrite Hobj.
  destruct (call_state c); simpl; try reflexivity;
    exfalso; apply Hst; unfold cancellable; auto.
Qed.

Lemma run_call_fixed (P : CallEvent -> bool) self w :
  (forall ev, P ev = true -> fst (call_event self ev w) = w) ->
  forall evs, forallb P evs = true -> run_call self evs w = w.
Proof.
  intros Hfix evs. induction evs as [|ev evs IH]; simpl; [reflexivity|].
  intros Hall. apply andb_true_iff in Hall as [Hev Hevs].
  rewrite (Hfix ev Hev). apply IH. exact Hevs.
Qed.

Lemma settled_event self w c ev :
  calls w !! self = Some c -> settled c -> fst (call_event self ev w) = w.
Proof.
  intros Hobj [Hoff Hst].
  destruct ev as [rnd|m|m|m]; simpl.
  - unfold fire_invite_handler, bind, get_call. rewrite Hobj, Hoff. reflexivity.
  - unfold SipCall_handle_ACK, bind, get_call. rewrite Hobj.
    destruct Hst as [-> | ->]; reflexivity.
  - unfold SipCall_handle_BYE, bind, get_call. rewrite Hobj.
    destruct Hst as [-> | ->]; reflexivity.
  - unfold SipCall_handle_CANCEL, bind, get_call. rewrite Hobj.
    destruct Hst as [-> | ->]; reflexivity.
Qed.

Lemma forallb_always (evs : list CallEvent) : forallb (fun _ => true) evs = true.
Proof. induction evs; simpl; auto. Qed.

(** X4. An answered call (state CALL) or a refused one (state NO_SESSION)
    whose timer is not running is final: no sequence of timer expiries,
    ACKs, BYEs and CANCELs changes the world, so nothing more is sent for
    it and it is never removed from the session by these events. *)
Theorem settled_call_is_final
    (w : World) (self : nat) (c : SipCall) (evs : list CallEvent) :
  calls w !! self = Some c ->
  settled c ->
  run_call self evs w = w.
Proof.
  intros Hobj Hset.
  apply (run_call_fixed (fun _ => true)).
  - intros ev _. apply (settled_event self w c ev Hobj Hset).
  - apply forallb_always.
Qed.

(** X5. A cancelled call (state INVITE_CANCEL, timer stopped) ignores timer
    expiries and further CANCELs: along any run of such events the world
    stays as it is, so none of 100, 180, 200 is sent after the 487. *)
Theorem cancelled_call_stays_silent
    (w : World) (self : nat) (c : SipCall) (evs : list CallEvent) :
  calls w !! self = Some c ->
  call_state c = INVITE_CANCEL ->
  active (invite_handler c) = false ->
  forallb (fun ev => negb (is_ACK_or_BYE ev)) evs = true ->
  run_call self evs w = w.
Proof.
  intros Hobj Hst Hoff.
  apply (run_call_fixed (fun ev => negb (is_ACK_or_BYE ev))).
  intros ev Hev. destruct ev as [rnd|m|m|m]; try discriminate; simpl.
  - unfold fire_invite_handler, bind, get_call. rewrite Hobj, Hoff. reflexivity.
  - unfold SipCall_handle_CANCEL, bind, get_call. rewrite Hobj, Hst. reflexivity.
Qed.

(** ** The timer callback, state by state *)

Lemma alter_at (m : gmap nat SipCall) i c f :
  m !! i = Some c -> alter f i m = <[i := f c]> m.
Proof.
  intros Hm. apply map_eq; intros j. destruct (decide (j = i)) as [->|Hne].
  - rewrite lookup_alter_eq, lookup_insert_eq, Hm. reflexivity.
  - rewrite lookup_alter_ne, lookup_insert_ne by congruence. reflexivity.
Qed.

Lemma alter_insert_at (m : gmap nat SipCall) i c f :
  alter f i (<[i := c]> m) = <[i := f c]> m.
Proof.
  rewrite (alter_at _ i c) by apply lookup_insert_eq.
  apply insert_insert_eq.
Qed.

Lemma fire_inactive self rnd w c :
  calls w !! self = Some c ->
  active (invite_handler c) = false ->
  fire_invite_handler self rnd w = (w, Ret tt).
Proof.
  intros Hobj Hoff. unfold fire_invite_handler, bind, get_call.
  rewrite Hobj, Hoff. reflexivity.
Qed.

Lemma fire_active self rnd w c :
  calls w !! self = Some c ->
  active (invite_handler c) = true ->
  fire_invite_handler self rnd w =
  SipCall_handle_invite self rnd (update_call self (on_timer Timer_stop c) w).
Proof.
  intros Hobj Hact. unfold fire_invite_handler, bind at 1, get_call.
  rewrite Hobj, Hact. unfold bind, modify_call, update_call.
  rewrite (alter_at (calls w) self c) by exact Hobj. reflexivity.
Qed.


Lemma handle_invite_known self rnd w c u :
  calls w !! self = Some c ->
  call_state c = INVITE ->
  _user c = Some u ->
  SipCall_handle_invite self rnd w =
  (update_call self
     (on_timer Timer_start
        (on_timer (Timer_set (1 # 1) (0 # 1)) (set_state INVITE_TRYING c)))
     (after_send (create_response (call_msg c) 100) w), Ret tt).
Proof.
  intros Hobj Hst Hu. unfold SipCall_handle_invite, bind at 1, get_call.
  rewrite Hobj, Hst, Hu. unfold SipCall_send, bind. rewrite SipSession_send_spec.
  unfold modify_call, update_call, after_send. cbn [calls session reg_manager wire].
  rewrite (alter_at (calls w) self c) by exact Hobj. rewrite !alter_insert_at. reflexivity.
Qed.

Lemma handle_invite_ringing self rnd w c u :
  calls w !! self = Some c ->
  call_state c = INVITE_RINGING ->
  _user c = Some u ->
  SipCall_handle_invite self rnd w =
  (update_call self (set_state CALL (set_rtp_stream (Some (rtp_stream_of c)) c))
     (after_send (ok_with_sdp c u) w), Ret tt).
Proof.
  intros Hobj Hst Hu. unfold SipCall_handle_invite, bind at 1, get_call.
  rewrite Hobj, Hst. unfold bind at 1, modify_call at 1.
  unfold bind at 1, attr. rewrite Hu. unfold ret at 1.
  unfold SipCall_send, bind. rewrite SipSession_send_spec.
  unfold modify_call, update_call, after_send. cbn [calls session reg_manager wire].
  rewrite (alter_at (calls w) self c) by exact Hobj. rewrite !alter_insert_at. reflexivity.
Qed.

Lemma fire_known_step self rnd w c u :
  calls w !! self = Some c ->
  _user c = Some u ->
  active (invite_handler c) = true ->
  pickup_delay_min u <= pickup_delay_max u ->
  cancellable (call_state c) ->
  exists c' r,
    calls (fst (fire_invite_handler self rnd w)) !! self = Some c' /\
    sessionkey (session (fst (fire_invite_handler self rnd w)))
      = sessionkey (session w) /\
    _callids (session (fst (fire_invite_handler self rnd w)))
      = _callids (session w) /\
    wire (fst (fire_invite_handler self rnd w)) = wire w ++ [sent w r] /\
    match call_state c with
    | INVITE => c' = trying c /\ r = create_response (call_msg c) 100
    | INVITE_TRYING =>
        exists delay,
          pickup_delay_min u <= delay <= pickup_delay_max u /\
          c' = ringing delay (on_timer Timer_stop c) /\
          r = create_response (call_msg c) 180
    | INVITE_RINGING => c' = answered c /\ r = ok_with_sdp c u
    | _ => False
    end.
Proof.
  intros Hobj Hu Hact Hwin Hst.
  rewrite (fire_active self rnd w c Hobj Hact).
  assert (Hobj' : calls (update_call self (on_timer Timer_stop c) w) !! self
                  = Some (on_timer Timer_stop c))
    by apply lookup_insert_eq.
  destruct Hst as [Hst|[Hst|Hst]]; rewrite Hst.
  - rewrite (handle_invite_known self rnd _ _ u Hobj' Hst Hu).
    eexists _, _. cbn [fst calls session wire update_call after_send set_bistream
                         sessionkey _callids].
    split; [apply lookup_insert_eq|]. repeat split.
  - destruct (randint_total (pickup_delay_min u) (pickup_delay_max u) rnd
                (update_call self (on_timer Timer_stop c) w) Hwin)
      as (delay & Hr & Hb).
    destruct (handle_invite_trying_ok _ self _ u rnd _ delay Hobj' Hst Hu Hr)
      as (w' & Hrun & Hcalls & Hsess & _ & Hwire).
    rewrite Hrun. cbn [fst]. rewrite Hcalls, Hsess, Hwire.
    eexists _, _. split; [apply lookup_insert_eq|].
    cbn [session update_call set_bistream sessionkey _callids wire].
    repeat split. exists delay. repeat split; auto; apply Hb.
  - rewrite (handle_invite_ringing self rnd _ _ u Hobj' Hst Hu).
    eexists _, _. cbn [fst calls session wire update_call after_send set_bistream
                         sessionkey _callids].
    split; [apply lookup_insert_eq|]. repeat split.
Qed.


(** X7. An INVITE the session accepts for a configured user with a pickup
    window [min <= max]: until the third timer expiry the call owns no RTP
    stream; the third expiry creates one from the session's local host to
    the session's remote host and the port of the first audio media of the
    INVITE, and the last thing sent is the 200 to the INVITE, with no
    header added, whose SDP body has the user's SDP name, the local host as
    unicast address and the address type IP4; the call is then settled. *)
Theorem answered_call_owns_rtp_stream
    (ext : Collaborators) (w0 : World) (msg : Message) (ct : bytes)
    (medias : list Media) (audio : Media) (cid to : bytes) (u : SipUser) :
  h_content_type msg = Some ct ->
  lower ct = "application/sdp" ->
  sdp msg = Some medias ->
  find (fun m => String.eqb (lower (media m)) "audio") medias = Some audio ->
  h_call_id msg = Some cid ->
  _callids (session w0) !! cid = None ->
  h_to msg = Some to ->
  get_user_by_username ext (personality (session w0)) to = Some u ->
  pickup_delay_min u <= pickup_delay_max u ->
  let self := fresh (dom (calls w0)) in
  exists w2,
    handle_INVITE ext msg w0 = (w2, Ret tt) /\
    forall r1 r2 r3,
      (forall evs, (length evs < 3)%nat ->
         evs `prefix_of` [EvTimer r1; EvTimer r2; EvTimer r3] ->
         _rtp_stream <$> calls (run_call self evs w2) !! self = Some None) /\
      let w' := run_call self [EvTimer r1; EvTimer r2; EvTimer r3] w2 in
      _rtp_stream <$> calls w' !! self =
        Some (Some {| rtp_local_host := fst (local (session w0));
                      rtp_remote_host := fst (remote (session w0));
                      rtp_remote_port := port audio |}) /\
      last (wire w') =
        Some (sent w0 (with_sdp {| sdp_name := user_sdp u;
                                   unicast_address := fst (local (session w0));
                                   addrtype := "IP4" |}
                                (create_response msg 200))) /\
      (exists r,
         last (wire w') = Some (local (session w0), remote (session w0), Dumps r) /\
         status r = 200 /\
         request r = msg /\
         appended r = [] /\
         res_sdp r = Some {| sdp_name := user_sdp u;
                             unicast_address := fst (local (session w0));
                             addrtype := "IP4" |}) /\
      exists c, calls w' !! self = Some c /\ settled c.
Proof.
  intros Hct Hsdp Hm Haudio Hcid Hnew Hto Hu Hwin self.
  eexists. split.
  { apply (handle_INVITE_new_call ext w0 msg ct medias audio cid to); assumption. }
  intros r1 r2 r3.
  set (c0 := invited msg (fresh_call ext w0 (port audio) msg cid to)).
  set (w2 := {| session := set_callids _ (session w0);
                calls := <[fresh (dom (calls w0)) := c0]> (calls w0);
                reg_manager := reg_manager w0; wire := wire w0 |}).
  assert (Hobj : calls w2 !! self = Some c0) by apply lookup_insert_eq.
  assert (Hu0 : _user c0 = Some u) by exact Hu.
  destruct (fire_known_step self r1 w2 c0 u Hobj Hu0 eq_refl Hwin)
    as (c1 & resp1 & Hobj1 & Hkey1 & _ & Hwire1 & Hc1 & _);
    [left; reflexivity|]. simpl in Hc1. subst c1.
  set (w3 := fst (fire_invite_handler self r1 w2)) in *.
  destruct (fire_known_step self r2 w3 (trying c0) u Hobj1 Hu0 eq_refl Hwin)
    as (c2 & resp2 & Hobj2 & Hkey2 & _ & Hwire2 & Hc2);
    [right; left; reflexivity|]. simpl in Hc2.
  destruct Hc2 as (delay & _ & -> & _).
  set (w4 := fst (fire_invite_handler self r2 w3)) in *.
  destruct (fire_known_step self r3 w4 _ u Hobj2 Hu0 eq_refl Hwin)
    as (c3 & resp3 & Hobj3 & Hkey3 & _ & Hwire3 & Hc3);
    [right; right; reflexivity|]. simpl in Hc3. destruct Hc3 as [-> ->].
  set (w5 := fst (fire_invite_handler self r3 w4)) in *.
  split.
  - intros evs Hlen Hpre.
    destruct evs as [|e1 [|e2 [|e3 evs]]]; simpl in Hlen; try lia.
    + cbn [run_call]. rewrite Hobj. reflexivity.
    + apply prefix_cons_inv_1 in Hpre. subst e1. cbn [run_call call_event].
      fold w3. rewrite Hobj1. reflexivity.
    + pose proof (prefix_cons_inv_1 _ _ _ _ Hpre) as ->.
      apply prefix_cons_inv_2, prefix_cons_inv_1 in Hpre. subst e2.
      cbn [run_call call_event]. fold w3. fold w4. rewrite Hobj2. reflexivity.
  - cbv zeta. cbn [run_call call_event]. fold w3. fold w4. fold w5.
    assert (Hlast : last (wire w5) =
              Some (sent w0 (with_sdp {| sdp_name := user_sdp u;
                                         unicast_address := fst (local (session w0));
                                         addrtype := "IP4" |}
                                      (create_response msg 200)))).
    { rewrite Hwire3, last_snoc. unfold sent, local, remote.
      rewrite Hkey2, Hkey1. reflexivity. }
    rewrite Hobj3. split; [reflexivity|]. split; [exact Hlast|]. split.
    + eexists. split; [exact Hlast|]. repeat split.
    + eexists. split; [reflexivity|]. split; [reflexivity|left; reflexivity].
Qed.

(** ** Requests the session drops or refuses *)

(** X8. An ACK, BYE or CANCEL whose Call-ID is not a key of [_callids] is
    ignored: the handler returns with the world as it was (for CANCEL
    provided it has a CSeq header, which the handler reads first). *)
Theorem requests_for_unknown_call_id_are_ignored
    (w : World) (msg : Message) (cid : bytes) :
  h_call_id msg = Some cid ->
  _callids (session w) !! cid = None ->
  handle_ACK msg w = (w, Ret tt) /\
  handle_BYE msg w = (w, Ret tt) /\
  (is_Some (h_cseq msg) -> handle_CANCEL msg w = (w, Ret tt)).
Proof.
  intros Hcid Hnew.
  unfold handle_ACK, handle_BYE, handle_CANCEL, bind, attr, get_session, ret.
  rewrite Hcid. simpl. rewrite Hnew. repeat split.
  intros [cseq Hc]. rewrite Hc. simpl. rewrite Hnew. reflexivity.
Qed.

(** X9. A request without a Call-ID header makes the ACK, BYE and CANCEL
    handlers raise [AttributeError] before they look at any call: the
    world is as it was, and the exception leaves [handle_io_in] once the
    datagram is logged. *)
Theorem requests_without_call_id_raise
    (ext : Collaborators) (w : World) (data : bytes) (msg : Message)
    (m : bytes) (name : string) :
  rfc3261_Message ext data = Ret msg ->
  method msg = Some m ->
  decode_upper ext m = Some name ->
  name ∈ ["ACK"; "BYE"; "CANCEL"] ->
  h_call_id msg = None ->
  handle_ACK msg w = (w, Raise AttributeError) /\
  handle_BYE msg w = (w, Raise AttributeError) /\
  handle_CANCEL msg w = (w, Raise AttributeError) /\
  handle_io_in ext data w = (after_receive data w, Raise AttributeError).
Proof.
  intros Hparse Hm Hup Hname Hcid.
  assert (Hh : forall w0,
             handle_ACK msg w0 = (w0, Raise AttributeError) /\
             handle_BYE msg w0 = (w0, Raise AttributeError) /\
             handle_CANCEL msg w0 = (w0, Raise AttributeError)).
  { intros w0. unfold handle_ACK, handle_BYE, handle_CANCEL, bind, attr.
    rewrite Hcid. repeat split. }
  destruct (Hh w) as (Ha & Hb & Hc). repeat split; auto.
  unfold handle_io_in, bind at 1, modify_session. fold (after_receive data w).
  unfold bind at 1. rewrite Hparse, Hm, Hup.
  destruct (Hh (after_receive data w)) as (Ha' & Hb' & Hc').
  rewrite !elem_of_cons in Hname.
  destruct Hname as [->|[->|[->|Hname]]]; [| | |inversion Hname];
    cbn [getattr_handle String.eqb Ascii.eqb Bool.eqb]; unfold bind;
    rewrite ?Ha', ?Hb', ?Hc'; reflexivity.
Qed.

Lemma handle_INVITE_with_audio ext w msg ct medias audio :
  h_content_type msg = Some ct ->
  lower ct = "application/sdp" ->
  sdp msg = Some medias ->
  find (fun m => String.eqb (lower (media m)) "audio") medias = Some audio ->
  handle_INVITE ext msg w =
  (call_id <- attr (h_call_id msg) ;;
   se <- get_session ;;
   match _callids se !! call_id with
   | Some _ => ret tt
   | None =>
       call <- SipCall_init ext (remote se) (port audio) msg ;;
       modify_session
         (fun se => set_callids (<[call_id := call]> (_callids se)) se) ;;
       try_except_AuthenticationError
         (SipCall_handle_INVITE call msg ;; ret tt)
         (SipCall_close call)
   end) w.
Proof.
  intros Hct Hsdp Hm Haudio. unfold handle_INVITE.
  assert (Hex : headers_exist msg ["content-type"] = true).
  { unfold headers_exist, forallb, has_header. cbn [String.eqb Ascii.eqb Bool.eqb].
    rewrite Hct. reflexivity. }
  rewrite Hex. py_steps. rewrite Hct. py_steps.
  rewrite Hsdp, String.eqb_refl. py_steps. rewrite Hm.
  destruct medias as [|m0 medias']; [discriminate|].
  change (length (m0 :: medias') <? 1)%nat with false. py_steps.
  rewrite Haudio. reflexivity.
Qed.

Lemma invite_content_cases msg :
  (h_content_type msg = None \/
   (exists ct, h_content_type msg = Some ct /\ lower ct <> "application/sdp") \/
   sdp msg = None \/
   (exists medias, sdp msg = Some medias /\
      Forall (fun m => lower (media m) <> "audio") medias)) \/
  (exists ct medias audio,
     h_content_type msg = Some ct /\ lower ct = "application/sdp" /\
     sdp msg = Some medias /\
     find (fun m => String.eqb (lower (media m)) "audio") medias = Some audio).
Proof.
  destruct (h_content_type msg) as [ct|]; [|auto].
  destruct (String.eqb_spec (lower ct) "application/sdp") as [Heq|Hne];
    [|left; right; left; eauto].
  destruct (sdp msg) as [medias|]; [|auto].
  destruct (find (fun m => String.eqb (lower (media m)) "audio") medias)
    as [audio|] eqn:Hfind.
  - right. exists ct, medias, audio. auto.
  - left. right. right. right. exists medias. split; [reflexivity|].
    apply Forall_forall. intros m Hin Haudio.
    apply list_elem_of_In in Hin.
    pose proof (find_none _ _ Hfind m Hin) as Hno. simpl in Hno.
    rewrite Haudio in Hno. discriminate.
Qed.

Lemma handle_INVITE_dropped ext w msg :
  h_content_type msg = None \/
  (exists ct, h_content_type msg = Some ct /\ lower ct <> "application/sdp") \/
  sdp msg = None \/
  (exists medias, sdp msg = Some medias /\
     Forall (fun m => lower (media m) <> "audio") medias) ->
  handle_INVITE ext msg w = (w, Ret tt).
Proof.
  intros Hbad. unfold handle_INVITE.
  destruct (headers_exist msg ["content-type"]) eqn:Hex; [|reflexivity].
  destruct (has_content_type msg Hex) as [ct Hct].
  py_steps. rewrite Hct. py_steps.
  destruct (String.eqb (lower ct) "application/sdp") eqn:Heq; [|reflexivity].
  apply String.eqb_eq in Heq. py_steps.
  destruct (sdp msg) as [medias|] eqn:Hsdp; [|reflexivity].
  destruct (length medias <? 1)%nat; [reflexivity|].
  destruct (find _ medias) as [audio|] eqn:Hfind; [|reflexivity].
  exfalso.
  destruct Hbad as [Hn|[(ct' & Hct' & Hne)|[Hn|(medias' & Hm & Hall)]]];
    try congruence.
  injection Hm as <-.
  apply find_some in Hfind as [Hin Haudio].
  apply String.eqb_eq in Haudio.
  rewrite Forall_forall in Hall. apply (Hall audio); [|exact Haudio].
  apply list_elem_of_In. exact Hin.
Qed.

(** X10. An INVITE that has no Content-Type header, or one that is not
    [application/sdp] up to the case of ASCII letters, or no SDP, or no
    media whose type is [audio] up to case, is dropped: the handler returns
    with the world as it was, and of the datagram only its entry in the
    session's record remains; no call object is created and nothing is
    sent. *)
Theorem invite_without_audio_sdp_is_dropped
    (ext : Collaborators) (w : World) (data : bytes) (msg : Message) (m : bytes) :
  rfc3261_Message ext data = Ret msg ->
  method msg = Some m ->
  decode_upper ext m = Some "INVITE" ->
  h_content_type msg = None \/
  (exists ct, h_content_type msg = Some ct /\ lower ct <> "application/sdp") \/
  sdp msg = None \/
  (exists medias, sdp msg = Some medias /\
     Forall (fun m => lower (media m) <> "audio") medias) ->
  handle_INVITE ext msg w = (w, Ret tt) /\
  handle_io_in ext data w =
    (after_receive data w, Ret (Z.of_nat (String.length data))).
Proof.
  intros Hparse Hm Hup Hbad.
  split; [apply handle_INVITE_dropped; exact Hbad|].
  unfold handle_io_in, bind at 1, modify_session. fold (after_receive data w).
  unfold bind at 1. rewrite Hparse, Hm, Hup.
  cbn [getattr_handle String.eqb Ascii.eqb Bool.eqb]. unfold bind.
  rewrite (handle_INVITE_dropped ext _ msg Hbad). reflexivity.
Qed.

(** X11. A request whose method is missing, cannot be decoded, or decodes
    and upper-cases to a name other than ACK, BYE, CANCEL, INVITE, OPTIONS,
    REGISTER is answered with exactly one 501; calls, registrations and the
    stored challenge are untouched and [handle_io_in] returns the length of
    the datagram. *)
Theorem unknown_method_gets_501
    (ext : Collaborators) (w : World) (data : bytes) (msg : Message) :
  rfc3261_Message ext data = Ret msg ->
  (forall m name, method msg = Some m -> decode_upper ext m = Some name ->
     name ∉ handled_methods) ->
  handle_io_in ext data w =
    (after_send (create_response msg 501) (after_receive data w),
     Ret (Z.of_nat (String.length data))).
Proof.
  intros Hparse Hunknown.
  unfold handle_io_in, bind at 1, modify_session. fold (after_receive data w).
  unfold bind at 1. rewrite Hparse.
  assert (Hnone : match method msg with
                  | Some m => match decode_upper ext m with
                              | Some name => getattr_handle ext name
                              | None => None
                              end
                  | None => None
                  end = None).
  { destruct (method msg) as [m|] eqn:Hm; [|reflexivity].
    destruct (decode_upper ext m) as [name|] eqn:Hup; [|reflexivity].
    specialize (Hunknown m name eq_refl Hup). unfold handled_methods in Hunknown.
    unfold getattr_handle.
    repeat match goal with
    | |- context [String.eqb name ?s] =>
        destruct (String.eqb_spec name s) as [->|_];
        [exfalso; apply Hunknown; set_solver|]
    end. reflexivity. }
  rewrite Hnone. unfold handle_unknown, bind. rewrite SipSession_send_spec.
  reflexivity.
Qed.

(** X12. OPTIONS is answered by the session alone: exactly one 200 that
    carries Allow, Accept and Accept-Language in this order; no call is
    looked up or changed, and [handle_io_in] returns the length of the
    datagram. *)
Theorem options_gets_200
    (ext : Collaborators) (w : World) (data : bytes) (msg : Message) (m : bytes) :
  rfc3261_Message ext data = Ret msg ->
  method msg = Some m ->
  decode_upper ext m = Some "OPTIONS" ->
  handle_io_in ext data w =
    (after_send (options_response msg) (after_receive data w),
     Ret (Z.of_nat (String.length data))) /\
  appended (options_response msg) =
    [(HText "INVITE, ACK, CANCEL, OPTIONS, BYE", "Allow");
     (HText "application/sdp", "Accept");
     (HText "en", "Accept-Language")].
Proof.
  intros Hparse Hm Hup. split; [|reflexivity].
  unfold handle_io_in, bind at 1, modify_session. fold (after_receive data w).
  unfold bind at 1. rewrite Hparse, Hm, Hup.
  cbn [getattr_handle String.eqb Ascii.eqb Bool.eqb].
  unfold handle_OPTIONS, bind. rewrite SipSession_send_spec. reflexivity.
Qed.

(** ** The registration directory *)

Lemma register_lookup user r uid :
  registrations uid (register user r) =
  registrations uid r ++ (if decide (user_id user = uid) then [user] else []).
Proof.
  unfold registrations, register. cbn [_users].
  destruct (decide (user_id user = uid)) as [<-|Hne].
  - rewrite lookup_insert_eq.
    destruct (_users r !! user_id user) eqn:Hl; simpl.
    + rewrite Hl. reflexivity.
    + rewrite lookup_insert_eq. reflexivity.
  - rewrite lookup_insert_ne by exact Hne.
    destruct (_users r !! user_id user) eqn:Hl; simpl.
    + rewrite app_nil_r. reflexivity.
    + rewrite lookup_insert_ne by exact Hne. rewrite app_nil_r. reflexivity.
Qed.

(** X13. The directory only grows: after any sequence of [register] calls
    the entry of an identifier is what it was, followed by the registered
    users with that identifier in the order of the calls; a user that is
    registered again is listed again, and no entry is ever shortened. *)
Theorem register_keeps_every_registration
    (users : list User) (r : RegistrationManager) (uid : bytes) :
  registrations uid (foldl (fun r u => register u r) r users) =
  registrations uid r ++ filter (fun u => user_id u = uid) users.
Proof.
  revert r. induction users as [|u users IH]; intros r; simpl.
  - rewrite app_nil_r. reflexivity.
  - rewrite IH, register_lookup, <- app_assoc. f_equal.
    rewrite filter_cons. destruct (decide (user_id u = uid)); reflexivity.
Qed.

(** ** REGISTER *)

(** X14. A REGISTER for a user without a password is registered at once:
    the user is appended to the directory with the branch of the last Via,
    one 200 is sent, and the stored challenge is not looked at or changed,
    whether or not the request carries an Authorization header. *)
Theorem register_without_password_succeeds
    (ext : Collaborators) (w : World) (msg : Message) (via : Via)
    (to : bytes) (u : SipUser) :
  headers_exist msg ["to"; "from"; "call-id"; "cseq"] = true ->
  last (h_via msg) = Some via ->
  h_to msg = Some to ->
  get_user_by_username ext (personality (session w)) to = Some u ->
  password u = None ->
  let w' := registered to (via_branch via) msg w in
  handle_REGISTER ext msg w = (w', Ret tt) /\
  registrations to (reg_manager w') =
    registrations to (reg_manager w) ++ [User_init to (via_branch via)] /\
  wire w' = wire w ++ [sent w (create_response msg 200)] /\
  _auth (session w') = _auth (session w).
Proof.
  intros Hh Hvia Hto Hu Hpw w'. split.
  - unfold handle_REGISTER.
    rewrite Hh, Hvia. py_steps. rewrite Hto. py_steps. rewrite Hu. py_steps.
    rewrite Hpw. destruct w as [[] ? ? ?]. reflexivity.
  - unfold w', registered. cbn [reg_manager wire session _auth set_bistream].
    rewrite register_lookup. cbn [user_id User_init].
    rewrite decide_True by reflexivity. auto.
Qed.

(** X15. A REGISTER that cannot be processed neither answers nor registers:
    without one of To, From, Call-ID, CSeq it is dropped; with them but
    without a Via header the handler raises [IndexError]; for a To user the
    configuration does not know it raises [AttributeError].  In all three
    cases the world is as it was. *)
Theorem register_that_cannot_be_processed
    (ext : Collaborators) (w : World) (msg : Message) :
  (headers_exist msg ["to"; "from"; "call-id"; "cseq"] = false ->
     handle_REGISTER ext msg w = (w, Ret tt)) /\
  (headers_exist msg ["to"; "from"; "call-id"; "cseq"] = true ->
   h_via msg = [] ->
     handle_REGISTER ext msg w = (w, Raise IndexError)) /\
  (forall via to,
     headers_exist msg ["to"; "from"; "call-id"; "cseq"] = true ->
     last (h_via msg) = Some via ->
     h_to msg = Some to ->
     get_user_by_username ext (personality (session w)) to = None ->
     handle_REGISTER ext msg w = (w, Raise AttributeError)).
Proof.
  unfold handle_REGISTER. repeat split.
  - intros ->. reflexivity.
  - intros -> ->. reflexivity.
  - intros via to -> Hvia Hto Hu. rewrite Hvia. py_steps.
    rewrite Hto. py_steps. rewrite Hu. reflexivity.
Qed.

Lemma authorized_register_session ext w w' msg via to u hv :
  personality (session w') = personality (session w) ->
  authorized_register ext w msg via to u hv ->
  authorized_register ext w' msg via to u hv.
Proof.
  intros Hp [Hh Hvia Hto Hu Hpw Hauth].
  constructor; auto. rewrite Hp. exact Hu.
Qed.

(** X16. A successful verification does not use up the challenge: after a
    REGISTER was verified against the stored challenge, the challenge is
    still stored, and the same REGISTER sent again is verified against it
    again, answered with another 200 and appended to the directory a second
    time. *)
Theorem verified_register_can_be_repeated
    (ext : Collaborators) (w : World) (msg : Message) (via : Via)
    (to : bytes) (u : SipUser) (hv : bytes) (a : Authentication) :
  authorized_register ext w msg via to u hv ->
  _auth (session w) = SlotAuth a ->
  auth_check ext a (username u) "test" "REGISTER" hv = true ->
  let w1 := registered to (via_branch via) msg w in
  let w2 := registered to (via_branch via) msg w1 in
  handle_REGISTER ext msg w = (w1, Ret tt) /\
  _auth (session w1) = SlotAuth a /\
  handle_REGISTER ext msg w1 = (w2, Ret tt) /\
  registrations to (reg_manager w2) =
    registrations to (reg_manager w)
      ++ [User_init to (via_branch via); User_init to (via_branch via)] /\
  replies_since (wire w) w2 = [Some (msg, 200); Some (msg, 200)].
Proof.
  intros Hreg Hslot Hok w1 w2.
  assert (Hslot1 : _auth (session w1) = SlotAuth a) by exact Hslot.
  assert (Hreg1 : authorized_register ext w1 msg via to u hv)
    by (apply (authorized_register_session ext w w1); [reflexivity|exact Hreg]).
  split.
  { rewrite (handle_REGISTER_authorized ext w msg via to u hv Hreg), Hslot, Hok.
    reflexivity. }
  split; [exact Hslot1|]. split.
  { rewrite (handle_REGISTER_authorized ext w1 msg via to u hv Hreg1), Hslot1, Hok.
    reflexivity. }
  split.
  - unfold w2, w1, registered. cbn [reg_manager].
    rewrite !register_lookup. cbn [user_id User_init].
    rewrite decide_True by reflexivity. rewrite <- app_assoc. reflexivity.
  - unfold replies_since, w2, w1, registered. cbn [wire].
    rewrite <- app_assoc, drop_app_length. reflexivity.
Qed.

(** ** Relations every handler keeps *)

Section Preserved.

Variable R : World -> World -> Prop.
Hypothesis R_refl : forall w, R w w.
Hypothesis R_trans : forall w1 w2 w3, R w1 w2 -> R w2 w3 -> R w1 w3.

Lemma preserves_pure {A} (r : Res A) : preserves R (fun w => (w, r)).
Proof. intros w. apply R_refl. Qed.

Lemma preserves_ret {A} (a : A) : preserves R (ret a).
Proof. intros w. apply R_refl. Qed.

Lemma preserves_raise {A} e : preserves R (@raise A e).
Proof. intros w. apply R_refl. Qed.

Lemma preserves_attr {A} (o : option A) : preserves R (attr o).
Proof. destruct o; [apply preserves_ret|apply preserves_raise]. Qed.

Lemma preserves_get_session : preserves R get_session.
Proof. intros w. apply R_refl. Qed.

Lemma preserves_get_call self : preserves R (get_call self).
Proof. intros w. unfold get_call. destruct (calls w !! self); apply R_refl. Qed.

Lemma preserves_randint a b rnd : preserves R (randint a b rnd).
Proof.
  unfold randint. destruct (0 <? b + 1 - a);
    [apply preserves_ret|apply preserves_raise].
Qed.

Lemma preserves_bind {A B} (m : M A) (k : A -> M B) :
  preserves R m -> (forall a, preserves R (k a)) -> preserves R (bind m k).
Proof.
  intros Hm Hk w. unfold bind. specialize (Hm w).
  destruct (m w) as [w1 [a|e]]; simpl in *; [|exact Hm].
  apply (R_trans _ w1); [exact Hm|apply Hk].
Qed.

Lemma preserves_try (m h : M unit) :
  preserves R m -> preserves R h ->
  preserves R (try_except_AuthenticationError m h).
Proof.
  intros Hm Hh w. unfold try_except_AuthenticationError. specialize (Hm w).
  destruct (m w) as [w1 [a|[]]]; simpl in *; try exact Hm.
  apply (R_trans _ w1); [exact Hm|apply Hh].
Qed.

End Preserved.

(** Breaks a handler into its steps; [prim] settles the steps that change
    the world. *)
Ltac preserve_steps Hrefl Htrans prim :=
  cbv zeta;
  repeat first
    [ prim
    | apply (preserves_ret _ Hrefl)
    | apply (preserves_raise _ Hrefl)
    | apply (preserves_attr _ Hrefl)
    | apply (preserves_get_session _ Hrefl)
    | apply (preserves_get_call _ Hrefl)
    | apply (preserves_randint _ Hrefl)
    | apply (preserves_pure _ Hrefl)
    | apply (preserves_bind _ Htrans); [|intros ?]
    | apply (preserves_try _ Htrans)
    | match goal with
      | |- preserves _ (match ?x with _ => _ end) => destruct x
      end ].

(** *** What is sent is logged *)

Lemma logs_refl w : logs_what_it_sends w w.
Proof.
  exists []. unfold sends. simpl. rewrite !app_nil_r. auto.
Qed.

Lemma logs_trans w1 w2 w3 :
  logs_what_it_sends w1 w2 -> logs_what_it_sends w2 w3 -> logs_what_it_sends w1 w3.
Proof.
  intros (o1 & Hk1 & Hb1 & Hw1) (o2 & Hk2 & Hb2 & Hw2).
  exists (o1 ++ o2). unfold sends. rewrite !map_app, !app_assoc.
  split; [congruence|]. split; [congruence|].
  rewrite Hw2, Hw1. unfold local, remote. rewrite Hk1. reflexivity.
Qed.

Lemma logs_send p : preserves logs_what_it_sends (SipSession_send p).
Proof.
  intros w. exists [p]. destruct w as [[] ? ? ?]. unfold sends. simpl. auto.
Qed.

Lemma logs_same w w' :
  session w' = session w -> wire w' = wire w -> logs_what_it_sends w w'.
Proof.
  intros Hs Hw. exists []. unfold sends. rewrite Hs, Hw. simpl.
  rewrite !app_nil_r. auto.
Qed.

Lemma logs_modify_call self f : preserves logs_what_it_sends (modify_call self f).
Proof. intros w. apply logs_same; reflexivity. Qed.

Lemma logs_new_call c : preserves logs_what_it_sends (new_call c).
Proof. intros w. apply logs_same; reflexivity. Qed.

Lemma logs_modify_reg_manager f :
  preserves logs_what_it_sends (modify_reg_manager f).
Proof. intros w. apply logs_same; reflexivity. Qed.

Lemma logs_modify_session f :
  (forall s, sessionkey (f s) = sessionkey s /\ bistream (f s) = bistream s) ->
  preserves logs_what_it_sends (modify_session f).
Proof.
  intros Hf w. exists []. unfold sends, modify_session. simpl.
  destruct (Hf (session w)) as [Hk Hb]. rewrite Hk, Hb, !app_nil_r. auto.
Qed.

Ltac logs_prim :=
  first
    [ apply logs_send
    | apply logs_modify_call
    | apply logs_new_call
    | apply logs_modify_reg_manager
    | apply logs_modify_session; intros []; split; reflexivity ].

Ltac logs_steps := preserve_steps logs_refl logs_trans logs_prim.

Lemma logs_handle_invite self rnd :
  preserves logs_what_it_sends (SipCall_handle_invite self rnd).
Proof. unfold SipCall_handle_invite, SipCall_send. logs_steps. Qed.

Lemma logs_fire self rnd :
  preserves logs_what_it_sends (fire_invite_handler self rnd).
Proof.
  unfold fire_invite_handler. logs_steps; try apply logs_handle_invite.
Qed.

Lemma logs_close self : preserves logs_what_it_sends (SipCall_close self).
Proof. unfold SipCall_close. logs_steps. Qed.

Lemma logs_handle_REGISTER ext msg :
  preserves logs_what_it_sends (handle_REGISTER ext msg).
Proof. unfold handle_REGISTER, challenge, check. logs_steps. Qed.

Lemma logs_handle_INVITE ext msg :
  preserves logs_what_it_sends (handle_INVITE ext msg).
Proof.
  unfold handle_INVITE, SipCall_init, SipCall_handle_INVITE. logs_steps; try apply logs_close.
Qed.

Lemma logs_handle_ACK msg : preserves logs_what_it_sends (handle_ACK msg).
Proof. unfold handle_ACK, SipCall_handle_ACK. logs_steps; try apply logs_close. Qed.

Lemma logs_handle_BYE msg : preserves logs_what_it_sends (handle_BYE msg).
Proof.
  unfold handle_BYE, SipCall_handle_BYE, SipCall_send. logs_steps; try apply logs_close.
Qed.

Lemma logs_handle_CANCEL msg : preserves logs_what_it_sends (handle_CANCEL msg).
Proof.
  unfold handle_CANCEL, SipCall_handle_CANCEL, SipCall_send. logs_steps.
Qed.

Lemma logs_handle_OPTIONS msg : preserves logs_what_it_sends (handle_OPTIONS msg).
Proof. unfold handle_OPTIONS. logs_steps. Qed.

Lemma logs_handle_unknown msg : preserves logs_what_it_sends (handle_unknown msg).
Proof. unfold handle_unknown. logs_steps. Qed.

Lemma getattr_handle_cases ext name f :
  getattr_handle ext name = Some f ->
  f = handle_ACK \/ f = handle_BYE \/ f = handle_CANCEL \/
  f = handle_INVITE ext \/ f = handle_OPTIONS \/ f = handle_REGISTER ext.
Proof.
  unfold getattr_handle.
  repeat match goal with
  | |- context [String.eqb name ?s] => destruct (String.eqb name s)
  end; intros H; inversion H; auto 10.
Qed.

Lemma logs_handle_io_in ext data w :
  logs_what_it_sends (after_receive data w) (fst (handle_io_in ext data w)).
Proof.
  unfold handle_io_in, bind at 1, modify_session. fold (after_receive data w).
  revert w. intros w0. generalize (after_receive data w0). clear w0.
  change (preserves logs_what_it_sends
            (msg <- (fun w => (w, rfc3261_Message ext data)) ;;
             match
               match method msg with
               | Some m =>
                   match decode_upper ext m with
                   | Some name => getattr_handle ext name
                   | None => None
                   end
               | None => None
               end
             with
             | Some f => f msg
             | None => handle_unknown msg
             end ;;
             ret (Z.of_nat (String.length data)))).
  apply (preserves_bind _ logs_trans); [apply (preserves_pure _ logs_refl)|].
  intros msg.
  apply (preserves_bind _ logs_trans); [|intros; apply (preserves_ret _ logs_refl)].
  destruct (method msg) as [m|]; [|apply logs_handle_unknown].
  destruct (decode_upper ext m) as [name|]; [|apply logs_handle_unknown].
  destruct (getattr_handle ext name) as [f|] eqn:Hf; [|apply logs_handle_unknown].
  apply getattr_handle_cases in Hf.
  destruct Hf as [->|[->|[->|[->|[->| ->]]]]];
    auto using logs_handle_ACK, logs_handle_BYE, logs_handle_CANCEL,
      logs_handle_INVITE, logs_handle_OPTIONS, logs_handle_REGISTER.
Qed.

Lemma inbound_app b1 b2 : inbound (b1 ++ b2) = inbound b1 ++ inbound b2.
Proof. apply omap_app. Qed.

Lemma outbound_app b1 b2 : outbound (b1 ++ b2) = outbound b1 ++ outbound b2.
Proof. apply omap_app. Qed.

Lemma inbound_out outs : inbound (map (pair dir_out) outs) = [].
Proof. induction outs; simpl; auto. Qed.

Lemma outbound_out outs : outbound (map (pair dir_out) outs) = outs.
Proof. induction outs as [|p outs IH]; simpl; [reflexivity|]. f_equal. exact IH. Qed.

(** The session has logged the conversation [ins], [outs] and every
    datagram on the wire goes from its local to its remote address. *)
Lemma step_trace ext w ev :
  exists outs,
    sessionkey (session (step ext w ev)) = sessionkey (session w) /\
    inbound (bistream (session (step ext w ev))) =
      inbound (bistream (session w)) ++ map Raw (datagrams_of [ev]) /\
    outbound (bistream (session (step ext w ev))) =
      outbound (bistream (session w)) ++ outs /\
    wire (step ext w ev) =
      wire w ++ map (fun p => (local (session w), remote (session w), p)) outs.
Proof.
  destruct ev as [data|self rnd]; simpl step.
  - destruct (logs_handle_io_in ext data w) as (outs & Hk & Hb & Hw).
    exists outs. rewrite Hk, Hb, Hw.
    unfold after_receive. cbn [session wire set_bistream bistream sessionkey].
    rewrite !inbound_app, !outbound_app, inbound_out, outbound_out.
    unfold local, remote. cbn [sessionkey set_bistream].
    simpl. rewrite !app_nil_r. auto.
  - destruct (logs_fire self rnd w) as (outs & Hk & Hb & Hw).
    exists outs. rewrite Hk, Hb, Hw.
    rewrite !inbound_app, !outbound_app, inbound_out, outbound_out.
    simpl. rewrite !app_nil_r. auto.
Qed.

Lemma run_trace ext evs w :
  sessionkey (session (run ext evs w)) = sessionkey (session w) /\
  inbound (bistream (session (run ext evs w))) =
    inbound (bistream (session w)) ++ map Raw (datagrams_of evs) /\
  exists outs,
    outbound (bistream (session (run ext evs w))) =
      outbound (bistream (session w)) ++ outs /\
    wire (run ext evs w) =
      wire w ++ map (fun p => (local (session w), remote (session w), p)) outs.
Proof.
  revert w. induction evs as [|ev evs IH]; intros w.
  - simpl. rewrite app_nil_r. split; [reflexivity|]. split; [reflexivity|].
    exists []. simpl. rewrite !app_nil_r. auto.
  - change (run ext (ev :: evs) w) with (run ext evs (step ext w ev)).
    destruct (IH (step ext w ev)) as (Hk & Hin & outs2 & Hout & Hw).
    destruct (step_trace ext w ev) as (outs1 & Hk1 & Hin1 & Hout1 & Hw1).
    split; [congruence|]. split.
    + rewrite Hin, Hin1, <- app_assoc. f_equal.
      change (ev :: evs) with ([ev] ++ evs).
      unfold datagrams_of. rewrite omap_app, map_app. reflexivity.
    + exists (outs1 ++ outs2). rewrite Hout, Hout1, Hw, Hw1.
      rewrite <- !app_assoc, map_app. unfold local, remote. rewrite Hk1.
      auto.
Qed.

(** X17. The record of a session replays its conversation: after any
    sequence of datagrams and timer expiries from a new session, the
    inbound entries of [bistream] are the datagrams received, in order, the
    outbound entries are the payloads given to the server's [send], in
    order, and each of those was addressed from the session's local to its
    remote address. *)
Theorem bistream_replays_the_conversation
    (ext : Collaborators) (key : SessionKey) (evs : list Event) :
  let w := run ext evs (World_init ext key) in
  inbound (bistream (session w)) = map Raw (datagrams_of evs) /\
  outbound (bistream (session w)) = map snd (wire w) /\
  Forall (fun d => fst d = key) (wire w).
Proof.
  intros w. unfold w.
  destruct (run_trace ext evs (World_init ext key)) as (_ & Hin & outs & Hout & Hw).
  split; [exact Hin|]. rewrite Hout, Hw. simpl. split.
  - rewrite map_map. simpl. rewrite map_id. reflexivity.
  - apply Forall_forall. intros d Hd. apply list_elem_of_In in Hd.
    apply in_map_iff in Hd as (p & <- & _). destruct key as [l r]. reflexivity.
Qed.

(** *** The session and its calls stay consistent *)

Lemma call_frame_refl self w : call_frame self w w.
Proof.
  split; [reflexivity|]. split; [reflexivity|].
  destruct (calls w !! self) as [c|]; eauto.
Qed.

Lemma call_frame_trans self w1 w2 w3 :
  call_frame self w1 w2 -> call_frame self w2 w3 -> call_frame self w1 w3.
Proof.
  intros (Hm1 & Ho1 & Hs1) (Hm2 & Ho2 & Hs2).
  split; [congruence|]. split.
  - intros other Hne. rewrite Ho2, Ho1 by exact Hne. reflexivity.
  - destruct (calls w1 !! self) as [c|].
    + destruct Hs1 as (c' & Hc' & Hid & Hcl). rewrite Hc' in Hs2.
      destruct Hs2 as (c'' & Hc'' & Hid' & Hcl').
      exists c''. split; [exact Hc''|]. split; congruence.
    + rewrite Hs1 in Hs2. exact Hs2.
Qed.

Lemma call_frame_same self w w' :
  calls w' = calls w -> _callids (session w') = _callids (session w) ->
  call_frame self w w'.
Proof.
  intros Hc Hm. split; [exact Hm|]. rewrite Hc. split; [reflexivity|].
  destruct (calls w !! self) as [c|]; eauto.
Qed.

Lemma call_frame_send self p : preserves (call_frame self) (SipSession_send p).
Proof. intros w. destruct w as [[] ? ? ?]. apply call_frame_same; reflexivity. Qed.

Lemma call_frame_modify self f :
  (forall c, call_call_id (f c) = call_call_id c /\
             call_closed (f c) = call_closed c) ->
  preserves (call_frame self) (modify_call self f).
Proof.
  intros Hf w. unfold modify_call, call_frame. cbn [fst session calls].
  split; [reflexivity|]. split.
  - intros other Hne. apply lookup_alter_ne. congruence.
  - rewrite lookup_alter_eq. destruct (calls w !! self) as [c|]; simpl; [|reflexivity].
    exists (f c). split; [reflexivity|]. apply Hf.
Qed.

Ltac frame_prim :=
  first
    [ apply call_frame_send
    | apply call_frame_modify; intros []; split; reflexivity ].

Ltac frame_steps self :=
  preserve_steps (call_frame_refl self) (call_frame_trans self) frame_prim.

Lemma call_frame_handle_invite self rnd :
  preserves (call_frame self) (SipCall_handle_invite self rnd).
Proof. unfold SipCall_handle_invite, SipCall_send. frame_steps self. Qed.

Lemma call_frame_handle_CANCEL self msg :
  preserves (call_frame self) (SipCall_handle_CANCEL self msg).
Proof. unfold SipCall_handle_CANCEL, SipCall_send. frame_steps self. Qed.

Lemma same_calls_refl w : same_calls w w.
Proof. split; reflexivity. Qed.

Lemma same_calls_trans w1 w2 w3 :
  same_calls w1 w2 -> same_calls w2 w3 -> same_calls w1 w3.
Proof. intros [? ?] [? ?]. split; congruence. Qed.

Lemma same_calls_send p : preserves same_calls (SipSession_send p).
Proof. intros w. destruct w as [[] ? ? ?]. split; reflexivity. Qed.

Lemma same_calls_modify_reg_manager f : preserves same_calls (modify_reg_manager f).
Proof. intros w. split; reflexivity. Qed.

Lemma same_calls_set_auth a : preserves same_calls (modify_session (set_auth a)).
Proof. intros w. destruct w as [[] ? ? ?]. split; reflexivity. Qed.

Ltac same_prim :=
  first
    [ apply same_calls_send
    | apply same_calls_modify_reg_manager
    | apply same_calls_set_auth ].

Ltac same_steps := preserve_steps same_calls_refl same_calls_trans same_prim.

Lemma same_calls_handle_REGISTER ext msg :
  preserves same_calls (handle_REGISTER ext msg).
Proof. unfold handle_REGISTER, challenge, check. same_steps. Qed.

Lemma same_calls_handle_OPTIONS msg : preserves same_calls (handle_OPTIONS msg).
Proof. unfold handle_OPTIONS. same_steps. Qed.

Lemma same_calls_handle_unknown msg : preserves same_calls (handle_unknown msg).
Proof. unfold handle_unknown. same_steps. Qed.

Lemma consistent_same_calls w w' : same_calls w w' -> consistent w -> consistent w'.
Proof.
  intros [Hc Hm] (H1 & H2 & H3). unfold consistent. rewrite Hc, Hm. auto.
Qed.

Lemma consistent_call_frame self w w' c :
  calls w !! self = Some c ->
  call_closed c = false ->
  call_frame self w w' -> consistent w -> consistent w'.
Proof.
  intros Hobj Hopen (Hm & Ho & Hs) (H1 & H2 & H3).
  rewrite Hobj in Hs. destruct Hs as (c' & Hobj' & Hid & Hcl).
  unfold consistent. rewrite Hm. repeat split.
  - intros cid a Hcid. destruct (H1 cid a Hcid) as (ca & Ha & Hida & Hcla).
    destruct (decide (a = self)) as [->|Hne].
    + exists c'. rewrite Hobj in Ha. injection Ha as <-.
      split; [exact Hobj'|]. split; congruence.
    + exists ca. rewrite Ho by exact Hne. auto.
  - intros a ca Ha Hcla. destruct (decide (a = self)) as [->|Hne].
    + rewrite Hobj' in Ha. injection Ha as <-. rewrite Hid.
      apply (H2 self c Hobj Hopen).
    + rewrite Ho in Ha by exact Hne. apply (H2 a ca Ha Hcla).
  - destruct (decide (self0 = self)) as [->|Hne].
    + rewrite Hobj' in H. injection H as <-. congruence.
    + rewrite Ho in H by exact Hne. apply (H3 self0 c0 H H0).
  - destruct (decide (self0 = self)) as [->|Hne].
    + rewrite Hobj' in H. injection H as <-. congruence.
    + rewrite Ho in H by exact Hne. apply (H3 self0 c0 H H0).
Qed.

Lemma consistent_after_send r w : consistent w -> consistent (after_send r w).
Proof. apply consistent_same_calls. destruct w as [[] ? ? ?]. split; reflexivity. Qed.

Lemma consistent_after_receive data w : consistent w -> consistent (after_receive data w).
Proof. apply consistent_same_calls. destruct w as [[] ? ? ?]. split; reflexivity. Qed.

Lemma consistent_closed_world self c cid w :
  _callids (session w) !! cid = Some self ->
  calls w !! self = Some c ->
  consistent w -> consistent (closed_world self c w).
Proof.
  intros Hmap Hobj (H1 & H2 & H3).
  destruct (H1 cid self Hmap) as (c0 & Hc0 & Hid & Hopen).
  rewrite Hobj in Hc0. injection Hc0 as <-.
  unfold consistent, closed_world. cbn [session calls _callids set_callids].
  rewrite Hid. repeat split.
  - intros cid' a Hcid'.
    destruct (decide (cid' = cid)) as [->|Hne];
      [rewrite lookup_delete_eq in Hcid'; discriminate|].
    rewrite lookup_delete_ne in Hcid' by congruence.
    destruct (H1 cid' a Hcid') as (ca & Ha & Hida & Hcla).
    exists ca. rewrite lookup_insert_ne; [auto|].
    intros <-. rewrite Hobj in Ha. injection Ha as <-. congruence.
  - intros a ca Ha Hcla. destruct (decide (a = self)) as [->|Hne].
    + rewrite lookup_insert_eq in Ha. injection Ha as <-. discriminate.
    + rewrite lookup_insert_ne in Ha by congruence.
      rewrite lookup_delete_ne; [apply (H2 a ca Ha Hcla)|].
      intros Heq. pose proof (H2 a ca Ha Hcla) as Hin.
      rewrite <- Heq in Hin.
      assert (Hsame : Some a = Some self) by (rewrite <- Hin; exact Hmap).
      congruence.
  - destruct (decide (self0 = self)) as [->|Hne].
    + rewrite lookup_insert_eq in H. injection H as <-. reflexivity.
    + rewrite lookup_insert_ne in H by congruence. apply (H3 self0 c0 H H0).
  - destruct (decide (self0 = self)) as [->|Hne].
    + rewrite lookup_insert_eq in H. injection H as <-. reflexivity.
    + rewrite lookup_insert_ne in H by congruence. apply (H3 self0 c0 H H0).
Qed.

Lemma consistent_new_call w cid c :
  _callids (session w) !! cid = None ->
  call_call_id c = cid ->
  call_closed c = false ->
  consistent w ->
  consistent
    {| session := set_callids (<[cid := fresh (dom (calls w))]> (_callids (session w)))
                    (session w);
       calls := <[fresh (dom (calls w)) := c]> (calls w);
       reg_manager := reg_manager w;
       wire := wire w |}.
Proof.
  intros Hnew Hid Hopen (H1 & H2 & H3).
  assert (Hfresh : calls w !! fresh (dom (calls w)) = None)
    by (apply not_elem_of_dom, is_fresh).
  unfold consistent. cbn [session calls _callids set_callids]. repeat split.
  - intros cid' a Hcid'. destruct (decide (cid' = cid)) as [->|Hne].
    + rewrite lookup_insert_eq in Hcid'. injection Hcid' as <-.
      exists c. rewrite lookup_insert_eq. auto.
    + rewrite lookup_insert_ne in Hcid' by congruence.
      destruct (H1 cid' a Hcid') as (ca & Ha & Hida & Hcla).
      exists ca. rewrite lookup_insert_ne; [auto|]. intros <-. congruence.
  - intros a ca Ha Hcla.
    destruct (decide (a = fresh (dom (calls w)))) as [->|Hne].
    + rewrite lookup_insert_eq in Ha. injection Ha as Hca.
      rewrite <- Hca, Hid. apply lookup_insert_eq.
    + rewrite lookup_insert_ne in Ha by congruence.
      pose proof (H2 a ca Ha Hcla) as Hin.
      rewrite lookup_insert_ne; [exact Hin|]. intros Heq.
      rewrite <- Heq in Hin.
      assert (Hsame : @None nat = Some a) by (rewrite <- Hin; symmetry; exact Hnew).
      discriminate.
  - destruct (decide (self = fresh (dom (calls w)))) as [->|Hne].
    + rewrite lookup_insert_eq in H. injection H as <-. congruence.
    + rewrite lookup_insert_ne in H by congruence. apply (H3 self c0 H H0).
  - destruct (decide (self = fresh (dom (calls w)))) as [->|Hne].
    + rewrite lookup_insert_eq in H. injection H as <-. congruence.
    + rewrite lookup_insert_ne in H by congruence. apply (H3 self c0 H H0).
Qed.

Lemma consistent_fire self rnd w :
  consistent w -> consistent (fst (fire_invite_handler self rnd w)).
Proof.
  intros Hw. destruct (calls w !! self) as [c|] eqn:Hobj.
  2:{ unfold fire_invite_handler, bind, get_call. rewrite Hobj. exact Hw. }
  destruct (active (invite_handler c)) eqn:Hact.
  2:{ rewrite (fire_inactive self rnd w c Hobj Hact). exact Hw. }
  assert (Hopen : call_closed c = false).
  { destruct (call_closed c) eqn:Hcl; [|reflexivity].
    destruct Hw as (_ & _ & H3). destruct (H3 self c Hobj Hcl). congruence. }
  rewrite (fire_active self rnd w c Hobj Hact).
  assert (Hw1 : consistent (update_call self (on_timer Timer_stop c) w)).
  { apply (consistent_call_frame self w _ c Hobj Hopen); [|exact Hw].
    unfold call_frame, update_call. cbn [session calls].
    split; [reflexivity|]. split.
    - intros other Hne. apply lookup_insert_ne. congruence.
    - rewrite Hobj, lookup_insert_eq. eexists. split; [reflexivity|]. auto. }
  apply (consistent_call_frame self (update_call self (on_timer Timer_stop c) w)
           _ (on_timer Timer_stop c));
    [apply lookup_insert_eq | exact Hopen | apply call_frame_handle_invite
    | exact Hw1].
Qed.

Lemma consistent_handle_CANCEL msg w :
  consistent w -> consistent (fst (handle_CANCEL msg w)).
Proof.
  intros Hw. unfold handle_CANCEL, bind, attr, get_session, ret.
  destruct (h_call_id msg) as [cid|]; [|exact Hw]. simpl.
  destruct (h_cseq msg) as [cseq|]; [|exact Hw]. simpl.
  destruct (_callids (session w) !! cid) as [self|] eqn:Hmap; [|exact Hw].
  destruct (proj1 Hw cid self Hmap) as (c & Hobj & _ & Hopen).
  apply (consistent_call_frame self w _ c Hobj Hopen); [|exact Hw].
  apply (preserves_try _ (call_frame_trans self));
    [apply call_frame_handle_CANCEL | apply (preserves_ret _ (call_frame_refl self))].
Qed.

Lemma consistent_handle_ACK msg w :
  consistent w -> consistent (fst (handle_ACK msg w)).
Proof.
  intros Hw. unfold handle_ACK, bind at 1, attr.
  destruct (h_call_id msg) as [cid|]; [|exact Hw]. unfold ret at 1.
  unfold bind at 1, get_session.
  destruct (_callids (session w) !! cid) as [self|] eqn:Hmap; [|exact Hw].
  destruct (proj1 Hw cid self Hmap) as (c & Hobj & _ & _).
  unfold try_except_AuthenticationError, SipCall_handle_ACK, bind at 1.
  unfold bind at 1, get_call. rewrite Hobj.
  destruct (negb _); [exact Hw|].
  unfold bind at 1, attr. destruct (h_cseq (call_msg c)); [|exact Hw].
  unfold ret at 1. unfold bind at 1. destruct (h_cseq msg); [|exact Hw].
  unfold ret at 1. destruct (negb _); [exact Hw|].
  unfold bind. rewrite (SipCall_close_spec w self c Hobj). simpl.
  apply (consistent_closed_world self c cid w Hmap Hobj Hw).
Qed.

Lemma consistent_handle_BYE msg w :
  consistent w -> consistent (fst (handle_BYE msg w)).
Proof.
  intros Hw. unfold handle_BYE, bind at 1, attr.
  destruct (h_call_id msg) as [cid|]; [|exact Hw]. unfold ret at 1.
  unfold bind at 1, get_session.
  destruct (_callids (session w) !! cid) as [self|] eqn:Hmap; [|exact Hw].
  destruct (proj1 Hw cid self Hmap) as (c & Hobj & _ & _).
  unfold try_except_AuthenticationError, SipCall_handle_BYE, bind at 1, get_call.
  rewrite Hobj. destruct (negb _); [exact Hw|].
  unfold SipCall_send, bind. rewrite SipSession_send_spec.
  rewrite (SipCall_close_spec _ self c) by exact Hobj. simpl.
  apply (consistent_closed_world self c cid); [exact Hmap | exact Hobj |].
  apply consistent_after_send. exact Hw.
Qed.

Lemma consistent_handle_INVITE ext msg w :
  consistent w -> consistent (fst (handle_INVITE ext msg w)).
Proof.
  intros Hw.
  destruct (invite_content_cases msg)
    as [Hbad|(ct & medias & audio & Hct & Heq & Hsdp & Hfind)].
  { rewrite (handle_INVITE_dropped ext w msg Hbad). exact Hw. }
  destruct (h_call_id msg) as [cid|] eqn:Hcid.
  2:{ rewrite (handle_INVITE_with_audio ext w msg ct medias audio Hct Heq Hsdp Hfind).
      unfold bind, attr. rewrite Hcid. exact Hw. }
  destruct (_callids (session w) !! cid) as [self|] eqn:Hmap.
  { rewrite (handle_INVITE_known_call_id ext w msg cid Hcid) by eauto. exact Hw. }
  destruct (h_to msg) as [to|] eqn:Hto.
  2:{ rewrite (handle_INVITE_with_audio ext w msg ct medias audio Hct Heq Hsdp Hfind).
      unfold bind at 1, attr. rewrite Hcid. unfold ret at 1.
      unfold bind at 1, get_session. rewrite Hmap.
      unfold bind at 1, SipCall_init, bind, attr, get_session.
      rewrite Hcid, Hto. exact Hw. }
  rewrite (handle_INVITE_new_call ext w msg ct medias audio cid to
             Hct Heq Hsdp Hfind Hcid Hmap Hto).
  apply consistent_new_call; auto.
Qed.

Lemma fst_then_ret {A B} (m : M A) (b : B) w :
  fst ((m ;; ret b) w) = fst (m w).
Proof. unfold bind, ret. destruct (m w) as [w' [a|e]]; reflexivity. Qed.

Lemma consistent_handle_io_in ext data w :
  consistent w -> consistent (fst (handle_io_in ext data w)).
Proof.
  intros Hw. apply (consistent_after_receive data) in Hw.
  unfold handle_io_in, bind at 1, modify_session. fold (after_receive data w).
  revert Hw. generalize (after_receive data w). clear w. intros w Hw.
  unfold bind at 1. destruct (rfc3261_Message ext data) as [msg|e]; [|exact Hw].
  rewrite fst_then_ret.
  assert (Hunknown : consistent (fst (handle_unknown msg w)))
    by (apply (consistent_same_calls w); [apply same_calls_handle_unknown|exact Hw]).
  destruct (method msg) as [m|]; [|exact Hunknown].
  destruct (decode_upper ext m) as [name|]; [|exact Hunknown].
  destruct (getattr_handle ext name) as [f|] eqn:Hf; [|exact Hunknown].
  apply getattr_handle_cases in Hf.
  destruct Hf as [->|[->|[->|[->|[->| ->]]]]].
  - apply consistent_handle_ACK. exact Hw.
  - apply consistent_handle_BYE. exact Hw.
  - apply consistent_handle_CANCEL. exact Hw.
  - apply consistent_handle_INVITE. exact Hw.
  - apply (consistent_same_calls w); [apply same_calls_handle_OPTIONS|exact Hw].
  - apply (consistent_same_calls w); [apply same_calls_handle_REGISTER|exact Hw].
Qed.

Lemma consistent_step ext w ev : consistent w -> consistent (step ext w ev).
Proof.
  destruct ev as [data|self rnd]; simpl.
  - apply consistent_handle_io_in.
  - apply consistent_fire.
Qed.

Lemma consistent_run ext evs w : consistent w -> consistent (run ext evs w).
Proof.
  revert w. induction evs as [|ev evs IH]; intros w Hw; [exact Hw|].
  apply (IH (step ext w ev)). apply consistent_step. exact Hw.
Qed.

(** X18. Whatever datagrams arrive and whatever timers expire, in any
    order, a session and its call objects fit together: every Call-ID in
    [_callids] leads to an open call object that carries this Call-ID (so
    two Call-IDs never share a call), every open call object is in
    [_callids] under its own Call-ID, and a closed call object has no
    running timer and no RTP stream. *)
Theorem session_and_calls_stay_consistent
    (ext : Collaborators) (key : SessionKey) (evs : list Event) :
  consistent (run ext evs (World_init ext key)) /\
  forall cid1 cid2 self,
    _callids (session (run ext evs (World_init ext key))) !! cid1 = Some self ->
    _callids (session (run ext evs (World_init ext key))) !! cid2 = Some self ->
    cid1 = cid2.
Proof.
  assert (Hw : consistent (run ext evs (World_init ext key))).
  { apply consistent_run.
    unfold consistent, World_init, SipSession_init. cbn [session calls _callids].
    split; [|split]; intros ? ? Hl; rewrite lookup_empty in Hl; discriminate. }
  split; [exact Hw|].
  intros cid1 cid2 self H1 H2.
  destruct (proj1 Hw cid1 self H1) as (c1 & Hc1 & Hid1 & _).
  destruct (proj1 Hw cid2 self H2) as (c2 & Hc2 & Hid2 & _).
  congruence.
Qed.

(** * The RTP stream dump *)

Lemma rtp_receive_not_recording record_rtp buf l :
  rtp_receive record_rtp l (not_recording buf) =
  (not_recording buf, returned_lengths l).
Proof.
  induction l as [|[fs data] l IH]; [reflexivity|].
  simpl. unfold RtpUdpStream_handle_io_in.
  destruct record_rtp; simpl; rewrite IH; reflexivity.
Qed.

Lemma rtp_receive_recording file buf l chunks :
  rtp_receive true l (recording file buf chunks) =
  (recording file buf (chunks ++ map snd l), returned_lengths l).
Proof.
  revert chunks. induction l as [|[fs data] l IH]; intros chunks.
  - simpl. rewrite app_nil_r. reflexivity.
  - simpl. unfold recording in IH. rewrite IH. simpl.
    rewrite <- app_assoc. reflexivity.
Qed.

Lemma startRecording_ready fs file r :
  directory_ready fs (rsplit_dir file) ->
  startRecording fs file r =
  if open_wb fs file
  then (recording (streamDumpFileIn r) (sendBuffer r) [], RtpRet tt)
  else (not_recording (sendBuffer r), RtpRet tt).
Proof.
  intros [Hmk|Hmk]; unfold startRecording; rewrite Hmk; reflexivity.
Qed.

(** X19. When the dump file cannot be opened, recording is given up for
    good: the datagram at hand is still answered with its length, the file
    name is forgotten, and no later datagram makes the stream touch the
    file system again, whatever the file system would answer; each is
    answered with its length and nothing is written. *)
Theorem failed_open_disables_recording
    (fs : FileSystem) (file : string) (r : RtpDump) (data : bytes)
    (l : list (FileSystem * bytes)) :
  streamDumpIn r = None ->
  streamDumpFileIn r = Some file ->
  file <> "" ->
  directory_ready fs (rsplit_dir file) ->
  open_wb fs file = false ->
  rtp_receive true ((fs, data) :: l) r =
    (not_recording (sendBuffer r), returned_lengths ((fs, data) :: l)).
Proof.
  intros Hin Hfile Hne Hdir Hopen.
  assert (Hfirst : RtpUdpStream_handle_io_in true fs data r =
                   (not_recording (sendBuffer r),
                    RtpRet (Z.of_nat (String.length data)))).
  { unfold RtpUdpStream_handle_io_in. rewrite Hin, Hfile.
    assert (Ht : truthy (Some file) = true).
    { simpl. destruct (String.eqb_spec file ""); [contradiction|reflexivity]. }
    rewrite Ht, (startRecording_ready fs file r Hdir), Hopen. reflexivity. }
  cbn [rtp_receive]. rewrite Hfirst, rtp_receive_not_recording. reflexivity.
Qed.

(** X20. Once the dump file is open, it receives every datagram: when the
    directory is there or can be made and the file can be opened at the
    first datagram, then after any further datagrams the file holds the
    payloads of all of them, the first included, in the order of arrival,
    each was answered with its length, and the file system was not asked
    again. *)
Theorem dump_file_holds_the_stream
    (fs : FileSystem) (file : string) (r : RtpDump) (data : bytes)
    (l : list (FileSystem * bytes)) :
  streamDumpIn r = None ->
  streamDumpFileIn r = Some file ->
  file <> "" ->
  directory_ready fs (rsplit_dir file) ->
  open_wb fs file = true ->
  rtp_receive true ((fs, data) :: l) r =
    (recording (Some file) (sendBuffer r) (data :: map snd l),
     returned_lengths ((fs, data) :: l)).
Proof.
  intros Hin Hfile Hne Hdir Hopen.
  assert (Hfirst : RtpUdpStream_handle_io_in true fs data r =
                   (recording (Some file) (sendBuffer r) [data],
                    RtpRet (Z.of_nat (String.length data)))).
  { unfold RtpUdpStream_handle_io_in. rewrite Hin, Hfile.
    assert (Ht : truthy (Some file) = true).
    { simpl. destruct (String.eqb_spec file ""); [contradiction|reflexivity]. }
    rewrite Ht, (startRecording_ready fs file r Hdir), Hopen, Hfile. reflexivity. }
  cbn [rtp_receive]. rewrite Hfirst, rtp_receive_recording. reflexivity.
Qed.

(** X21. When [os.mkdir] fails with an errno other than EEXIST, the
    datagram is not answered with its length: [handle_io_in] raises that
    [OSError] and the stream is as it was, so the next datagram tries
    again; the payload of the failed one is in no file. *)
Theorem mkdir_error_leaves_handle_io_in
    (fs fs' : FileSystem) (file : string) (r : RtpDump) (data data' : bytes)
    (errno : Z) :
  streamDumpIn r = None ->
  streamDumpFileIn r = Some file ->
  file <> "" ->
  mkdir fs (rsplit_dir file) = Some errno ->
  errno <> EEXIST ->
  RtpUdpStream_handle_io_in true fs data r = (r, RtpRaise (OSError errno)) /\
  (directory_ready fs' (rsplit_dir file) ->
   open_wb fs' file = true ->
   rtp_receive true [(fs, data); (fs', data')] r =
     (recording (Some file) (sendBuffer r) [data'],
      [RtpRaise (OSError errno); RtpRet (Z.of_nat (String.length data'))])).
Proof.
  intros Hin Hfile Hne Hmk Herr.
  assert (Ht : truthy (Some file) = true).
  { simpl. destruct (String.eqb_spec file ""); [contradiction|reflexivity]. }
  assert (Hfirst : RtpUdpStream_handle_io_in true fs data r =
                   (r, RtpRaise (OSError errno))).
  { unfold RtpUdpStream_handle_io_in. rewrite Hin, Hfile, Ht.
    unfold startRecording. rewrite Hmk.
    apply Z.eqb_neq in Herr. rewrite Herr. reflexivity. }
  split; [exact Hfirst|].
  intros Hdir Hopen. cbn [rtp_receive]. rewrite Hfirst.
  unfold RtpUdpStream_handle_io_in. rewrite Hin, Hfile, Ht.
  rewrite (startRecording_ready fs' file r Hdir), Hopen, Hfile. reflexivity.
Qed.

Lemma append_assoc (a b c : string) : (a +:+ b) +:+ c = a +:+ (b +:+ c).
Proof.
  induction a as [|x a IH]; [reflexivity|].
  change (String x ((a +:+ b) +:+ c) = String x (a +:+ (b +:+ c))).
  f_equal. exact IH.
Qed.

Lemma has_slash_append a b : has_slash (a +:+ b) = has_slash a || has_slash b.
Proof.
  induction a as [|x a IH]; [reflexivity|].
  change (Ascii.eqb x "/" || has_slash (a +:+ b)
          = Ascii.eqb x "/" || has_slash a || has_slash b).
  rewrite IH, orb_assoc. reflexivity.
Qed.

Lemma rsplit_head_no_slash s : has_slash s = false -> rsplit_head s = None.
Proof.
  induction s as [|c s IH]; simpl; [reflexivity|].
  intros H. apply orb_false_iff in H as [Hc Hs]. rewrite (IH Hs), Hc. reflexivity.
Qed.

Lemma rsplit_head_append dir name :
  has_slash name = false ->
  rsplit_head (dir +:+ String "/" name) = Some dir.
Proof.
  intros Hname. induction dir as [|c dir IH].
  - change (match rsplit_head name with
            | Some p => Some (String "/" p)
            | None => if Ascii.eqb "/" "/" then Some EmptyString else None
            end = Some EmptyString).
    rewrite (rsplit_head_no_slash name Hname). reflexivity.
  - change (match rsplit_head (dir +:+ String "/" name) with
            | Some p => Some (String c p)
            | None => if Ascii.eqb c "/" then Some EmptyString else None
            end = Some (String c dir)).
    rewrite IH. reflexivity.
Qed.

Lemma has_slash_uint d : has_slash (NilEmpty.string_of_uint d) = false.
Proof. induction d; simpl; auto. Qed.

Lemma has_slash_str_int n : has_slash (str_int n) = false.
Proof.
  unfold str_int, NilZero.string_of_int, NilZero.string_of_uint.
  destruct (Z.to_int n) as [d|d]; destruct d; simpl; auto using has_slash_uint.
Qed.

(** X22. The directory [__startRecording] asks [os.mkdir] for is the
    directory of the day, [var/dionaea/rtp/<date>], whatever the remote
    port, provided neither the time stamp nor the remote host contains a
    ['/']. *)
Theorem dump_directory_is_the_date_directory
    (dumpDate dumpTime host : string) (p : Z) :
  has_slash dumpTime = false ->
  has_slash host = false ->
  rsplit_dir (dump_file_name dumpDate dumpTime host p) =
    "var/dionaea/rtp/" +:+ dumpDate.
Proof.
  intros Htime Hhost. unfold rsplit_dir, dump_file_name.
  rewrite !append_assoc.
  change ("/" +:+ ?x) with (String "/" x).
  rewrite <- append_assoc.
  rewrite rsplit_head_append; [reflexivity|].
  rewrite !has_slash_append, Htime, Hhost, has_slash_str_int. reflexivity.
Qed.

(** * What a session may touch *)

Lemma own_refl w : own_calls_only w w.
Proof. repeat split; auto. Qed.

Lemma own_trans w1 w2 w3 :
  own_calls_only w1 w2 -> own_calls_only w2 w3 -> own_calls_only w1 w3.
Proof.
  intros (Ha & Hb & Hc) (Ha' & Hb' & Hc'). repeat split.
  - intros a c Hobj Hout. apply Ha'; [apply Ha; assumption|].
    intros cid Hmap. destruct (Hc cid a Hmap) as [Hold|[Hnone _]].
    + apply (Hout cid Hold).
    + congruence.
  - intros a Hin. apply Hb', Hb, Hin.
  - intros cid a Hmap. destruct (Hc' cid a Hmap) as [Hold|[Hnone Hin]].
    + destruct (Hc cid a Hold) as [Hold1|[Hnone1 Hin1]]; [auto|].
      right. split; [exact Hnone1|apply Hb', Hin1].
    + right. split; [|exact Hin].
      destruct (calls w1 !! a) eqn:H1; [|reflexivity].
      assert (is_Some (calls w2 !! a)) as [c2 H2] by (apply Hb; eauto).
      congruence.
Qed.

Lemma own_same_calls w w' : same_calls w w' -> own_calls_only w w'.
Proof.
  intros [Hc Hm]. unfold own_calls_only. rewrite Hc, Hm. apply own_refl.
Qed.

Lemma own_call_frame self cid w w' :
  _callids (session w) !! cid = Some self ->
  call_frame self w w' -> own_calls_only w w'.
Proof.
  intros Hmap (Hm & Ho & Hs). unfold own_calls_only. rewrite Hm. repeat split.
  - intros a c Hobj Hout. rewrite Ho; [exact Hobj|].
    intros ->. apply (Hout cid Hmap).
  - intros a Hin. destruct (decide (a = self)) as [->|Hne].
    + destruct Hin as [c Hc]. rewrite Hc in Hs.
      destruct Hs as (c' & Hc' & _). eauto.
    + rewrite Ho by exact Hne. exact Hin.
  - auto.
Qed.

Lemma own_closed_world self c cid w :
  _callids (session w) !! cid = Some self ->
  calls w !! self = Some c ->
  own_calls_only w (closed_world self c w).
Proof.
  intros Hmap Hobj. unfold own_calls_only, closed_world.
  cbn [session calls _callids set_callids]. repeat split.
  - intros a ca Ha Hout. rewrite lookup_insert_ne; [exact Ha|].
    intros <-. apply (Hout cid Hmap).
  - intros a Hin. destruct (decide (a = self)) as [->|Hne].
    + rewrite lookup_insert_eq. eauto.
    + rewrite lookup_insert_ne by congruence. exact Hin.
  - intros cid' a Hmap'. left.
    destruct (decide (cid' = call_call_id c)) as [->|Hne].
    + rewrite lookup_delete_eq in Hmap'. discriminate.
    + rewrite lookup_delete_ne in Hmap' by congruence. exact Hmap'.
Qed.

Lemma own_new_call w cid c :
  own_calls_only w
    {| session := set_callids (<[cid := fresh (dom (calls w))]> (_callids (session w)))
                    (session w);
       calls := <[fresh (dom (calls w)) := c]> (calls w);
       reg_manager := reg_manager w;
       wire := wire w |}.
Proof.
  assert (Hfresh : calls w !! fresh (dom (calls w)) = None)
    by (apply not_elem_of_dom, is_fresh).
  unfold own_calls_only. cbn [session calls _callids set_callids]. repeat split.
  - intros a ca Ha _. rewrite lookup_insert_ne; [exact Ha|]. intros <-. congruence.
  - intros a Hin. destruct (decide (a = fresh (dom (calls w)))) as [->|Hne].
    + rewrite lookup_insert_eq. eauto.
    + rewrite lookup_insert_ne by congruence. exact Hin.
  - intros cid' a Hmap'. destruct (decide (cid' = cid)) as [->|Hne].
    + rewrite lookup_insert_eq in Hmap'. injection Hmap' as <-.
      right. rewrite lookup_insert_eq. eauto.
    + rewrite lookup_insert_ne in Hmap' by congruence. auto.
Qed.

Lemma own_handle_CANCEL msg w : own_calls_only w (fst (handle_CANCEL msg w)).
Proof.
  unfold handle_CANCEL, bind, attr, get_session, ret.
  destruct (h_call_id msg) as [cid|]; [|apply own_refl]. simpl.
  destruct (h_cseq msg) as [cseq|]; [|apply own_refl]. simpl.
  destruct (_callids (session w) !! cid) as [self|] eqn:Hmap; [|apply own_refl].
  apply (own_call_frame self cid w _ Hmap).
  apply (preserves_try _ (call_frame_trans self));
    [apply call_frame_handle_CANCEL | apply (preserves_ret _ (call_frame_refl self))].
Qed.

Lemma own_handle_ACK msg w : own_calls_only w (fst (handle_ACK msg w)).
Proof.
  unfold handle_ACK, bind at 1, attr.
  destruct (h_call_id msg) as [cid|]; [|apply own_refl]. unfold ret at 1.
  unfold bind at 1, get_session.
  destruct (_callids (session w) !! cid) as [self|] eqn:Hmap; [|apply own_refl].
  unfold try_except_AuthenticationError, SipCall_handle_ACK, bind at 1.
  unfold bind at 1, get_call.
  destruct (calls w !! self) as [c|] eqn:Hobj; [|apply own_refl].
  destruct (negb _); [apply own_refl|].
  unfold bind at 1, attr. destruct (h_cseq (call_msg c)); [|apply own_refl].
  unfold ret at 1. unfold bind at 1. destruct (h_cseq msg); [|apply own_refl].
  unfold ret at 1. destruct (negb _); [apply own_refl|].
  unfold bind. rewrite (SipCall_close_spec w self c Hobj). simpl.
  apply (own_closed_world self c cid w Hmap Hobj).
Qed.

Lemma own_after_send r w : own_calls_only w (after_send r w).
Proof. apply own_same_calls. destruct w as [[] ? ? ?]. split; reflexivity. Qed.

Lemma own_after_receive data w : own_calls_only w (after_receive data w).
Proof. apply own_same_calls. destruct w as [[] ? ? ?]. split; reflexivity. Qed.

Lemma own_handle_BYE msg w : own_calls_only w (fst (handle_BYE msg w)).
Proof.
  unfold handle_BYE, bind at 1, attr.
  destruct (h_call_id msg) as [cid|]; [|apply own_refl]. unfold ret at 1.
  unfold bind at 1, get_session.
  destruct (_callids (session w) !! cid) as [self|] eqn:Hmap; [|apply own_refl].
  unfold try_except_AuthenticationError, SipCall_handle_BYE, bind at 1, get_call.
  destruct (calls w !! self) as [c|] eqn:Hobj; [|apply own_refl].
  destruct (negb _); [apply own_refl|].
  unfold SipCall_send, bind. rewrite SipSession_send_spec.
  rewrite (SipCall_close_spec _ self c) by exact Hobj. simpl.
  apply (own_trans w (after_send (create_response msg 200) w));
    [apply own_after_send|].
  apply (own_closed_world self c cid); [exact Hmap | exact Hobj].
Qed.

Lemma own_handle_INVITE ext msg w : own_calls_only w (fst (handle_INVITE ext msg w)).
Proof.
  destruct (invite_content_cases msg)
    as [Hbad|(ct & medias & audio & Hct & Heq & Hsdp & Hfind)].
  { rewrite (handle_INVITE_dropped ext w msg Hbad). apply own_refl. }
  destruct (h_call_id msg) as [cid|] eqn:Hcid.
  2:{ rewrite (handle_INVITE_with_audio ext w msg ct medias audio Hct Heq Hsdp Hfind).
      unfold bind, attr. rewrite Hcid. apply own_refl. }
  destruct (_callids (session w) !! cid) as [self|] eqn:Hmap.
  { rewrite (handle_INVITE_known_call_id ext w msg cid Hcid) by eauto.
    apply own_refl. }
  destruct (h_to msg) as [to|] eqn:Hto.
  2:{ rewrite (handle_INVITE_with_audio ext w msg ct medias audio Hct Heq Hsdp Hfind).
      unfold bind at 1, attr. rewrite Hcid. unfold ret at 1.
      unfold bind at 1, get_session. rewrite Hmap.
      unfold bind at 1, SipCall_init, bind, attr, get_session.
      rewrite Hcid, Hto. apply own_refl. }
  rewrite (handle_INVITE_new_call ext w msg ct medias audio cid to
             Hct Heq Hsdp Hfind Hcid Hmap Hto).
  apply own_new_call.
Qed.

Lemma own_handle_io_in ext data w :
  own_calls_only w (fst (handle_io_in ext data w)).
Proof.
  apply (own_trans w (after_receive data w)); [apply own_after_receive|].
  unfold handle_io_in, bind at 1, modify_session. fold (after_receive data w).
  generalize (after_receive data w). clear w. intros w.
  unfold bind at 1. destruct (rfc3261_Message ext data) as [msg|e]; [|apply own_refl].
  rewrite fst_then_ret.
  assert (Hunknown : own_calls_only w (fst (handle_unknown msg w)))
    by (apply own_same_calls, same_calls_handle_unknown).
  destruct (method msg) as [m|]; [|exact Hunknown].
  destruct (decode_upper ext m) as [name|]; [|exact Hunknown].
  destruct (getattr_handle ext name) as [f|] eqn:Hf; [|exact Hunknown].
  apply getattr_handle_cases in Hf.
  destruct Hf as [->|[->|[->|[->|[->| ->]]]]].
  - apply own_handle_ACK.
  - apply own_handle_BYE.
  - apply own_handle_CANCEL.
  - apply own_handle_INVITE.
  - apply own_same_calls, same_calls_handle_OPTIONS.
  - apply own_same_calls, same_calls_handle_REGISTER.
Qed.

Lemma own_fire self cid rnd w :
  _callids (session w) !! cid = Some self ->
  own_calls_only w (fst (fire_invite_handler self rnd w)).
Proof.
  intros Hmap. destruct (calls w !! self) as [c|] eqn:Hobj.
  2:{ unfold fire_invite_handler, bind, get_call. rewrite Hobj. apply own_refl. }
  destruct (active (invite_handler c)) eqn:Hact.
  2:{ rewrite (fire_inactive self rnd w c Hobj Hact). apply own_refl. }
  rewrite (fire_active self rnd w c Hobj Hact).
  apply (own_call_frame self cid w _ Hmap).
  apply (call_frame_trans self w (update_call self (on_timer Timer_stop c) w));
    [|apply call_frame_handle_invite].
  unfold call_frame, update_call. cbn [session calls].
  split; [reflexivity|]. split.
  - intros other Hne. apply lookup_insert_ne. congruence.
  - rewrite Hobj, lookup_insert_eq. eexists. split; [reflexivity|]. auto.
Qed.

(** * The server and its sessions *)

Lemma sessionkey_handle_io_in ext data w :
  sessionkey (session (fst (handle_io_in ext data w))) = sessionkey (session w).
Proof.
  destruct (logs_handle_io_in ext data w) as (outs & Hk & _). rewrite Hk.
  reflexivity.
Qed.

Lemma inbound_handle_io_in ext data w :
  inbound (bistream (session (fst (handle_io_in ext data w)))) =
  inbound (bistream (session w)) ++ [Raw data].
Proof.
  destruct (step_trace ext w (Datagram data)) as (outs & _ & Hin & _).
  exact Hin.
Qed.

Lemma sessionkey_fire self rnd w :
  sessionkey (session (fst (fire_invite_handler self rnd w))) = sessionkey (session w).
Proof. destruct (logs_fire self rnd w) as (outs & Hk & _). exact Hk. Qed.

Lemma inbound_fire self rnd w :
  inbound (bistream (session (fst (fire_invite_handler self rnd w)))) =
  inbound (bistream (session w)).
Proof.
  destruct (logs_fire self rnd w) as (outs & _ & Hb & _). rewrite Hb.
  rewrite inbound_app, inbound_out, app_nil_r. reflexivity.
Qed.

Lemma holds_spec se self :
  holds se self = true -> exists cid, _callids se !! cid = Some self.
Proof.
  unfold holds. intros H. apply bool_decide_eq_true in H.
  apply list_elem_of_fmap in H as ([cid a] & -> & Hin).
  exists cid. apply elem_of_map_to_list in Hin. exact Hin.
Qed.

(** X23. A datagram reaches the session of its 4-tuple and no other: the
    server makes that session if it is not there, as a new session with no
    call and no challenge, and hands it the datagram; the sessions of all
    other 4-tuples are as they were, and so is every call object the
    session does not hold.  The server returns the length of the datagram
    when the session's handler returns, and raises what it raises. *)
Theorem datagram_reaches_only_its_session
    (ext : Collaborators) (key : SessionKey) (data : bytes) (p : Process) :
  let se := session_for ext key p in
  let w' := fst (handle_io_in ext data (session_world se p)) in
  let p' := fst (SipServer_handle_io_in ext key data p) in
  (_sessions p !! key = None -> se = SipSession_init ext key) /\
  _sessions p' !! key = Some (session w') /\
  (forall other, other <> key -> _sessions p' !! other = _sessions p !! other) /\
  (forall a c, objects p !! a = Some c ->
     (forall cid, _callids se !! cid <> Some a) -> objects p' !! a = Some c) /\
  snd (SipServer_handle_io_in ext key data p) =
    match snd (handle_io_in ext data (session_world se p)) with
    | Ret _ => Ret (Z.of_nat (String.length data))
    | Raise e => Raise e
    end.
Proof.
  intros se w' p'. unfold p', w', SipServer_handle_io_in. fold se.
  pose proof (own_handle_io_in ext data (session_world se p)) as (Hown & _).
  destruct (handle_io_in ext data (session_world se p)) as [w1 r].
  cbn [fst snd store _sessions objects] in *.
  split; [intros Hnone; unfold se, session_for; rewrite Hnone; reflexivity|].
  split; [apply lookup_insert_eq|].
  split; [intros other Hne; apply lookup_insert_ne; congruence|].
  split; [exact Hown|reflexivity].
Qed.

Lemma separate_store key se w' p :
  separate p ->
  (forall cid a, _callids se !! cid = Some a -> _sessions p !! key = Some se) ->
  sessionkey se = key ->
  own_calls_only (session_world se p) w' ->
  sessionkey (session w') = sessionkey se ->
  separate (store key w' p).
Proof.
  intros (HA & HB & HC) Hstored Hkey (Hout & Hkeep & Hnew) Hkey'.
  cbn [session_world session calls] in Hout, Hkeep, Hnew.
  assert (Hheld : forall cid a, _callids (session w') !! cid = Some a ->
            (_sessions p !! key = Some se /\ _callids se !! cid = Some a) \/
            (objects p !! a = None /\ is_Some (calls w' !! a))).
  { intros cid a Hmap. destruct (Hnew cid a Hmap) as [Hold|Hfresh]; [|auto].
    left. split; [apply (Hstored cid a Hold)|exact Hold]. }
  unfold separate, store. cbn [_sessions objects]. repeat split.
  - intros k s Hs. destruct (decide (k = key)) as [->|Hne].
    + rewrite lookup_insert_eq in Hs. injection Hs as <-. congruence.
    + rewrite lookup_insert_ne in Hs by congruence. apply (HA k s Hs).
  - intros k s cid a Hs Hmap. destruct (decide (k = key)) as [->|Hne].
    + rewrite lookup_insert_eq in Hs. injection Hs as <-.
      destruct (Hheld cid a Hmap) as [[Hs Hold]|[_ Hin]]; [|exact Hin].
      apply Hkeep, (HB key se cid a Hs Hold).
    + rewrite lookup_insert_ne in Hs by congruence.
      apply Hkeep, (HB k s cid a Hs Hmap).
  - intros k1 k2 s1 s2 cid1 cid2 a Hs1 Hs2 Hm1 Hm2.
    destruct (decide (k1 = key)) as [->|Hne1];
      destruct (decide (k2 = key)) as [->|Hne2]; [reflexivity| | |].
    + rewrite lookup_insert_eq in Hs1. injection Hs1 as <-.
      rewrite lookup_insert_ne in Hs2 by congruence.
      destruct (Hheld cid1 a Hm1) as [[Hs Hold]|[Hnone _]].
      * apply (HC key k2 se s2 cid1 cid2 a Hs Hs2 Hold Hm2).
      * destruct (HB k2 s2 cid2 a Hs2 Hm2) as [c Hc]. congruence.
    + rewrite lookup_insert_eq in Hs2. injection Hs2 as <-.
      rewrite lookup_insert_ne in Hs1 by congruence.
      destruct (Hheld cid2 a Hm2) as [[Hs Hold]|[Hnone _]].
      * apply (HC k1 key s1 se cid1 cid2 a Hs1 Hs Hm1 Hold).
      * destruct (HB k1 s1 cid1 a Hs1 Hm1) as [c Hc]. congruence.
    + rewrite lookup_insert_ne in Hs1 by congruence.
      rewrite lookup_insert_ne in Hs2 by congruence.
      apply (HC k1 k2 s1 s2 cid1 cid2 a Hs1 Hs2 Hm1 Hm2).
Qed.

Lemma close_calls_keeps callids : forall w a c,
  calls w !! a = Some c ->
  exists c', calls (fst (close_calls callids w)) !! a = Some c' /\
             call_call_id c' = call_call_id c.
Proof.
  induction callids as [|cid rest IH]; intros w a c Hobj.
  - exists c. split; [exact Hobj | reflexivity].
  - cbn [close_calls]. unfold bind at 1, get_session.
    destruct (_callids (session w) !! cid) as [self|]; [|exists c; auto].
    unfold bind. destruct (calls w !! self) as [cs|] eqn:Hs.
    + rewrite (SipCall_close_spec w self cs Hs).
      destruct (decide (a = self)) as [->|Hne].
      * assert (c = cs) by congruence. subst cs.
        apply (IH (closed_world self c w) self (closed_call c)).
        apply lookup_insert_eq.
      * apply IH. unfold closed_world. cbn [calls].
        rewrite lookup_insert_ne by congruence. exact Hobj.
    + unfold SipCall_close, bind, get_call. rewrite Hs. exists c. auto.
Qed.

Lemma sessions_close se p :
  _sessions (fst (SipSession_close se p)) = delete (sessionkey se) (_sessions p).
Proof.
  unfold SipSession_close. destruct (close_calls _ _) as [w r]. reflexivity.
Qed.

Lemma objects_close se p :
  objects (fst (SipSession_close se p)) =
  calls (fst (close_calls (map_to_list (_callids se)).*1 (session_world se p))).
Proof.
  unfold SipSession_close. destruct (close_calls _ _) as [w r]. reflexivity.
Qed.

Lemma separate_close se key p :
  separate p -> _sessions p !! key = Some se ->
  separate (fst (SipSession_close se p)).
Proof.
  intros (HA & HB & HC) Hs. unfold separate.
  rewrite sessions_close, objects_close, (HA key se Hs).
  split; [|split].
  - intros k s Hk. apply lookup_delete_Some in Hk as [_ Hk]. apply (HA k s Hk).
  - intros k s cid a Hk Hmap. apply lookup_delete_Some in Hk as [_ Hk].
    destruct (HB k s cid a Hk Hmap) as [c Hc].
    destruct (close_calls_keeps (map_to_list (_callids se)).*1
                (session_world se p) a c Hc) as (c' & Hc' & _).
    eauto.
  - intros k1 k2 s1 s2 cid1 cid2 a Hk1 Hk2.
    apply lookup_delete_Some in Hk1 as [_ Hk1].
    apply lookup_delete_Some in Hk2 as [_ Hk2].
    apply (HC k1 k2 s1 s2 cid1 cid2 a Hk1 Hk2).
Qed.

Lemma separate_step ext p ev : separate p -> separate (process_step ext p ev).
Proof.
  intros Hp. destruct ev as [key data|key self rnd|key]; simpl.
  - unfold SipServer_handle_io_in.
    pose proof (own_handle_io_in ext data (session_world (session_for ext key p) p))
      as Hown.
    pose proof (sessionkey_handle_io_in ext data
                  (session_world (session_for ext key p) p)) as Hkey.
    destruct (handle_io_in ext data (session_world (session_for ext key p) p))
      as [w' r]. cbn [fst] in *.
    apply (separate_store key (session_for ext key p)); auto.
    + unfold session_for. destruct (_sessions p !! key) as [se|] eqn:Hs; [auto|].
      intros cid a Hmap. cbn in Hmap. rewrite lookup_empty in Hmap. discriminate.
    + unfold session_for. destruct (_sessions p !! key) as [se|] eqn:Hs.
      * apply (proj1 Hp key se Hs).
      * reflexivity.
  - destruct (_sessions p !! key) as [se|] eqn:Hs; [|exact Hp].
    destruct (holds se self) eqn:Hholds; [|exact Hp].
    destruct (holds_spec se self Hholds) as [cid Hmap].
    apply (separate_store key se); auto.
    + apply (proj1 Hp key se Hs).
    + apply (own_fire self cid rnd (session_world se p)). exact Hmap.
    + apply (sessionkey_fire self rnd (session_world se p)).
  - destruct (_sessions p !! key) as [se|] eqn:Hs; [|exact Hp].
    apply (separate_close se key p Hp Hs).
Qed.

Lemma separate_init : separate Process_init.
Proof.
  unfold separate, Process_init. cbn [_sessions objects].
  split; [|split].
  - intros key se Hs. rewrite lookup_empty in Hs. discriminate.
  - intros key se cid a Hs. rewrite lookup_empty in Hs. discriminate.
  - intros k1 k2 se1 se2 cid1 cid2 a Hs. rewrite lookup_empty in Hs.
    discriminate.
Qed.

Lemma separate_run ext evs : forall p,
  separate p -> separate (process_run ext evs p).
Proof.
  unfold process_run.
  induction evs as [|ev evs IH]; intros p Hp; [exact Hp|].
  apply (IH (process_step ext p ev)). apply separate_step. exact Hp.
Qed.

(** X24. Sessions never share a call: whatever datagrams arrive from
    whatever peers, whatever call timers expire and whatever sessions their
    sustain timer closes, every session is stored under its own 4-tuple,
    every call object a session holds exists, and no call object is held by
    the sessions of two different 4-tuples. *)
Theorem sessions_never_share_calls
    (ext : Collaborators) (evs : list ProcessEvent) :
  separate (process_run ext evs Process_init).
Proof.
  unfold process_run.
  assert (Hinit : separate Process_init).
  { unfold separate, Process_init. cbn [_sessions objects].
    split; [|split].
    - intros key se Hs. rewrite lookup_empty in Hs. discriminate.
    - intros key se cid a Hs. rewrite lookup_empty in Hs. discriminate.
    - intros k1 k2 se1 se2 cid1 cid2 a Hs. rewrite lookup_empty in Hs.
      discriminate. }
  revert Hinit. generalize Process_init.
  induction evs as [|ev evs IH]; intros p Hp; [exact Hp|].
  apply (IH (process_step ext p ev)). apply separate_step. exact Hp.
Qed.

Lemma process_run_snoc ext evs ev p :
  process_run ext (evs ++ [ev]) p = process_step ext (process_run ext evs p) ev.
Proof. unfold process_run. rewrite foldl_app. reflexivity. Qed.

Lemma received_since_snoc key evs ev :
  received_since key (evs ++ [ev]) =
  match ev with
  | Receive k d =>
      if decide (k = key) then received_since key evs ++ [d]
      else received_since key evs
  | TimerOf _ _ _ => received_since key evs
  | SustainTimeout k => if decide (k = key) then [] else received_since key evs
  end.
Proof. unfold received_since. rewrite foldl_app. reflexivity. Qed.

(** X25. Each session has recorded the datagrams of its own peer since it
    was made: after any datagrams, call-timer expiries and sustain
    timeouts, a 4-tuple has a session exactly when a datagram came from it
    since the sustain timer of its session last expired (or ever, if it
    never did), and the inbound entries of that session's [bistream] are
    exactly these datagrams, in order; what other peers sent, and what
    the peer sent to an earlier session that was closed, is not among
    them. *)
Theorem each_session_records_its_own_peer
    (ext : Collaborators) (evs : list ProcessEvent) (key : SessionKey) :
  match _sessions (process_run ext evs Process_init) !! key with
  | Some se =>
      received_since key evs <> [] /\
      inbound (bistream se) = map Raw (received_since key evs)
  | None => received_since key evs = []
  end.
Proof.
  induction evs as [|ev evs IH] using rev_ind.
  - cbn. rewrite lookup_empty. reflexivity.
  - rewrite process_run_snoc, received_since_snoc.
    pose proof (separate_run ext evs Process_init separate_init) as Hsep.
    set (p := process_run ext evs Process_init) in *.
    destruct ev as [k data|k self rnd|k]; simpl process_step.
    + unfold SipServer_handle_io_in.
      pose proof (inbound_handle_io_in ext data
                    (session_world (session_for ext k p) p)) as Hin.
      destruct (handle_io_in ext data (session_world (session_for ext k p) p))
        as [w' r]. cbn [fst store _sessions session_world session] in *.
      destruct (decide (k = key)) as [->|Hne].
      * rewrite lookup_insert_eq. split.
        { intros Hnil. apply app_eq_nil in Hnil as [_ Hnil]. discriminate. }
        rewrite Hin, map_app. f_equal. unfold session_for.
        destruct (_sessions p !! key) as [se|]; [apply IH|].
        rewrite IH. reflexivity.
      * rewrite lookup_insert_ne by congruence. exact IH.
    + destruct (_sessions p !! k) as [se|] eqn:Hs; [|exact IH].
      destruct (holds se self); [|exact IH].
      cbn [store _sessions].
      destruct (decide (k = key)) as [->|Hne].
      * rewrite lookup_insert_eq. rewrite Hs in IH.
        rewrite (inbound_fire self rnd (session_world se p)). exact IH.
      * rewrite lookup_insert_ne by congruence. exact IH.
    + destruct (_sessions p !! k) as [se|] eqn:Hs.
      * rewrite sessions_close, (proj1 Hsep k se Hs).
        destruct (decide (k = key)) as [->|Hne].
        { rewrite lookup_delete_eq. reflexivity. }
        rewrite lookup_delete_ne by congruence. exact IH.
      * destruct (decide (k = key)) as [->|Hne]; [|exact IH].
        rewrite Hs. reflexivity.
Qed.

(** * Closing a session *)

(** What the handlers do to a relation that the steps on call objects
    keep. *)
Section Related.
Context (ext : Collaborators).
Variable R : World -> World -> Prop.
Hypothesis R_refl : forall w, R w w.
Hypothesis R_trans : forall w1 w2 w3, R w1 w2 -> R w2 w3 -> R w1 w3.
Hypothesis R_same : forall w w', same_calls w w' -> R w w'.
Hypothesis R_frame : forall self cid w w',
  _callids (session w) !! cid = Some self -> call_frame self w w' -> R w w'.
Hypothesis R_closed : forall self c cid w,
  _callids (session w) !! cid = Some self ->
  calls w !! self = Some c ->
  R w (closed_world self c w).
Hypothesis R_new : forall w cid c,
  _callids (session w) !! cid = None ->
  call_call_id c = cid ->
  R w {| session := set_callids (<[cid := fresh (dom (calls w))]> (_callids (session w)))
                      (session w);
         calls := <[fresh (dom (calls w)) := c]> (calls w);
         reg_manager := reg_manager w;
         wire := wire w |}.

Lemma related_after_send r w : R w (after_send r w).
Proof. apply R_same. destruct w as [[] ? ? ?]. split; reflexivity. Qed.

Lemma related_after_receive data w : R w (after_receive data w).
Proof. apply R_same. destruct w as [[] ? ? ?]. split; reflexivity. Qed.

Lemma related_handle_CANCEL msg w : R w (fst (handle_CANCEL msg w)).
Proof.
  unfold handle_CANCEL, bind, attr, get_session, ret.
  destruct (h_call_id msg) as [cid|]; [|apply R_refl]. simpl.
  destruct (h_cseq msg) as [cseq|]; [|apply R_refl]. simpl.
  destruct (_callids (session w) !! cid) as [self|] eqn:Hmap; [|apply R_refl].
  apply (R_frame self cid w _ Hmap).
  apply (preserves_try _ (call_frame_trans self));
    [apply call_frame_handle_CANCEL | apply (preserves_ret _ (call_frame_refl self))].
Qed.

Lemma related_handle_ACK msg w : R w (fst (handle_ACK msg w)).
Proof.
  unfold handle_ACK, bind at 1, attr.
  destruct (h_call_id msg) as [cid|]; [|apply R_refl]. unfold ret at 1.
  unfold bind at 1, get_session.
  destruct (_callids (session w) !! cid) as [self|] eqn:Hmap; [|apply R_refl].
  unfold try_except_AuthenticationError, SipCall_handle_ACK, bind at 1.
  unfold bind at 1, get_call.
  destruct (calls w !! self) as [c|] eqn:Hobj; [|apply R_refl].
  destruct (negb _); [apply R_refl|].
  unfold bind at 1, attr. destruct (h_cseq (call_msg c)); [|apply R_refl].
  unfold ret at 1. unfold bind at 1. destruct (h_cseq msg); [|apply R_refl].
  unfold ret at 1. destruct (negb _); [apply R_refl|].
  unfold bind. rewrite (SipCall_close_spec w self c Hobj). simpl.
  apply (R_closed self c cid w Hmap Hobj).
Qed.

Lemma related_handle_BYE msg w : R w (fst (handle_BYE msg w)).
Proof.
  unfold handle_BYE, bind at 1, attr.
  destruct (h_call_id msg) as [cid|]; [|apply R_refl]. unfold ret at 1.
  unfold bind at 1, get_session.
  destruct (_callids (session w) !! cid) as [self|] eqn:Hmap; [|apply R_refl].
  unfold try_except_AuthenticationError, SipCall_handle_BYE, bind at 1, get_call.
  destruct (calls w !! self) as [c|] eqn:Hobj; [|apply R_refl].
  destruct (negb _); [apply R_refl|].
  unfold SipCall_send, bind. rewrite SipSession_send_spec.
  rewrite (SipCall_close_spec _ self c) by exact Hobj. simpl.
  apply (R_trans w (after_send (create_response msg 200) w));
    [apply related_after_send|].
  apply (R_closed self c cid); [exact Hmap | exact Hobj].
Qed.

Lemma related_handle_INVITE msg w : R w (fst (handle_INVITE ext msg w)).
Proof.
  destruct (invite_content_cases msg)
    as [Hbad|(ct & medias & audio & Hct & Heq & Hsdp & Hfind)].
  { rewrite (handle_INVITE_dropped ext w msg Hbad). apply R_refl. }
  destruct (h_call_id msg) as [cid|] eqn:Hcid.
  2:{ rewrite (handle_INVITE_with_audio ext w msg ct medias audio Hct Heq Hsdp Hfind).
      unfold bind, attr. rewrite Hcid. apply R_refl. }
  destruct (_callids (session w) !! cid) as [self|] eqn:Hmap.
  { rewrite (handle_INVITE_known_call_id ext w msg cid Hcid) by eauto.
    apply R_refl. }
  destruct (h_to msg) as [to|] eqn:Hto.
  2:{ rewrite (handle_INVITE_with_audio ext w msg ct medias audio Hct Heq Hsdp Hfind).
      unfold bind at 1, attr. rewrite Hcid. unfold ret at 1.
      unfold bind at 1, get_session. rewrite Hmap.
      unfold bind at 1, SipCall_init, bind, attr, get_session.
      rewrite Hcid, Hto. apply R_refl. }
  rewrite (handle_INVITE_new_call ext w msg ct medias audio cid to
             Hct Heq Hsdp Hfind Hcid Hmap Hto).
  apply R_new; [exact Hmap | reflexivity].
Qed.

Lemma related_handle_io_in data w : R w (fst (handle_io_in ext data w)).
Proof.
  apply (R_trans w (after_receive data w)); [apply related_after_receive|].
  unfold handle_io_in, bind at 1, modify_session. fold (after_receive data w).
  generalize (after_receive data w). clear w. intros w.
  unfold bind at 1. destruct (rfc3261_Message ext data) as [msg|e]; [|apply R_refl].
  rewrite fst_then_ret.
  assert (Hunknown : R w (fst (handle_unknown msg w)))
    by (apply R_same, same_calls_handle_unknown).
  destruct (method msg) as [m|]; [|exact Hunknown].
  destruct (decode_upper ext m) as [name|]; [|exact Hunknown].
  destruct (getattr_handle ext name) as [f|] eqn:Hf; [|exact Hunknown].
  apply getattr_handle_cases in Hf.
  destruct Hf as [->|[->|[->|[->|[->| ->]]]]].
  - apply related_handle_ACK.
  - apply related_handle_BYE.
  - apply related_handle_CANCEL.
  - apply related_handle_INVITE.
  - apply R_same, same_calls_handle_OPTIONS.
  - apply R_same, same_calls_handle_REGISTER.
Qed.

Lemma related_fire self cid rnd w :
  _callids (session w) !! cid = Some self ->
  R w (fst (fire_invite_handler self rnd w)).
Proof.
  intros Hmap. destruct (calls w !! self) as [c|] eqn:Hobj.
  2:{ unfold fire_invite_handler, bind, get_call. rewrite Hobj. apply R_refl. }
  destruct (active (invite_handler c)) eqn:Hact.
  2:{ rewrite (fire_inactive self rnd w c Hobj Hact). apply R_refl. }
  rewrite (fire_active self rnd w c Hobj Hact).
  apply (R_frame self cid w _ Hmap).
  apply (call_frame_trans self w (update_call self (on_timer Timer_stop c) w));
    [|apply call_frame_handle_invite].
  unfold call_frame, update_call. cbn [session calls].
  split; [reflexivity|]. split.
  - intros other Hne. apply lookup_insert_ne. congruence.
  - rewrite Hobj, lookup_insert_eq. eexists. split; [reflexivity|]. auto.
Qed.

End Related.

Lemma linked_same w w' : same_calls w w' -> keeps_linked w w'.
Proof.
  intros [Hc Hm] Hw cid a Hmap. rewrite Hm in Hmap. rewrite Hc.
  apply (Hw cid a Hmap).
Qed.

Lemma linked_frame self cid w w' :
  _callids (session w) !! cid = Some self -> call_frame self w w' ->
  keeps_linked w w'.
Proof.
  intros _ (Hm & Ho & Hs) Hw cid' a Hmap. rewrite Hm in Hmap.
  destruct (Hw cid' a Hmap) as (c & Hc & Hid).
  destruct (decide (a = self)) as [->|Hne].
  - rewrite Hc in Hs. destruct Hs as (c' & Hc' & Hid' & _).
    exists c'. split; [exact Hc'|congruence].
  - rewrite (Ho a Hne). eauto.
Qed.

Lemma linked_closed self c cid w :
  _callids (session w) !! cid = Some self ->
  calls w !! self = Some c ->
  keeps_linked w (closed_world self c w).
Proof.
  intros _ Hobj Hw cid' a Hmap. unfold closed_world in *.
  cbn [session calls _callids set_callids] in *.
  apply lookup_delete_Some in Hmap as [Hne Hmap].
  destruct (Hw cid' a Hmap) as (c' & Hc' & Hid).
  assert (a <> self) by (intros ->; congruence).
  rewrite lookup_insert_ne by congruence. eauto.
Qed.

Lemma linked_new w cid c :
  _callids (session w) !! cid = None ->
  call_call_id c = cid ->
  keeps_linked w
    {| session := set_callids (<[cid := fresh (dom (calls w))]> (_callids (session w)))
                    (session w);
       calls := <[fresh (dom (calls w)) := c]> (calls w);
       reg_manager := reg_manager w;
       wire := wire w |}.
Proof.
  assert (Hfresh : calls w !! fresh (dom (calls w)) = None)
    by (apply not_elem_of_dom, is_fresh).
  intros _ Hid Hw cid' a Hmap. cbn [session calls _callids set_callids] in *.
  destruct (decide (cid' = cid)) as [->|Hne].
  - rewrite lookup_insert_eq in Hmap. injection Hmap as <-.
    rewrite lookup_insert_eq. eauto.
  - rewrite lookup_insert_ne in Hmap by congruence.
    destruct (Hw cid' a Hmap) as (c' & Hc' & Hid').
    rewrite lookup_insert_ne by congruence. eauto.
Qed.

Lemma linked_handle_io_in ext data w :
  linked w -> linked (fst (handle_io_in ext data w)).
Proof.
  apply (related_handle_io_in ext keeps_linked).
  - intros w0 H. exact H.
  - intros w1 w2 w3 H1 H2 H. exact (H2 (H1 H)).
  - apply linked_same.
  - apply linked_frame.
  - apply linked_closed.
  - apply linked_new.
Qed.

Lemma linked_fire self cid rnd w :
  _callids (session w) !! cid = Some self ->
  linked w -> linked (fst (fire_invite_handler self rnd w)).
Proof.
  apply (related_fire keeps_linked).
  - intros w0 H. exact H.
  - apply linked_frame.
Qed.

Lemma linked_store key se w' p :
  separate p -> linked_process p ->
  (forall cid a, _callids se !! cid = Some a -> _sessions p !! key = Some se) ->
  own_calls_only (session_world se p) w' ->
  keeps_linked (session_world se p) w' ->
  linked_process (store key w' p).
Proof.
  intros (HA & HB & HC) Hlink Hstored (Hout & _ & _) Hkeep k s Hs.
  unfold store in *. cbn [_sessions session_world session calls objects] in *.
  destruct (decide (k = key)) as [->|Hne].
  - rewrite lookup_insert_eq in Hs. injection Hs as <-.
    assert (Hw' : linked w').
    { apply Hkeep. intros cid a Hmap. cbn [session_world session calls] in *.
      apply (Hlink key se (Hstored cid a Hmap) cid a Hmap). }
    intros cid a Hmap. apply (Hw' cid a Hmap).
  - rewrite lookup_insert_ne in Hs by congruence.
    intros cid a Hmap. cbn [session calls] in *.
    destruct (Hlink k s Hs cid a Hmap) as (c & Hc & Hid).
    cbn [session_world calls] in Hc.
    exists c. split; [|exact Hid]. apply Hout; [exact Hc|].
    intros cid' Hmap'. apply Hne.
    apply (HC k key s se cid cid' a Hs (Hstored cid' a Hmap') Hmap Hmap').
Qed.

Lemma linked_step ext p ev :
  separate p -> linked_process p -> linked_process (process_step ext p ev).
Proof.
  intros Hsep Hlink. destruct ev as [key data|key self rnd|key]; simpl.
  - unfold SipServer_handle_io_in.
    pose proof (own_handle_io_in ext data (session_world (session_for ext key p) p))
      as Hown.
    pose proof (linked_handle_io_in ext data
                  (session_world (session_for ext key p) p)) as Hkeep.
    destruct (handle_io_in ext data (session_world (session_for ext key p) p))
      as [w' r]. cbn [fst] in *.
    apply (linked_store key (session_for ext key p)); auto.
    unfold session_for. destruct (_sessions p !! key) as [se|] eqn:Hs; [auto|].
    intros cid a Hmap. cbn in Hmap. rewrite lookup_empty in Hmap. discriminate.
  - destruct (_sessions p !! key) as [se|] eqn:Hs; [|exact Hlink].
    destruct (holds se self) eqn:Hholds; [|exact Hlink].
    destruct (holds_spec se self Hholds) as [cid Hmap].
    apply (linked_store key se); auto.
    + apply (own_fire self cid rnd (session_world se p)). exact Hmap.
    + unfold keeps_linked.
      apply (linked_fire self cid rnd (session_world se p)). exact Hmap.
  - destruct (_sessions p !! key) as [se|] eqn:Hs; [|exact Hlink].
    intros k s Hk cid a Hmap. rewrite sessions_close in Hk.
    apply lookup_delete_Some in Hk as [_ Hk].
    destruct (Hlink k s Hk cid a Hmap) as (c & Hc & Hid).
    cbn [session_world calls] in *. rewrite objects_close.
    destruct (close_calls_keeps (map_to_list (_callids se)).*1
                (session_world se p) a c Hc) as (c' & Hc' & Hid').
    exists c'. split; [exact Hc'|congruence].
Qed.

Lemma linked_run ext evs : forall p,
  separate p -> linked_process p -> linked_process (process_run ext evs p).
Proof.
  unfold process_run.
  induction evs as [|ev evs IH]; intros p Hsep Hlink; [exact Hlink|].
  apply (IH (process_step ext p ev)).
  - apply separate_step. exact Hsep.
  - apply linked_step; assumption.
Qed.

Lemma linked_init : linked_process Process_init.
Proof. intros key se Hs. cbn in Hs. rewrite lookup_empty in Hs. discriminate. Qed.

Lemma close_calls_spec callids : forall w,
  NoDup callids ->
  (forall cid, cid ∈ callids ->
     exists a c, _callids (session w) !! cid = Some a /\
                 calls w !! a = Some c /\ call_call_id c = cid) ->
  exists w',
    close_calls callids w = (w', Ret tt) /\
    (forall cid, _callids (session w') !! cid =
       if decide (cid ∈ callids) then None else _callids (session w) !! cid) /\
    (forall a, calls w' !! a =
       (fun c => if decide (call_call_id c ∈ callids /\
                            _callids (session w) !! call_call_id c = Some a)
                 then closed_call c else c) <$> calls w !! a) /\
    session w' = set_callids (_callids (session w')) (session w) /\
    reg_manager w' = reg_manager w /\
    wire w' = wire w.
Proof.
  induction callids as [|cid rest IH]; intros w Hnd Hpre.
  - exists w. split; [reflexivity|]. split.
    { intros cid. destruct (decide (cid ∈ [])) as [H|_]; [|reflexivity].
      apply elem_of_nil in H. contradiction. }
    split.
    { intros a. destruct (calls w !! a) as [c|]; [|reflexivity].
      cbn [fmap option_fmap option_map].
      f_equal; try (case_decide as H;
                    [destruct H as [H _]; apply elem_of_nil in H; contradiction
                    |reflexivity]). }
    split; [destruct w as [[] ? ? ?]; reflexivity|]. split; reflexivity.
  - apply NoDup_cons in Hnd as [Hnotin Hnd].
    destruct (Hpre cid (list_elem_of_here _ _)) as (a & c & Hmap & Hobj & Hid).
    set (w1 := closed_world a c w).
    assert (Hpre1 : forall cid', cid' ∈ rest ->
              exists a' c', _callids (session w1) !! cid' = Some a' /\
                            calls w1 !! a' = Some c' /\ call_call_id c' = cid').
    { intros cid' Hin'.
      destruct (Hpre cid' (list_elem_of_further _ _ _ Hin'))
        as (a' & c' & Hm' & Ho' & Hi').
      assert (Hne : cid' <> cid) by (intros ->; contradiction).
      assert (Hne' : a' <> a) by (intros ->; congruence).
      exists a', c'. unfold w1, closed_world.
      cbn [session calls _callids set_callids].
      rewrite lookup_delete_ne by congruence.
      rewrite lookup_insert_ne by congruence. auto. }
    destruct (IH w1 Hnd Hpre1) as (w' & Hrun & Hids & Hcalls & Hsess & Hreg & Hwire).
    exists w'. split.
    { cbn [close_calls]. unfold bind at 1, get_session. rewrite Hmap.
      unfold bind. rewrite (SipCall_close_spec w a c Hobj). exact Hrun. }
    split.
    { intros x. rewrite Hids. unfold w1, closed_world.
      cbn [session _callids set_callids]. rewrite Hid.
      destruct (decide (x ∈ rest)) as [Hx|Hx];
        destruct (decide (x ∈ cid :: rest)) as [Hx'|Hx']; try reflexivity.
      - exfalso. apply Hx'. apply list_elem_of_further. exact Hx.
      - apply elem_of_cons in Hx' as [->|Hx']; [|contradiction].
        apply lookup_delete_eq.
      - apply lookup_delete_ne. intros <-. apply Hx'. apply list_elem_of_here. }
    split.
    { intros x. rewrite Hcalls. unfold w1, closed_world.
      cbn [session calls _callids set_callids]. rewrite Hid.
      destruct (decide (x = a)) as [->|Hne].
      - rewrite lookup_insert_eq, Hobj. cbn [fmap option_fmap option_map].
        f_equal.
        change (call_call_id (set_closed (on_timer Timer_stop (set_rtp_stream None c))))
          with (call_call_id c).
        rewrite Hid.
        assert (Hin : cid ∈ cid :: rest /\ _callids (session w) !! cid = Some a)
          by (split; [apply list_elem_of_here | exact Hmap]).
        repeat case_decide; first [reflexivity | tauto].
      - rewrite lookup_insert_ne by congruence.
        destruct (calls w !! x) as [cx|] eqn:Hx; [|reflexivity].
        cbn [fmap option_fmap option_map]. f_equal.
        assert (Hiff :
                  (call_call_id cx ∈ rest /\
                   delete cid (_callids (session w)) !! call_call_id cx = Some x) <->
                  (call_call_id cx ∈ cid :: rest /\
                   _callids (session w) !! call_call_id cx = Some x)).
        { split.
          - intros [H1 H2]. apply lookup_delete_Some in H2 as [_ H2].
            split; [apply list_elem_of_further; exact H1 | exact H2].
          - intros [H1 H2]. apply elem_of_cons in H1 as [Heq|H1].
            + rewrite Heq, Hmap in H2. congruence.
            + split; [exact H1|]. rewrite lookup_delete_ne; [exact H2|].
              intros Heq. rewrite <- Heq, Hmap in H2. congruence. }
        repeat case_decide; first [reflexivity | tauto]. }
    split.
    { transitivity (set_callids (_callids (session w')) (session w1));
        [exact Hsess | reflexivity]. }
    split; [rewrite Hreg | rewrite Hwire]; reflexivity.
Qed.

Lemma close_calls_any_order callids callids' w :
  callids ≡ₚ callids' ->
  NoDup callids ->
  (forall cid, cid ∈ callids ->
     exists a c, _callids (session w) !! cid = Some a /\
                 calls w !! a = Some c /\ call_call_id c = cid) ->
  close_calls callids w = close_calls callids' w.
Proof.
  intros Hperm Hnd Hpre.
  assert (Hin : forall x, x ∈ callids <-> x ∈ callids')
    by (intros x; rewrite Hperm; reflexivity).
  destruct (close_calls_spec callids w Hnd Hpre)
    as (w1 & -> & Hids1 & Hcalls1 & Hsess1 & Hreg1 & Hwire1).
  destruct (close_calls_spec callids' w)
    as (w2 & -> & Hids2 & Hcalls2 & Hsess2 & Hreg2 & Hwire2).
  { rewrite <- Hperm. exact Hnd. }
  { intros cid Hc. apply Hpre, Hin, Hc. }
  f_equal.
  assert (Hids : _callids (session w1) = _callids (session w2)).
  { apply map_eq. intros x. rewrite Hids1, Hids2.
    destruct (decide (x ∈ callids)) as [H|H];
      destruct (decide (x ∈ callids')) as [H'|H']; try reflexivity.
    - exfalso. apply H', Hin, H.
    - exfalso. apply H, Hin, H'. }
  assert (Hcalls : calls w1 = calls w2).
  { apply map_eq. intros x. rewrite Hcalls1, Hcalls2.
    destruct (calls w !! x) as [cx|]; [|reflexivity].
    cbn [fmap option_fmap option_map]. f_equal.
    pose proof (Hin (call_call_id cx)) as Hiff.
    repeat case_decide; first [reflexivity | tauto]. }
  destruct w1 as [s1 c1 r1 wi1], w2 as [s2 c2 r2 wi2].
  cbn [session calls reg_manager wire] in *.
  rewrite Hsess1, Hsess2, Hids, Hcalls, Hreg1, Hreg2, Hwire1, Hwire2.
  reflexivity.
Qed.

(** X26. The sustain timeout closes the session and all its calls, and
    tells nobody: in every state the server can reach, the callback of the
    sustain timer of a session returns without raising; the session is no
    longer in [_sessions] while the sessions of all other 4-tuples are as
    they were; every call the session held is closed, its timer not active
    and its RTP stream gone, in the state it was in; every other call
    object, the registrations and what was sent are unchanged, so no
    response and no BYE goes to the peer; and in whatever order the
    Call-IDs of the session are walked, closing its calls gives the same
    result.  For a 4-tuple without a session no sustain timer is pending
    and the event changes nothing. *)
Theorem sustain_timeout_closes_the_session
    (ext : Collaborators) (evs : list ProcessEvent) (key : SessionKey) :
  let p := process_run ext evs Process_init in
  let p' := process_step ext p (SustainTimeout key) in
  match _sessions p !! key with
  | None => p' = p
  | Some se =>
      SipSession_close se p = (p', Ret tt) /\
      _sessions p' !! key = None /\
      (forall other, other <> key -> _sessions p' !! other = _sessions p !! other) /\
      (forall cid a, _callids se !! cid = Some a ->
         exists c c',
           objects p !! a = Some c /\
           objects p' !! a = Some c' /\
           call_closed c' = true /\
           active (invite_handler c') = false /\
           _rtp_stream c' = None /\
           call_state c' = call_state c /\
           call_call_id c' = cid) /\
      (forall a, (forall cid, _callids se !! cid <> Some a) ->
         objects p' !! a = objects p !! a) /\
      registry p' = registry p /\
      sent_datagrams p' = sent_datagrams p /\
      (forall callids, callids ≡ₚ (map_to_list (_callids se)).*1 ->
         close_calls callids (session_world se p) =
         close_calls (map_to_list (_callids se)).*1 (session_world se p))
  end.
Proof.
  intros p p'.
  pose proof (separate_run ext evs Process_init separate_init) as Hsep.
  pose proof (linked_run ext evs Process_init separate_init linked_init) as Hlink.
  fold p in Hsep, Hlink. unfold p'. simpl process_step.
  destruct (_sessions p !! key) as [se|] eqn:Hs; [|reflexivity].
  assert (Hkey : sessionkey se = key) by apply (proj1 Hsep key se Hs).
  assert (Hkeys : forall cid, cid ∈ (map_to_list (_callids se)).*1 <->
                              is_Some (_callids se !! cid)).
  { intros cid. rewrite list_elem_of_fmap. split.
    - intros ([cid' a] & -> & Hin). apply elem_of_map_to_list in Hin. eauto.
    - intros [a Hmap]. exists (cid, a). split; [reflexivity|].
      apply elem_of_map_to_list. exact Hmap. }
  assert (Hpre : forall cid, cid ∈ (map_to_list (_callids se)).*1 ->
            exists a c, _callids (session (session_world se p)) !! cid = Some a /\
                        calls (session_world se p) !! a = Some c /\
                        call_call_id c = cid).
  { intros cid Hin. apply Hkeys in Hin as [a Hmap].
    destruct (Hlink key se Hs cid a Hmap) as (c & Hc & Hid). eauto. }
  assert (Horder : forall callids, callids ≡ₚ (map_to_list (_callids se)).*1 ->
            close_calls callids (session_world se p) =
            close_calls (map_to_list (_callids se)).*1 (session_world se p)).
  { intros callids Hperm. symmetry.
    apply close_calls_any_order;
      [symmetry; exact Hperm | apply NoDup_fst_map_to_list | exact Hpre]. }
  destruct (close_calls_spec (map_to_list (_callids se)).*1 (session_world se p)
              (NoDup_fst_map_to_list _) Hpre)
    as (w' & Hrun & Hids & Hcalls & Hsess & Hreg & Hwire).
  unfold SipSession_close. rewrite Hrun. cbn [fst _sessions objects registry
                                              sent_datagrams].
  cbn [session_world session calls reg_manager wire] in *.
  rewrite Hkey.
  split; [reflexivity|]. split; [apply lookup_delete_eq|].
  split; [intros other Hne; apply lookup_delete_ne; congruence|].
  split.
  { intros cid a Hmap.
    destruct (Hlink key se Hs cid a Hmap) as (c & Hc & Hid).
    cbn [session_world session calls] in Hc.
    exists c, (closed_call c). split; [exact Hc|]. split.
    - rewrite Hcalls, Hc. cbn [fmap option_fmap option_map]. f_equal.
      case_decide as H; [reflexivity|].
      exfalso. apply H. rewrite Hid. split; [|exact Hmap].
      apply Hkeys. eauto.
    - repeat split. exact Hid. }
  split.
  { intros a Hout. rewrite Hcalls.
    destruct (objects p !! a) as [c|]; [|reflexivity].
    cbn [fmap option_fmap option_map]. f_equal.
    case_decide as H; [|reflexivity].
    destruct H as [_ H]. exfalso. apply (Hout _ H). }
  split; [exact Hreg|]. split; [exact Hwire|].
  intros callids Hperm. rewrite <- Hrun. apply Horder, Hperm.
Qed.

(** * The further properties at concrete requests *)

Example demo_dump_file :
  Demo2.dump_file = "var/dionaea/rtp/2010-06-01/12:00:00_198.51.100.7_4000_in.rtp".
Proof. vm_compute. reflexivity. Qed.

(** A session that made one call and is closed by its sustain timer after
    the call's timer expired once: the session is gone, the call is closed
    in the state it had, only the 100 was ever sent; a datagram that comes
    later from the same peer finds a new session, which has recorded only
    that datagram and answers it. *)
Example demo_sustain_timeout :
  let evs := [Receive Demo.key "INVITE"; TimerOf Demo.key 0 0;
              SustainTimeout Demo.key] in
  let p := process_run Demo2.ext evs Process_init in
  let p' := process_run Demo2.ext
              (evs ++ [TimerOf Demo.key 0 0; Receive Demo.key "OPTIONS"])
              Process_init in
  _sessions p !! Demo.key = None /\
  call_closed <$> objects p !! 0%nat = Some true /\
  call_state <$> objects p !! 0%nat = Some INVITE_TRYING /\
  (fun c => active (invite_handler c)) <$> objects p !! 0%nat = Some false /\
  sent_datagrams p = [(fst Demo.key, snd Demo.key, Dumps (create_response Demo.invite 100))] /\
  objects p' = objects p /\
  (bistream <$> _sessions p' !! Demo.key) =
    Some [(dir_in, Raw "OPTIONS"); (dir_out, Dumps (options_response Demo2.options))] /\
  received_since Demo.key (evs ++ [TimerOf Demo.key 0 0; Receive Demo.key "OPTIONS"])
    = ["OPTIONS"].
Proof. vm_compute. repeat split. Qed.


Lemma ack_and_bye_ignored_unless_cancelled_witness :
  handle_ACK Demo2.bye (Demo.after_timer 3) = (Demo.after_timer 3, Ret tt) /\
  handle_BYE Demo2.bye (Demo.after_timer 3) = (Demo.after_timer 3, Ret tt).
Proof.
  apply (ack_and_bye_ignored_unless_cancelled (Demo.after_timer 3) "call-1" 0
           (Demo.the_call (Demo.after_timer 3)) Demo2.bye);
    try (vm_compute; reflexivity).
  vm_compute. discriminate.
Defined.

Lemma bye_closes_cancelled_call_witness :
  handle_BYE Demo2.bye Demo.cancelled_world =
  (closed_world 0 (Demo.the_call Demo.cancelled_world)
     (after_send (create_response Demo2.bye 200) Demo.cancelled_world), Ret tt).
Proof.
  destruct (bye_closes_cancelled_call Demo.cancelled_world "call-1" 0
              (Demo.the_call Demo.cancelled_world) Demo2.bye) as [Hrun _];
    first [exact Hrun | vm_compute; reflexivity].
Defined.

Lemma cancel_ignored_outside_invite_states_witness :
  handle_CANCEL (Demo.request "CANCEL" 1) (Demo.after_timer 3)
    = (Demo.after_timer 3, Ret tt).
Proof.
  apply (cancel_ignored_outside_invite_states (Demo.after_timer 3) "call-1" 0
           (Demo.the_call (Demo.after_timer 3)) (Demo.request "CANCEL" 1)
           {| cseq_seq := 1; cseq_method := "CANCEL" |});
    try (vm_compute; reflexivity).
  intros [H|[H|H]]; vm_compute in H; discriminate.
Defined.

Lemma settled_call_is_final_witness :
  run_call 0 [EvBYE Demo2.bye; EvCANCEL (Demo.request "CANCEL" 1); EvTimer 1;
              EvACK (Demo.request "ACK" 1)] (Demo.after_timer 3)
    = Demo.after_timer 3.
Proof.
  apply (settled_call_is_final (Demo.after_timer 3) 0
           (Demo.the_call (Demo.after_timer 3))).
  - vm_compute. reflexivity.
  - split; [vm_compute; reflexivity | left; vm_compute; reflexivity].
Defined.

Lemma cancelled_call_stays_silent_witness :
  run_call 0 [EvTimer 3; EvCANCEL (Demo.request "CANCEL" 1); EvTimer 0]
    Demo.cancelled_world = Demo.cancelled_world.
Proof.
  apply (cancelled_call_stays_silent Demo.cancelled_world 0
           (Demo.the_call Demo.cancelled_world));
    vm_compute; reflexivity.
Defined.


Lemma answered_call_owns_rtp_stream_witness :
  exists w2,
    handle_INVITE Demo.ext Demo.invite Demo.start = (w2, Ret tt) /\
    forall r1 r2 r3,
      _rtp_stream <$> calls (run_call 0 [EvTimer r1; EvTimer r2; EvTimer r3] w2) !! 0%nat
        = Some (Some {| rtp_local_host := "192.0.2.10";
                        rtp_remote_host := "198.51.100.7";
                        rtp_remote_port := 4000 |}) /\
      exists r,
        last (wire (run_call 0 [EvTimer r1; EvTimer r2; EvTimer r3] w2)) =
          Some (local (session Demo.start), remote (session Demo.start), Dumps r) /\
        status r = 200 /\
        request r = Demo.invite /\
        appended r = [] /\
        res_sdp r = Some {| sdp_name := user_sdp Demo.alice;
                            unicast_address := fst (local (session Demo.start));
                            addrtype := "IP4" |}.
Proof.
  assert (Hwin : pickup_delay_min Demo.alice <= pickup_delay_max Demo.alice)
    by (simpl; lia).
  destruct (answered_call_owns_rtp_stream Demo.ext Demo.start Demo.invite
              "Application/SDP"
              [{| media := "video"; port := 5004 |};
               {| media := "audio"; port := 4000 |}]
              {| media := "audio"; port := 4000 |} "call-1" "alice" Demo.alice
              eq_refl eq_refl eq_refl eq_refl eq_refl eq_refl eq_refl eq_refl Hwin)
    as (w2 & Hrun & Hafter).
  exists w2. split; [exact Hrun|].
  intros r1 r2 r3. destruct (Hafter r1 r2 r3) as (_ & Hrtp & _ & Hsdp & _).
  split; [exact Hrtp | exact Hsdp].
Defined.

Lemma requests_for_unknown_call_id_are_ignored_witness :
  handle_ACK Demo2.bye Demo.start = (Demo.start, Ret tt) /\
  handle_BYE Demo2.bye Demo.start = (Demo.start, Ret tt) /\
  (is_Some (h_cseq Demo2.bye) ->
   handle_CANCEL Demo2.bye Demo.start = (Demo.start, Ret tt)).
Proof.
  apply (requests_for_unknown_call_id_are_ignored Demo.start Demo2.bye "call-1");
    reflexivity.
Defined.

Lemma requests_without_call_id_raise_witness :
  handle_io_in Demo2.ext "ACK without Call-ID" Demo.start =
  (after_receive "ACK without Call-ID" Demo.start, Raise AttributeError).
Proof.
  destruct (requests_without_call_id_raise Demo2.ext Demo.start
              "ACK without Call-ID" Demo2.ack_without_call_id "ACK" "ACK")
    as (_ & _ & _ & Hrun);
    first [exact Hrun | apply list_elem_of_here | vm_compute; reflexivity].
Defined.

Lemma invite_without_audio_sdp_is_dropped_witness :
  handle_io_in Demo2.ext "INVITE video" Demo.start =
  (after_receive "INVITE video" Demo.start, Ret 12).
Proof.
  destruct (invite_without_audio_sdp_is_dropped Demo2.ext Demo.start
              "INVITE video" Demo2.invite_video "INVITE")
    as (_ & Hrun);
    first [exact Hrun | vm_compute; reflexivity | idtac].
  right. right. right. exists [{| media := "video"; port := 5004 |}].
  split; [reflexivity|]. repeat constructor. vm_compute. discriminate.
Defined.

Lemma unknown_method_gets_501_witness :
  handle_io_in Demo2.ext "SUBSCRIBE" Demo.start =
  (after_send (create_response Demo2.subscribe 501)
     (after_receive "SUBSCRIBE" Demo.start), Ret 9).
Proof.
  apply (unknown_method_gets_501 Demo2.ext Demo.start "SUBSCRIBE" Demo2.subscribe).
  - vm_compute. reflexivity.
  - intros m name Hm Hup. injection Hm as <-. injection Hup as <-.
    intros Hin. apply list_elem_of_In in Hin. vm_compute in Hin.
    intuition discriminate.
Defined.

Lemma options_gets_200_witness :
  handle_io_in Demo2.ext "OPTIONS" Demo.start =
  (after_send (options_response Demo2.options) (after_receive "OPTIONS" Demo.start),
   Ret 7).
Proof.
  destruct (options_gets_200 Demo2.ext Demo.start "OPTIONS" Demo2.options "OPTIONS")
    as (Hrun & _); first [exact Hrun | vm_compute; reflexivity].
Defined.

Lemma register_without_password_succeeds_witness :
  handle_REGISTER Demo2.ext Demo2.register_bob Demo.start =
  (registered "bob" (Some "z9hG4bK74bf9") Demo2.register_bob Demo.start, Ret tt).
Proof.
  destruct (register_without_password_succeeds Demo2.ext Demo.start
              Demo2.register_bob {| via_branch := Some "z9hG4bK74bf9" |}
              "bob" Demo2.bob) as (Hrun & _);
    first [exact Hrun | vm_compute; reflexivity].
Defined.

Lemma verified_register_can_be_repeated_witness :
  let w := Demo.receive ["REGISTER"] Demo.start in
  let w1 := registered "alice" (Some "z9hG4bK74bf9") Demo.register_test w in
  let w2 := registered "alice" (Some "z9hG4bK74bf9") Demo.register_test w1 in
  handle_REGISTER Demo.ext Demo.register_test w = (w1, Ret tt) /\
  handle_REGISTER Demo.ext Demo.register_test w1 = (w2, Ret tt) /\
  registrations "alice" (reg_manager w2) =
    registrations "alice" (reg_manager w)
      ++ [User_init "alice" (Some "z9hG4bK74bf9");
          User_init "alice" (Some "z9hG4bK74bf9")].
Proof.
  intros w w1 w2.
  destruct (verified_register_can_be_repeated Demo.ext w Demo.register_test
              {| via_branch := Some "z9hG4bK74bf9" |} "alice" Demo.alice
              (Demo.digest "alice" "example.org" "test")
              (digest_challenge (PyStr "foobar123") Demo.alice))
    as (Hrun1 & _ & Hrun2 & Hreg & _);
    [ constructor; try (vm_compute; reflexivity); exists "secret"; reflexivity
    | vm_compute; reflexivity
    | vm_compute; reflexivity
    | ].
  split; [exact Hrun1|]. split; [exact Hrun2 | exact Hreg].
Defined.

Lemma failed_open_disables_recording_witness :
  rtp_receive true [(Demo2.fs_no_file, "one"); (Demo2.fs_ok, "two")] Demo2.dump =
  (not_recording "", [RtpRet 3; RtpRet 3]).
Proof.
  apply (failed_open_disables_recording Demo2.fs_no_file Demo2.dump_file
           Demo2.dump "one" [(Demo2.fs_ok, "two")]);
    try reflexivity.
  - vm_compute. discriminate.
  - right. reflexivity.
Defined.

Lemma dump_file_holds_the_stream_witness :
  rtp_receive true [(Demo2.fs_ok, "one"); (Demo2.fs_no_file, "two")] Demo2.dump =
  (recording (Some Demo2.dump_file) "" ["one"; "two"], [RtpRet 3; RtpRet 3]).
Proof.
  apply (dump_file_holds_the_stream Demo2.fs_ok Demo2.dump_file
           Demo2.dump "one" [(Demo2.fs_no_file, "two")]);
    try reflexivity.
  - vm_compute. discriminate.
  - left. reflexivity.
Defined.

Lemma mkdir_error_leaves_handle_io_in_witness :
  RtpUdpStream_handle_io_in true Demo2.fs_no_directory "one" Demo2.dump =
  (Demo2.dump, RtpRaise (OSError 13)).
Proof.
  destruct (mkdir_error_leaves_handle_io_in Demo2.fs_no_directory Demo2.fs_ok
              Demo2.dump_file Demo2.dump "one" "two" 13) as (Hrun & _);
    first [exact Hrun | reflexivity | vm_compute; discriminate].
Defined.

Lemma dump_directory_is_the_date_directory_witness :
  rsplit_dir Demo2.dump_file = "var/dionaea/rtp/2010-06-01".
Proof.
  apply (dump_directory_is_the_date_directory
           "2010-06-01" "12:00:00" "198.51.100.7" 4000); reflexivity.
Defined.
